(** * Resource store of the LDP server (lib/ldp.js)

    A shallow embedding of the [LDP] class: the operations [get], [put],
    [post], [delete], [getAvailablePath] and their helpers are written as
    functions in a state-and-error monad over a world made of a disk, a
    lock table and a call log; the outcome of a call is a value, a
    rejection, or a promise that is never settled.  The collaborators
    the class receives or requires (resource mapper, quota oracle,
    container materializer, the URI and path libraries) are fields of
    an environment record. *)

From Stdlib Require Import ZArith String Ascii List Lia Bool.
From stdpp Require Import gmap strings list.

Local Open Scope string_scope.
Local Open Scope Z_scope.
Local Open Scope list_scope.

(** ** JavaScript strings and numbers *)

Module Js.

(** Strings are sequences of bytes.  [s.endsWith(suffix)]. *)
Definition endsWith (s suffix : string) : bool :=
  let n := String.length s in
  let m := String.length suffix in
  (m <=? n)%nat && String.eqb (substring (n - m) m s) suffix.

(** [s.includes(c)] for a one-character [c]. *)
Fixpoint includes (c : ascii) (s : string) : bool :=
  match s with
  | EmptyString => false
  | String a rest => Ascii.eqb a c || includes c rest
  end.

(** [s.split(c)] for a one-character separator: always at least one
    piece, the pieces hold no separator. *)
Fixpoint split (c : ascii) (s : string) : list string :=
  match s with
  | EmptyString => [EmptyString]
  | String a rest =>
      if Ascii.eqb a c then EmptyString :: split c rest
      else match split c rest with
           | piece :: pieces => String a piece :: pieces
           | [] => [String a EmptyString]
           end
  end.

(** [s.replace(/pat/, '')] for a literal pattern: the first occurrence
    of [pat] is removed, the string is unchanged when there is none. *)
Fixpoint remove_first (pat s : string) : string :=
  if String.prefix pat s then substring (String.length pat) (String.length s) s
  else match s with
       | EmptyString => EmptyString
       | String a rest => String a (remove_first pat rest)
       end.

(** Numbers: the integers the store computes with, and NaN.  A number
    of the language is a double: it is the integer written here as
    long as that is a safe integer, and a rounded one beyond, which
    this type does not follow. *)
Inductive number := NaN | Num (z : Z).

(** [Number.isSafeInteger] *)
Definition is_safe_integer (z : Z) : bool := Z.abs z <=? 2 ^ 53 - 1.

Definition sub (a b : number) : number :=
  match a, b with
  | Num x, Num y => Num (x - y)
  | _, _ => NaN
  end.

Definition add (a b : number) : number :=
  match a, b with
  | Num x, Num y => Num (x + y)
  | _, _ => NaN
  end.

(** Truthiness of a number: 0 and NaN are falsy. *)
Definition truthy (a : number) : bool :=
  match a with
  | NaN => false
  | Num z => negb (z =? 0)
  end.

Definition is_digit (a : ascii) : bool :=
  let n := nat_of_ascii a in ((48 <=? n) && (n <=? 57))%nat.

Definition digit_value (a : ascii) : Z := Z.of_nat (nat_of_ascii a - 48).

Definition is_space (a : ascii) : bool :=
  let n := nat_of_ascii a in
  ((n =? 32) || ((9 <=? n) && (n <=? 13)))%nat.

Fixpoint skip_spaces (s : string) : string :=
  match s with
  | String a rest => if is_space a then skip_spaces rest else s
  | EmptyString => s
  end.

(** The longest prefix of decimal digits, read as a number; [None] when
    there is no digit at the front. *)
Fixpoint read_digits (acc : option Z) (s : string) : option Z :=
  match s with
  | String a rest =>
      if is_digit a
      then read_digits (Some (10 * default 0 acc + digit_value a)) rest
      else acc
  | EmptyString => acc
  end.

(** [parseInt(s, 10)]: leading white space is skipped, a sign is
    accepted, the digits are read up to the first other character, and
    the result is NaN when no digit was read.  The value is the one of
    the language for digits that denote a safe integer. *)
Definition parseInt (s : string) : number :=
  match skip_spaces s with
  | String "-" rest =>
      match read_digits None rest with Some z => Num (- z) | None => NaN end
  | String "+" rest =>
      match read_digits None rest with Some z => Num z | None => NaN end
  | t => match read_digits None t with Some z => Num z | None => NaN end
  end.

Definition digit_char (n : nat) : ascii := ascii_of_nat (48 + n).

Fixpoint show_digits (fuel n : nat) (acc : string) : string :=
  match fuel with
  | O => acc
  | S fuel' =>
      let acc' := String (digit_char (n mod 10)) acc in
      if (n <? 10)%nat then acc' else show_digits fuel' (n / 10) acc'
  end.

(** Decimal notation of a natural number. *)
Definition show_nat (n : nat) : string := show_digits (S n) n "".

Definition show_Z (z : Z) : string :=
  if z <? 0 then "-" +:+ show_nat (Z.to_nat (- z)) else show_nat (Z.to_nat z).

(** String conversion of a number, as in ['bytes ' + start]. *)
Definition toString (a : number) : string :=
  match a with
  | NaN => "NaN"
  | Num z => show_Z z
  end.

End Js.

(** ** Errors and results *)

(** Codes of the raw errors of [fs] and [proper-lockfile]. *)
Inductive Errno := ENOENT | EISDIR | ENOTDIR | EEXIST | EPERM | EIO | ELOCKED.

(** What an operation can throw: an HTTP error built by [error(status,
    message)], a raw system error, or one of the built-in exceptions. *)
Inductive Error :=
| HttpError (status : Z) (message : string)
| SysError (code : Errno)
| RangeError
| URIError
| TypeError.

Inductive Result (A : Type) :=
| Ok (a : A)
| Err (e : Error).
Arguments Ok {A} a.
Arguments Err {A} e.

(** What becomes of the promise of an async function: it is settled,
    with a value or a rejection, or it stays pending for ever. *)
Inductive Outcome (A : Type) :=
| Settled (r : Result A)
| Pending.
Arguments Settled {A} r.
Arguments Pending {A}.

Coercion Settled : Result >-> Outcome.

(** Pairs and options take their type from where they stand, so that a
    result is read as a settled outcome wherever an outcome is due. *)
Arguments pair {A B}%_type_scope & a b.
Arguments Some {A}%_type_scope & a.

(** Fulfilled with a value. *)
Definition is_ok {A} (o : Outcome A) : bool :=
  match o with Settled (Ok _) => true | _ => false end.

(** [err.status]: only HTTP errors carry one. *)
Definition err_status (e : Error) : option Z :=
  match e with
  | HttpError status _ => Some status
  | _ => None
  end.

Definition errno_name (c : Errno) : string :=
  match c with
  | ENOENT => "ENOENT" | EISDIR => "EISDIR" | ENOTDIR => "ENOTDIR"
  | EEXIST => "EEXIST" | EPERM => "EPERM" | EIO => "EIO" | ELOCKED => "ELOCKED"
  end.

(** [err.message] *)
Definition err_message (e : Error) : string :=
  match e with
  | HttpError _ message => message
  | SysError code => errno_name code
  | RangeError => "RangeError"
  | URIError => "URI malformed"
  | TypeError => "TypeError"
  end.

(** Modelled from the spec: the http-error module (required as [error])
    is not among the sources.  Called with a number it builds the HTTP
    error of that status. *)
Definition error (status : Z) (message : string) : Error :=
  HttpError status message.

(** Modelled from the spec: [error(err, message)] called with a caught
    error object instead of a number.  Sections 4.2, 4.6 and 7 of the
    specification name the outcome of wrapping a raw failure of
    directory creation, removal, unlink or stream I/O a ServerError. *)
Definition error_from (err : Error) (message : string) : Error :=
  HttpError 500 message.

(** Modelled from the spec: [error(err.status, err.message)] as
    [readResource] calls it; the status is absent when the caught error
    is a raw one, which section 7 classes as an internal failure. *)
Definition error_status (status : option Z) (message : string) : Error :=
  match status with
  | Some s => HttpError s message
  | None => HttpError 500 message
  end.

(** ** The disk *)

(** A path string names a sequence of segments: empty and [.] segments
    are skipped and [..] steps back, as the operating system resolves
    it (from the root; symbolic links are not modelled). *)
Fixpoint resolve (parts acc : list string) : list string :=
  match parts with
  | [] => acc
  | part :: rest =>
      if String.eqb part "" || String.eqb part "." then resolve rest acc
      else if String.eqb part ".." then resolve rest (removelast acc)
      else resolve rest (acc ++ [part])
  end.

Definition segments (path : string) : list string :=
  resolve (Js.split "/" path) [].

Inductive Node :=
| File (content : string)
| Dir.

(** The disk maps resolved paths to nodes; the root is always a
    directory. *)
Abbreviation Disk := (gmap (list string) Node).

Definition node_at (d : Disk) (k : list string) : option Node :=
  match k with
  | [] => Some Dir
  | _ => d !! k
  end.

Definition content_at (d : Disk) (path : string) : option string :=
  match node_at d (segments path) with
  | Some (File content) => Some content
  | _ => None
  end.

Record Stats := { isDirectory : bool; size : nat }.

(** The [Stats] of a node: a file has the size of its content; the
    size of a directory is the file system's business, and is given. *)
Definition stats_of (directorySize : nat) (n : Node) : Stats :=
  match n with
  | File content => {| isDirectory := false; size := String.length content |}
  | Dir => {| isDirectory := true; size := directorySize |}
  end.

(** All the non-empty prefixes of [k], shortest first. *)
Fixpoint ancestors_from (base rest : list string) : list (list string) :=
  match rest with
  | [] => []
  | name :: rest' => (base ++ [name]) :: ancestors_from (base ++ [name]) rest'
  end.

Definition is_file (o : option Node) : bool :=
  match o with Some (File _) => true | _ => false end.

Definition make_dir (k : list string) (d : Disk) : Disk :=
  match d !! k with
  | None => <[k := Dir]> d
  | Some _ => d
  end.

(** [mkdirp(dir)]: every missing directory on the way to [dir] is
    created; when a file is in the way nothing is created. *)
Definition disk_mkdirp (d : Disk) (dir : string) : Result Disk :=
  let ks := ancestors_from [] (segments dir) in
  if existsb (fun k => is_file (d !! k)) ks then Err (SysError ENOTDIR)
  else Ok (foldr make_dir d ks).

(** The entry names of the directory at [k]. *)
Definition child_name (k k' : list string) : option string :=
  match last k' with
  | Some name => if decide (k' = k ++ [name]) then Some name else None
  | None => None
  end.

Definition disk_readdir (d : Disk) (dir : string) : Result (list string) :=
  match node_at d (segments dir) with
  | Some Dir => Ok (omap (fun kv => child_name (segments dir) kv.1) (map_to_list d))
  | Some (File _) => Err (SysError ENOTDIR)
  | None => Err (SysError ENOENT)
  end.

(** [rimraf(dir)]: the whole tree below (and including) the path goes. *)
Definition disk_rimraf (d : Disk) (dir : string) : Disk :=
  filter (fun kv => ¬ (segments dir `prefix_of` kv.1)) d.

Definition disk_unlink (d : Disk) (path : string) : Result Disk :=
  match node_at d (segments path) with
  | Some (File _) => Ok (delete (segments path) d)
  | Some Dir => Err (SysError EISDIR)
  | None => Err (SysError ENOENT)
  end.

(** ** The world and its monad *)

Inductive Event :=
| EvMapUrlToFile
| EvMapFileToUrl (path : string)
| EvQuota
| EvStat (path : string)
| EvReadFile (path : string)
| EvMkdirp (dir : string)
| EvLock (path : string)
| EvRelease (key : list string)
| EvCreateWriteStream (path : string)
| EvCreateReadStream (path : string)
| EvReaddir (dir : string)
| EvRimraf (dir : string)
| EvUnlink (path : string)
| EvUuid.

(** The state the store acts on: the disk, the lock files currently held
    (by this or by any other operation), the number of uuids drawn so
    far, and the calls made to the outside, latest last. *)
Record World := mkWorld {
  disk : gmap (list string) Node;
  held : gset (list string);
  clock : nat;
  log : list Event
}.

Definition M (A : Type) : Type := World -> Outcome A * World.

Definition ret {A} (a : A) : M A := fun w => (Ok a, w).

Definition throw {A} (e : Error) : M A := fun w => (Err e, w).

(** A promise that is never settled: what awaits it never goes on. *)
Definition pending {A} : M A := fun w => (Pending, w).

(** [const a = await m; k a] *)
Definition bind {A B} (m : M A) (k : A -> M B) : M B :=
  fun w => match m w with
           | (Settled (Ok a), w') => k a w'
           | (Settled (Err e), w') => (Err e, w')
           | (Pending, w') => (Pending, w')
           end.

Notation "'let*' x ':=' m 'in' k" := (bind m (fun x => k))
  (at level 10, x pattern, m at level 100, k at level 200).

(** [try { body } catch (err) { handler(err) }] *)
Definition try_catch {A} (body : M A) (handler : Error -> M A) : M A :=
  fun w => match body w with
           | (Settled (Ok a), w') => (Ok a, w')
           | (Settled (Err e), w') => handler e w'
           | (Pending, w') => (Pending, w')
           end.

(** A promise of a value or a rejection that was already computed. *)
Definition lift {A} (r : Result A) : M A := fun w => (Settled r, w).

Definition emit (ev : Event) : M unit :=
  fun w => (Ok tt, mkWorld (disk w) (held w) (clock w) (log w ++ [ev])).

Definition set_disk (d : Disk) : M unit :=
  fun w => (Ok tt, mkWorld d (held w) (clock w) (log w)).

Definition get_disk : M Disk := fun w => (Ok (disk w), w).

(** The readable stream a caller hands to [put] or [post], as [pipe]
    and the file stream see it: the data it delivers, and whether it
    then ends (its ['end'] event) or stops without ending, because it
    emits ['error'] or because the sender has stalled.  A string is read
    as the stream that delivers it and ends ([stringToStream]). *)
Inductive Readable :=
| Ends (data : string)
| Breaks (data : string).

Coercion Ends : string >-> Readable.

Definition stringToStream (content : string) : Readable := Ends content.

(** What the stream delivers before it ends or stops. *)
Definition delivered (stream : Readable) : string :=
  match stream with
  | Ends data => data
  | Breaks data => data
  end.

(** ** Collaborators *)

(** The option bag [get] receives, which is also the request-like object
    [put] and the mapper accept in place of a string. *)
Module Options.
Record t := mk {
  url : option string;
  hostname : string;
  path : string;
  includeBody : bool;
  searchIndex : bool;
  range : option string
}.
End Options.

Inductive UrlArg :=
| UrlString (s : string)
| UrlObject (o : Options.t).

(** An RDF graph, as the materializer and the codec see it. *)
Definition Triple : Type := string * string * string.
Abbreviation Graph := (list Triple).

(** [this.resourceMapper]: both maps may consult the disk (index search,
    extension inference) and do not change it. *)
Record ResourceMapper := {
  rootPath : string;
  mapUrlToFile : Disk -> UrlArg -> option string -> bool -> bool -> Result (string * string);
  mapFileToUrl : Disk -> string -> string -> Result (string * string)
}.

(** The fields of the [LDP] object the store reads. *)
Record LDP := {
  suffixAcl : string;
  suffixMeta : string;
  serverUri : string;
  resourceMapper : ResourceMapper
}.

(** The constructor's defaults for the suffixes. *)
Definition LDP_new (acl meta : option string) (uri : string) (mapper : ResourceMapper) : LDP :=
  {| suffixAcl := match acl with Some s => if String.eqb s "" then ".acl" else s | None => ".acl" end;
     suffixMeta := match meta with Some s => if String.eqb s "" then ".meta" else s | None => ".meta" end;
     serverUri := uri;
     resourceMapper := mapper |}.

(** What the module requires from outside the class: built-ins, the
    [path], [urijs] and [uuid] libraries, the quota oracle, the graph
    codec and the container materializer; and what the device decides,
    namely the size it reports for the directory at a (resolved) path,
    after how many bytes a write stream to a path fails, if it does,
    and whether removing a tree fails. *)
Record Env := {
  decodeURIComponent : string -> option string;
  joinPaths : string -> string -> string;
  path_join : string -> string -> string;
  path_dirname : string -> string;
  uuid_v1 : nat -> string;
  overQuota : Disk -> string -> string -> Result bool;
  rdf_parse : string -> Graph -> string -> string -> Result Graph;
  serialize : Graph -> string -> string -> Result string;
  addContainerStats : Disk -> string -> string -> Graph -> Result Graph;
  container_readdir : Disk -> string -> Result (list string);
  addFile : Disk -> Graph -> string -> string -> string -> string -> Result Graph;
  directory_size : Disk -> list string -> nat;
  write_fault : list string -> option nat;
  rimraf_fault : list string -> bool
}.

(** ** Primitive calls *)

Section Primitives.

Variable env : Env.

(** [fs.stat] *)
Definition fs_stat (file : string) : M Stats :=
  let* _ := emit (EvStat file) in
  let* d := get_disk in
  match node_at d (segments file) with
  | Some n => ret (stats_of (directory_size env d (segments file)) n)
  | None => throw (SysError ENOENT)
  end.

(** [fs.readFile(path, {encoding: 'utf8'})] *)
Definition fs_readFile (path : string) : M string :=
  let* _ := emit (EvReadFile path) in
  let* d := get_disk in
  match node_at d (segments path) with
  | Some (File content) => ret content
  | Some Dir => throw (SysError EISDIR)
  | None => throw (SysError ENOENT)
  end.

Definition mkdirp (dir : string) : M unit :=
  let* _ := emit (EvMkdirp dir) in
  let* d := get_disk in
  let* d' := lift (disk_mkdirp d dir) in
  set_disk d'.

Definition fs_readdir (dir : string) : M (list string) :=
  let* _ := emit (EvReaddir dir) in
  let* d := get_disk in
  lift (disk_readdir d dir).

Definition rimraf (dir : string) : M unit :=
  let* _ := emit (EvRimraf dir) in
  if rimraf_fault env (segments dir) then throw (SysError EPERM)
  else let* d := get_disk in set_disk (disk_rimraf d dir).

Definition fs_unlink (path : string) : M unit :=
  let* _ := emit (EvUnlink path) in
  let* d := get_disk in
  let* d' := lift (disk_unlink d path) in
  set_disk d'.

(** [stream.pipe(fs.createWriteStream(path))] and the promise [put]
    builds on it, which listens to the file stream only: it is settled
    by the ['finish'] or the ['error'] event of the file stream.
    Opening fails on a directory or under a missing parent; otherwise
    it truncates (or creates) the file, and the data arrive in order
    until the device fails, if it does.  [pipe] ends the file stream
    when the source ends; a source that stops without ending leaves the
    file stream open with what has arrived, and unless the device has
    failed by then neither event ever comes. *)
Definition pipe_to_file (stream : Readable) (path : string) : M unit :=
  let* _ := emit (EvCreateWriteStream path) in
  let* d := get_disk in
  let k := segments path in
  match node_at d k with
  | Some Dir => throw (SysError EISDIR)
  | _ =>
      match node_at d (removelast k) with
      | Some Dir =>
          match stream with
          | Ends data =>
              match write_fault env k with
              | Some n =>
                  let* _ := set_disk (<[k := File (substring 0 n data)]> d) in
                  throw (SysError EIO)
              | None => set_disk (<[k := File data]> d)
              end
          | Breaks data =>
              match write_fault env k with
              | Some n =>
                  if (n <? String.length data)%nat then
                    let* _ := set_disk (<[k := File (substring 0 n data)]> d) in
                    throw (SysError EIO)
                  else
                    let* _ := set_disk (<[k := File data]> d) in
                    pending
              | None =>
                  let* _ := set_disk (<[k := File data]> d) in
                  pending
              end
          end
      | _ => throw (SysError ENOENT)
      end
  end.

(** [fs.createReadStream(path, options)], up to its ['open'] or
    ['error'] event; the value is what the stream yields when drained.
    With [{start, end}] it yields the bytes at offsets [start] to [end]
    inclusive; the constructor throws on a range that is not
    [0 <= start <= end]. *)
Definition createReadStream (path : string) (options : option (Z * Z)) : M string :=
  let* _ := emit (EvCreateReadStream path) in
  let* d := get_disk in
  match options with
  | Some (start, end_) =>
      if (0 <=? start) && (start <=? end_) then
        match node_at d (segments path) with
        | Some (File content) =>
            ret (substring (Z.to_nat start) (Z.to_nat (end_ - start + 1)) content)
        | Some Dir => throw (SysError EISDIR)
        | None => throw (SysError ENOENT)
        end
      else throw RangeError
  | None =>
      match node_at d (segments path) with
      | Some (File content) => ret content
      | Some Dir => throw (SysError EISDIR)
      | None => throw (SysError ENOENT)
      end
  end.

(** [fs.statSync(path).size] *)
Definition statSync_size (path : string) : M Z :=
  let* st := fs_stat path in ret (Z.of_nat (size st)).

(** [uuid.v1()] *)
Definition uuid (w : World) : string * World :=
  (uuid_v1 env (clock w),
   mkWorld (disk w) (held w) (S (clock w)) (log w ++ [EvUuid])).

(** *** The lock manager ([proper-lockfile]) *)

Record LockOptions := { retries : nat; realpath : bool }.

(** [lock(file, options)]: with [realpath] the file has to exist; a lock
    file that is still held when the retries are used up makes the call
    fail.  The value is the handle that [release] takes. *)
Definition lock (file : string) (options : LockOptions) : M (list string) :=
  let* _ := emit (EvLock file) in
  fun w =>
    let key := segments file in
    if realpath options && negb (bool_decide (is_Some (node_at (disk w) key)))
    then (Err (SysError ENOENT), w)
    else if bool_decide (key ∈ held w) then (Err (SysError ELOCKED), w)
    else (Ok key, mkWorld (disk w) ({[key]} ∪ held w) (clock w) (log w)).

Definition release (key : list string) : M unit :=
  let* _ := emit (EvRelease key) in
  fun w => (Ok tt, mkWorld (disk w) (held w ∖ {[key]}) (clock w) (log w)).

(** The scoped acquisition all four locking operations share:
    [let releaseLock; try { releaseLock = await lock(path, options);
    body } finally { if (releaseLock) await releaseLock() }].  When
    [lock] throws, [releaseLock] is still undefined and the [finally]
    clause has nothing to release; while the body is pending the
    [finally] clause is not reached. *)
Definition with_lock {A} (path : string) (options : LockOptions) (body : M A) : M A :=
  fun w =>
    match lock path options w with
    | (Settled (Ok releaseLock), w1) =>
        match body w1 with
        | (Settled r, w2) =>
            let (_, w3) := release releaseLock w2 in
            (Settled r, w3)
        | (Pending, w2) => (Pending, w2)
        end
    | (Settled (Err e), w1) => (Err e, w1)
    | (Pending, w1) => (Pending, w1)
    end.

End Primitives.

(** ** The operations of the class *)

(** What [get] resolves to: [stream] is the [Stats] object when the body
    was not asked for, the listing of a container, or the bytes the read
    stream of a document yields. *)
Inductive Body :=
| BodyStats (stats : Stats)
| BodyText (data : string)
| BodyBytes (bytes : string).

Record GetResult := {
  stream : Body;
  contentType : string;
  container : bool;
  contentRange : option string;
  chunksize : option Js.number
}.

(** Truthiness of an optional string: [undefined] and [''] are falsy. *)
Definition truthy_string (s : option string) : bool :=
  match s with
  | Some t => negb (String.eqb t "")
  | None => false
  end.

(** A value that may be [undefined], inside a string concatenation. *)
Definition concat_string (s : option string) : string :=
  match s with
  | Some t => t
  | None => "undefined"
  end.

(** [(url.url || url)] in [put]; an object without a usable [url] field
    has no [endsWith] method. *)
Definition target_of (url : UrlArg) : option string :=
  match url with
  | UrlString s => Some s
  | UrlObject o => if truthy_string (Options.url o) then Options.url o else None
  end.

(** [slug.match(/\/|\||:/)] *)
Definition forbidden_slug (slug : string) : bool :=
  Js.includes "/" slug || Js.includes "|" slug || Js.includes ":" slug.

Section Operations.

Variable env : Env.
Variable this : LDP.

Let mapper := resourceMapper this.

(** [this.resourceMapper.mapUrlToFile({ url, contentType,
    createIfNotExists, searchIndex })]; [searchIndex] is [true] when the
    caller leaves it out. *)
Definition call_mapUrlToFile (url : UrlArg) (contentType : option string)
    (createIfNotExists searchIndex : bool) : M (string * string) :=
  let* _ := emit EvMapUrlToFile in
  let* d := get_disk in
  lift (mapUrlToFile mapper d url contentType createIfNotExists searchIndex).

Definition call_mapFileToUrl (path hostname : string) : M (string * string) :=
  let* _ := emit (EvMapFileToUrl path) in
  let* d := get_disk in
  lift (mapFileToUrl mapper d path hostname).

Definition call_overQuota (root uri : string) : M bool :=
  let* _ := emit EvQuota in
  let* d := get_disk in
  lift (overQuota env d root uri).

Definition stat (file : string) : M Stats :=
  try_catch (fs_stat env file)
    (fun err => throw (error_from err ("Can't read metadata of " +:+ file))).

Definition readResource (url : string) : M string :=
  try_catch
    (let* (path, _) := call_mapUrlToFile (UrlString url) None false true in
     with_lock path {| retries := 10; realpath := true |} (fs_readFile path))
    (fun err => throw (error_status (err_status err) (err_message err))).

Definition readContainerMeta (url : string) : M string :=
  let url := if negb (Js.endsWith url "/") then url +:+ "/" else url in
  readResource (url +:+ suffixMeta this).

(** The body of [files.map(async file => ...)] in [listContainer], one
    file after the other. *)
Fixpoint add_files (container reqUri hostname : string) (files : list string)
    (resourceGraph : Graph) : M Graph :=
  match files with
  | [] => ret resourceGraph
  | file :: rest =>
      let* (fileUri, _) := call_mapFileToUrl (path_join env container file) hostname in
      let* d := get_disk in
      let* g := lift (addFile env d resourceGraph reqUri fileUri container file) in
      add_files container reqUri hostname rest g
  end.

Definition listContainer (container reqUri containerData hostname : string) : M string :=
  let* resourceGraph :=
    try_catch (lift (rdf_parse env containerData [] reqUri "text/turtle"))
      (fun _ => throw (error 500 "Can't parse container")) in
  let* resourceGraph :=
    try_catch
      (let* d := get_disk in
       let* g := lift (addContainerStats env d reqUri container resourceGraph) in
       let* files := lift (container_readdir env d container) in
       add_files container reqUri hostname files g)
      (fun _ => throw (error 500 "Can't list container")) in
  try_catch (lift (serialize env resourceGraph reqUri "text/turtle"))
    (fun _ => throw (error 500 "Can't serialize container")).

Definition put (url : UrlArg) (stream : Readable) (contentType : option string) : M unit :=
  match target_of url with
  | None => throw TypeError
  | Some target =>
      if Js.endsWith target "/"
      then throw (error 409 "PUT not supported on containers, use POST instead")
      else if negb (truthy_string contentType)
      then throw (error 415 "PUT request require a valid content type via the Content-Type header")
      else
        let* isOverQuota :=
          try_catch (call_overQuota (rootPath mapper) (serverUri this))
            (fun _ => throw (error 500 "Error finding user quota")) in
        if isOverQuota : bool
        then throw (error 413 "User has exceeded their storage quota")
        else
          let* (path, _) := call_mapUrlToFile url contentType true true in
          let dirName := path_dirname env path in
          let* _ :=
            try_catch (mkdirp dirName)
              (fun err => throw (error_from err "Failed to create the path to the new resource")) in
          with_lock path {| retries := 10; realpath := false |}
            (try_catch (pipe_to_file env stream path)
               (fun _ => throw (error 500 "Error writing data")))
  end.

(** The byte-range header as [get] reads it:
    [(chunksize, contentRange, start, end)]. *)
Definition parse_range (range : string) (total : Z)
    : Js.number * string * Js.number * Js.number :=
  let parts := Js.split "-" (Js.remove_first "bytes=" range) in
  let partialstart := parts !! 0%nat in
  let partialend := parts !! 1%nat in
  let start := Js.parseInt (concat_string partialstart) in
  let end_ :=
    if truthy_string partialend then Js.parseInt (concat_string partialend)
    else Js.Num (total - 1) in
  let chunksize := Js.add (Js.sub end_ start) (Js.Num 1) in
  let contentRange :=
    "bytes " +:+ Js.toString start +:+ "-" +:+ Js.toString end_ +:+ "/" +:+ Js.show_Z total in
  (chunksize, contentRange, start, end_).

(** [start && end ? {start, end} : {}] *)
Definition read_options (start end_ : option Js.number) : option (Z * Z) :=
  match start, end_ with
  | Some (Js.Num s), Some (Js.Num e) =>
      if Js.truthy (Js.Num s) && Js.truthy (Js.Num e) then Some (s, e) else None
  | _, _ => None
  end.

Definition get (options : Options.t) (searchIndex : bool) : M GetResult :=
  let* (path, contentType, stats) :=
    try_catch
      (let* (path, contentType) := call_mapUrlToFile (UrlObject options) None false searchIndex in
       let* stats := stat path in
       ret (path, contentType, stats))
      (fun _ => throw (error 404 "Can't find file requested: [object Object]")) in
  if negb (Options.includeBody options) then
    ret {| stream := BodyStats stats; contentType := contentType;
           container := isDirectory stats; contentRange := None; chunksize := None |}
  else if isDirectory stats then
    let* (absContainerUri, _) := call_mapFileToUrl path (Options.hostname options) in
    let* metaFile := try_catch (readContainerMeta absContainerUri) (fun _ => ret "") in
    let* data := listContainer path absContainerUri metaFile (Options.hostname options) in
    ret {| stream := BodyText data; contentType := "text/turtle";
           container := true; contentRange := None; chunksize := None |}
  else
    let* (chunksize, contentRange, start, end_) :=
      if truthy_string (Options.range options) then
        let* total := statSync_size env path in
        let '(chunksize, contentRange, start, end_) :=
          parse_range (concat_string (Options.range options)) total in
        ret (Some chunksize, Some contentRange, Some start, Some end_)
      else ret (None, None, None, None) in
    with_lock path {| retries := 10; realpath := true |}
      (try_catch
         (let* bytes := createReadStream path (read_options start end_) in
          ret {| stream := BodyBytes bytes; contentType := contentType;
                 container := false; contentRange := contentRange;
                 chunksize := chunksize |})
         (fun err => throw (match err with
                            | SysError _ => error_from err ("Can't read file " +:+ err_message err)
                            | _ => err
                            end))).

(** [exists] (a reserved word here). *)
Definition exists_ (hostname path : string) (searchIndex : bool) : M GetResult :=
  let options := Options.mk None hostname path false searchIndex None in
  get options searchIndex.

Definition deleteContainer (directory : string) : M unit :=
  let directory := if negb (Js.endsWith directory "/") then directory +:+ "/" else directory in
  let* list :=
    try_catch (fs_readdir directory)
      (fun _ => throw (error 404 "The container does not exist")) in
  if existsb (fun file => negb (String.eqb file (suffixMeta this))
                          && negb (String.eqb file (suffixAcl this))) list
  then throw (error 409 "Container is not empty")
  else
    try_catch (rimraf env directory)
      (fun err => throw (error_from err "Failed to delete the container")).

Definition deleteResource (path : string) : M unit :=
  try_catch
    (with_lock path {| retries := 10; realpath := true |} (fs_unlink path))
    (fun err => throw (error_from err "Failed to delete resource")).

(** [delete] (the name is taken by the map library). *)
Definition delete_ (url : string) : M unit :=
  let* (path, stats) :=
    try_catch
      (let* (path, _) := call_mapUrlToFile (UrlString url) None false true in
       let* stats := stat path in
       ret (path, stats))
      (fun err => throw (error 404 ("Can't find " +:+ err_message err))) in
  if isDirectory stats then deleteContainer path else deleteResource path.

(** The first field of a uuid: [uuid.v1().split('-')[0]]. *)
Definition uuid_prefix (u : string) : string :=
  concat_string (Js.split "-" u !! 0%nat).

(** [ensureNotExists] calls itself for as long as the candidates exist;
    [fuel] bounds the number of probes, [None] is the run that is still
    probing when the fuel is used up (or whose probe is never
    settled). *)
Fixpoint ensureNotExists (fuel : nat) (host containerURI path newPath : string)
    (w : World) : option (string * World) :=
  match fuel with
  | O => None
  | S fuel' =>
      match exists_ host newPath true w with
      | (Settled (Ok _), w1) =>
          let (u, w2) := uuid env w1 in
          ensureNotExists fuel' host containerURI path
            (joinPaths env containerURI (uuid_prefix u +:+ "-" +:+ path)) w2
      | (Settled (Err _), w1) => Some (newPath, w1)
      | (Pending, _) => None
      end
  end.

Definition getAvailablePath (fuel : nat) (host containerURI : string)
    (slug extension : option string) (w : World) : option (string * World) :=
  let '(slug, w0) :=
    match slug with
    | Some s => (s, w)
    | None => uuid env w
    end in
  let path := slug +:+ concat_string extension in
  ensureNotExists fuel host containerURI path (joinPaths env containerURI path) w0.

(** The first statement of [post]: a slug that was given (and is not
    empty) is decoded, and must then hold no separator, bar or colon. *)
Definition checked_slug (slug : option string) : Result (option string) :=
  if truthy_string slug then
    match decodeURIComponent env (concat_string slug) with
    | None => Err URIError
    | Some decoded =>
        if forbidden_slug decoded
        then Err (error 400 "The name of new file POSTed may not contain : | or /")
        else Ok (Some decoded)
    end
  else Ok slug.

Definition post (fuel : nat) (host containerPath : string) (stream : Readable)
    (container : bool) (slug extension : option string) (w : World)
    : option (Outcome string * World) :=
  match checked_slug slug with
  | Err e => Some (Err e, w)
  | Ok slug =>
      let extension := if container then Some "" else extension in
      match getAvailablePath fuel host containerPath slug extension w with
      | None => None
      | Some (resourcePath, w1) =>
          let originalPath := resourcePath in
          let resourcePath :=
            if container then path_join env originalPath (suffixMeta this) else resourcePath in
          let originalPath :=
            if container && negb (String.eqb originalPath "") && negb (Js.endsWith originalPath "/")
            then originalPath +:+ "/" else originalPath in
          Some ((let* (putUrl, contentType) :=
                   call_mapFileToUrl (rootPath mapper +:+ resourcePath) host in
                 let* _ := put (UrlString putUrl) stream (Some contentType) in
                 ret originalPath) w1)
      end
  end.

End Operations.

(** ** A concrete environment

    A small instance of the collaborators, used to run the operations on
    explicit worlds. *)

Module Demo.

Definition hex_value (a : ascii) : option nat :=
  let n := nat_of_ascii a in
  if ((48 <=? n) && (n <=? 57))%nat then Some (n - 48)%nat
  else if ((65 <=? n) && (n <=? 70))%nat then Some (n - 55)%nat
  else if ((97 <=? n) && (n <=? 102))%nat then Some (n - 87)%nat
  else None.

(** Percent-decoding; a [%] that is not followed by two hex digits is
    malformed. *)
Fixpoint percent_decode (s : string) : option string :=
  match s with
  | EmptyString => Some EmptyString
  | String "%" (String h (String l rest)) =>
      match hex_value h, hex_value l, percent_decode rest with
      | Some x, Some y, Some t => Some (String (ascii_of_nat (16 * x + y)) t)
      | _, _, _ => None
      end
  | String "%" _ => None
  | String a rest =>
      match percent_decode rest with
      | Some t => Some (String a t)
      | None => None
      end
  end.

Fixpoint concat_segments (l : list string) : string :=
  match l with
  | [] => ""
  | [x] => x
  | x :: rest => x +:+ "/" +:+ concat_segments rest
  end.

Definition nonempty (s : string) : bool := negb (String.eqb s "").

(** [URI.joinPaths(a, b).toString()]: the segments of both paths, the
    empty URI when none of them is non-empty, a leading separator when
    the first path is empty or absolute. *)
Definition uri_joinPaths (a b : string) : string :=
  let segs := filter (fun x => nonempty x = true) (Js.split "/" a ++ Js.split "/" b) in
  match segs with
  | [] => ""
  | _ =>
      (if String.eqb a "" || String.prefix "/" a then "/" else "")
        +:+ concat_segments segs
        +:+ (if Js.endsWith b "/" then "/" else "")
  end.

(** [path.join(a, b)] *)
Definition posix_join (a b : string) : string :=
  if String.eqb a "" then b
  else if Js.endsWith a "/" then a +:+ b
  else a +:+ "/" +:+ b.

(** [path.dirname(p)] *)
Definition posix_dirname (p : string) : string :=
  match rev (filter (fun x => nonempty x = true) (Js.split "/" p)) with
  | [] | [_] => if String.prefix "/" p then "/" else "."
  | _ :: parents =>
      (if String.prefix "/" p then "/" else "") +:+ concat_segments (rev parents)
  end.

Definition uuid_at (n : nat) : string :=
  "c0ffee" +:+ Js.show_nat n +:+ "-b1f0-11e8-8c3f-0242ac130003".

Definition root : string := "/data".

(** The mapper puts the URL path below the root; without
    [createIfNotExists] the file has to be there. *)
Definition map_url (d : Disk) (url : UrlArg) (contentType : option string)
    (createIfNotExists searchIndex : bool) : Result (string * string) :=
  let pathname :=
    match url with
    | UrlString s => s
    | UrlObject o => Options.path o
    end in
  let file := root +:+ pathname in
  if createIfNotExists || bool_decide (is_Some (node_at d (segments file)))
  then Ok (file, default "text/turtle" contentType)
  else Err (error 404 "File not found").

Definition map_file (d : Disk) (file hostname : string) : Result (string * string) :=
  if String.prefix root file
  then Ok (substring (String.length root) (String.length file) file, "text/turtle")
  else Err (error 404 "File not in root").

Definition mapper : ResourceMapper :=
  {| rootPath := root; mapUrlToFile := map_url; mapFileToUrl := map_file |}.

Definition ldp : LDP := LDP_new None None "https://localhost:8443" mapper.

(** The listing is the metadata (when there are any) followed by the
    URLs of the entries. *)
Definition env (quota : Result bool) (wfault : option nat) (rmfault : bool) : Env :=
  {| decodeURIComponent := percent_decode;
     joinPaths := uri_joinPaths;
     path_join := posix_join;
     path_dirname := posix_dirname;
     uuid_v1 := uuid_at;
     overQuota := fun _ _ _ => quota;
     rdf_parse := fun data g _ _ =>
       Ok (if String.eqb data "" then g else g ++ [(data, "", "")]);
     serialize := fun g _ _ => Ok (String.concat "; " (map (fun t => t.1.1) g));
     addContainerStats := fun _ _ _ g => Ok g;
     container_readdir := disk_readdir;
     addFile := fun _ g _ fileUri _ _ => Ok (g ++ [(fileUri, "", "")]);
     directory_size := fun _ _ => 4096%nat;
     write_fault := fun _ => wfault;
     rimraf_fault := fun _ => rmfault |}.

Definition quiet : Env := env (Ok false) None false.

Definition world (d : Disk) : World := mkWorld d ∅ 0 [].

(** [/data/c/] holds [foo.ttl]. *)
Definition disk1 : Disk :=
  <[ ["data"; "c"; "foo.ttl"] := File "old content" ]>
  (<[ ["data"; "c"] := Dir ]> (<[ ["data"] := Dir ]> ∅)).

End Demo.

(** ** The rest of the class *)

(** [RDF_MIME_TYPES]: the set keeps the order of insertion, and the
    array it is built from has no entry twice. *)
Definition RDF_MIME_TYPES : list string :=
  [ "text/turtle"; "text/n3"; "text/html"; "application/xhtml+xml";
    "application/n3"; "application/nquads"; "application/n-quads";
    "application/rdf+xml"; "application/ld+json"; "application/x-turtle" ].

(** [LDP.mimeTypeIsRdf]: [RDF_MIME_TYPES.has(mimeType)] *)
Definition mimeTypeIsRdf (mimeType : string) : bool :=
  existsb (String.eqb mimeType) RDF_MIME_TYPES.

(** [LDP.mimeTypesAsArray]: [Array.from(RDF_MIME_TYPES)] *)
Definition mimeTypesAsArray : list string := RDF_MIME_TYPES.

(** A string field that is missing ([undefined]), [null], or given. *)
Inductive Field :=
| Undefined
| Null
| Str (s : string).

(** Truthiness of such a field: only a non-empty string is truthy. *)
Definition truthy_field (f : Field) : bool :=
  match f with
  | Str s => negb (String.eqb s "")
  | _ => false
  end.

(** The options the constructor looks at, before ([argv]) and after
    (the fields of the object).  An absent field is [None], except for
    [errorPages], where the constructor itself writes [null] and a
    field that was not passed stays [undefined]; for [noErrorPages]
    only its truthiness matters. *)
Module Settings.
Record t := mk {
  suffixAcl : option string;
  suffixMeta : option string;
  noErrorPages : bool;
  errorPages : Field;
  skin : option bool;
  corsProxy : option string
}.
End Settings.

(** The constructor: [extend(this, argv)] and the defaults. *)
Definition LDP_constructor (argv : Settings.t) : Settings.t :=
  let suffixAcl :=
    if negb (truthy_string (Settings.suffixAcl argv)) then Some ".acl"
    else Settings.suffixAcl argv in
  let suffixMeta :=
    if negb (truthy_string (Settings.suffixMeta argv)) then Some ".meta"
    else Settings.suffixMeta argv in
  let '(errorPages, noErrorPages) :=
    if negb (Settings.noErrorPages argv) then
      let errorPages := Settings.errorPages argv in
      match errorPages with
      | Str pages =>
          if negb (truthy_field errorPages) then (errorPages, true)
          else if negb (Js.endsWith pages "/") then (Str (pages +:+ "/"), false)
          else (errorPages, false)
      | _ => (errorPages, true)
      end
    else (Null, Settings.noErrorPages argv) in
  let skin :=
    match Settings.skin argv with
    | Some false => Some false
    | _ => Some true
    end in
  let corsProxy :=
    if truthy_string (Settings.corsProxy argv)
       && negb (String.prefix "/" (concat_string (Settings.corsProxy argv)))
    then Some ("/" +:+ concat_string (Settings.corsProxy argv))
    else Settings.corsProxy argv in
  Settings.mk suffixAcl suffixMeta noErrorPages errorPages skin corsProxy.

Section MoreOperations.

Variable env : Env.
Variable this : LDP.

(** [url.parse(uri).path], which is [null] for a URI without path and
    query. *)
Variable url_parse_path : string -> option string.

(** [serialize] of [./utils] with the content type as [putGraph] hands
    it over, undefined or not. *)
Variable serialize_as : Graph -> string -> option string -> Result string.

Definition putGraph (graph : Graph) (uri : string) (contentType : option string) : M unit :=
  let path := url_parse_path uri in
  let* content := lift (serialize_as graph uri contentType) in
  let stream := stringToStream content in
  match path with
  | Some path => put env this (UrlString path) stream contentType
  | None => throw TypeError
  end.

Definition isValidRdf (body requestUri contentType : string) : bool :=
  match rdf_parse env body [] requestUri contentType with
  | Ok _ => true
  | Err _ => false
  end.

Definition graph (url baseUri : string) (contentType : option string) : M Graph :=
  let* body := readResource this url in
  let* contentType :=
    if negb (truthy_string contentType) then
      let* (_, contentType) := call_mapUrlToFile this (UrlString url) None false true in
      ret contentType
    else ret (concat_string contentType) in
  lift (rdf_parse env body [] baseUri contentType).

Definition getGraph (uri : string) (contentType : option string) : M Graph :=
  graph uri uri contentType.

(** [getTrustedOrigins(req)], with the mapper's [resolveUrl] and the
    fields [trustedOrigins] and [multiuser] of the object. *)
Definition getTrustedOrigins (resolveUrl : string -> string)
    (configured : list string) (multiuser : bool) (hostname : string) : list string :=
  let trustedOrigins := [resolveUrl hostname] ++ configured in
  if multiuser then trustedOrigins ++ [serverUri this] else trustedOrigins.

End MoreOperations.

(** A relation between worlds that looks at the disks only. *)
Definition on_disk (Rd : gmap (list string) Node -> gmap (list string) Node -> Prop)
    (w w' : World) : Prop :=
  Rd (disk w) (disk w').

(** No entry has gone and none has changed its kind: a directory is
    still a directory, a file still a file (with whatever content). *)
Definition entries_kept (d d' : gmap (list string) Node) : Prop :=
  forall k n, d !! k = Some n ->
    match n with
    | Dir => d' !! k = Some Dir
    | File _ => exists content, d' !! k = Some (File content)
    end.

(** What happens below the lock in [put]. *)
Definition put_write (env : Env) (stream : Readable) (path : string) : M unit :=
  try_catch (pipe_to_file env stream path)
    (fun _ => throw (error 500 "Error writing data")).

(** The world [put] has made when it comes to the lock: the directories
    are there, and the oracle, the mapper and [mkdirp] are in the log. *)
Definition put_before_lock (env : Env) (w : World) (path : string)
    (d1 : gmap (list string) Node) : World :=
  mkWorld d1 (held w) (clock w)
    (log w ++ [EvQuota; EvMapUrlToFile; EvMkdirp (path_dirname env path)]).

(** The world after the two calls that open [get] and [delete]. *)
Definition after_lookup (w : World) (path : string) : World :=
  mkWorld (disk w) (held w) (clock w) (log w ++ [EvMapUrlToFile; EvStat path]).

(** ** Vocabulary of the statements *)

(** [keeps R m]: whatever the outcome of [m], the world it ends in is
    related by [R] to the one it started from. *)
Definition keeps {A} (R : World -> World -> Prop) (m : M A) : Prop :=
  forall w, R w (m w).2.

(** [settles m]: from every world the promise of [m] is settled, by a
    value or by a rejection. *)
Definition settles {A} (m : M A) : Prop :=
  forall w, (m w).1 <> Pending.

(** The lock table is the same before and after. *)
Definition same_locks (w w' : World) : Prop := held w' = held w.

(** No file has changed its content, and no file has appeared or gone;
    directories may have been created. *)
Definition same_contents (w w' : World) : Prop :=
  forall p, content_at (disk w') p = content_at (disk w) p.

(** Every file is as it was, or holds the first bytes of [data]. *)
Definition written_prefix (data : string) (w w' : World) : Prop :=
  forall p, content_at (disk w') p = content_at (disk w) p
            \/ exists n, content_at (disk w') p = Some (substring 0 n data).

(** The disk is the same before and after. *)
Definition same_disk (w w' : World) : Prop := disk w' = disk w.

(** The content of a node that is a file. *)
Definition file_content (o : option Node) : option string :=
  match o with
  | Some (File content) => Some content
  | _ => None
  end.

(** C1, as stated: after a failed [put] every file holds either the
    complete new content or what it held before. *)
Definition put_failure_is_atomic : Prop :=
  forall env this url (stream : string) contentType w w' e p,
    put env this url stream contentType w = (Err e, w') ->
    content_at (disk w') p = content_at (disk w) p
    \/ content_at (disk w') p = Some stream.

(** [originalPath] as [post] returns it for a container. *)
Definition container_location (allocated : string) : string :=
  if negb (String.eqb allocated "") && negb (Js.endsWith allocated "/")
  then allocated +:+ "/" else allocated.

(** What [post] makes of the outcome of its [put]: the location in the
    place of the empty value, a rejection or a promise that stays
    pending as they are. *)
Definition located {A} (location : string) (o : Outcome A) : Outcome string :=
  match o with
  | Settled (Ok _) => Ok location
  | Settled (Err e) => Err e
  | Pending => Pending
  end.

(** The world in which [post] calls [put]: the allocator is through and
    the mapper has been asked for the URL of the file. *)
Definition post_before_put (w1 : World) (file : string) : World :=
  mkWorld (disk w1) (held w1) (clock w1) (log w1 ++ [EvMapFileToUrl file]).

(** C9, as stated: what a successful [post] of a container returns ends
    with the separator. *)
Definition post_container_returns_separator_ended : Prop :=
  forall env this fuel host containerPath (stream : string) slug extension w w' location,
    post env this fuel host containerPath stream true slug extension w
    = Some (Ok location, w') ->
    Js.endsWith location "/" = true.

(** The container branch of [get] once the metadata are known. *)
Definition container_listing (env : Env) (this : LDP) (path absContainerUri metaFile
    hostname : string) (w : World) : Outcome GetResult * World :=
  match listContainer env this path absContainerUri metaFile hostname w with
  | (Settled (Ok data), w') =>
      (Ok {| stream := BodyText data; contentType := "text/turtle"; container := true;
             contentRange := None; chunksize := None |}, w')
  | (Settled (Err e), w') => (Err e, w')
  | (Pending, w') => (Pending, w')
  end.

(** Strings of decimal digits. *)
Fixpoint all_digits (s : string) : bool :=
  match s with
  | EmptyString => true
  | String a rest => Js.is_digit a && all_digits rest
  end.

(** What the read stream yields for the options [get] passes. *)
Definition read_stream_bytes (content : string) (options : option (Z * Z))
    : Result string :=
  match options with
  | Some (s, e) =>
      if (0 <=? s) && (s <=? e)
      then Ok (substring (Z.to_nat s) (Z.to_nat (e - s + 1)) content)
      else Err RangeError
  | None => Ok content
  end.

(** What the existence probe [exists(host, path)] decides on a disk: the
    mapper finds a file for the identifier and [stat] finds the file. *)
Definition probe (this : LDP) (d : Disk) (host path : string) : bool :=
  match mapUrlToFile (resourceMapper this) d
          (UrlObject (Options.mk None host path false true None)) None false true with
  | Ok (file, _) => bool_decide (is_Some (node_at d (segments file)))
  | Err _ => false
  end.

(** The candidates [ensureNotExists] goes through, from the one it is
    called with: each retry joins the container with a fresh uuid prefix,
    a dash and the base name. *)
Definition candidate (env : Env) (containerURI path first : string) (clock0 i : nat)
    : string :=
  match i with
  | O => first
  | S j =>
      joinPaths env containerURI
        (uuid_prefix (uuid_v1 env (clock0 + j)) +:+ "-" +:+ path)
  end.

(** The candidates of [getAvailablePath] for a slug and an extension,
    in the order they are probed; without a slug the base name is a
    uuid, drawn before the first probe. *)
Definition allocation_candidate (env : Env) (containerURI : string)
    (slug extension : option string) (clock : nat) (i : nat) : string :=
  let base := match slug with Some s => s | None => uuid_v1 env clock end in
  let clock0 := match slug with Some _ => clock | None => S clock end in
  let path := base +:+ concat_string extension in
  candidate env containerURI path (joinPaths env containerURI path) clock0 i.

(** What [add_files] computes on a disk, the log left aside. *)
Fixpoint files_graph (env : Env) (this : LDP) (d : Disk) (container reqUri hostname : string)
    (files : list string) (g : Graph) : Result Graph :=
  match files with
  | [] => Ok g
  | file :: rest =>
      match mapFileToUrl (resourceMapper this) d (path_join env container file) hostname with
      | Err e => Err e
      | Ok (fileUri, _) =>
          match addFile env d g reqUri fileUri container file with
          | Err e => Err e
          | Ok g' => files_graph env this d container reqUri hostname rest g'
          end
      end
  end.

(** The test [file !== this.suffixMeta && file !== this.suffixAcl] of
    [deleteContainer]. *)
Definition extra (this : LDP) (file : string) : bool :=
  negb (String.eqb file (suffixMeta this)) && negb (String.eqb file (suffixAcl this)).

(** ** Worlds for the examples *)

(** [/data/c/] with its metadata and ACL files only, and the same with a
    document next to them. *)
Definition demo_disk_bare : gmap (list string) Node :=
  <[ ["data"; "c"; ".acl"] := File "# acl" ]>
  (<[ ["data"; "c"; ".meta"] := File "# meta" ]>
  (<[ ["data"; "c"] := Dir ]> (<[ ["data"; "other.ttl"] := File "x" ]>
  (<[ ["data"] := Dir ]> ∅)))).

(** [n] bytes, the digits 0 to 9 over and over, so that the byte at
    offset [i] is the last digit of [i]. *)
Fixpoint digit_bytes (n i : nat) : string :=
  match n with
  | O => ""
  | S n' => String (Js.digit_char (i mod 10)) (digit_bytes n' (S i))
  end.

(** [/data/c/hundred.bin] holds 100 bytes. *)
Definition demo_disk_hundred : gmap (list string) Node :=
  <[ ["data"; "c"; "hundred.bin"] := File (digit_bytes 100 0) ]>
  (<[ ["data"; "c"] := Dir ]> (<[ ["data"] := Dir ]> ∅)).

Definition demo_range_request (range : string) : Options.t :=
  Options.mk None "localhost" "/c/hundred.bin" true true (Some range).

Definition demo_container_request : Options.t :=
  Options.mk None "localhost" "/c/" true true None.

(** [/data/c/] with a metadata resource. *)
Definition demo_disk_meta (meta : Node) : gmap (list string) Node :=
  <[ ["data"; "c"; ".meta"] := meta ]> Demo.disk1.

(** A URL parser for the examples: an absolute path is its own path,
    and the empty string has none. *)
Definition demo_url_parse_path (uri : string) : option string :=
  if String.eqb uri "" then None else Some uri.

(** A serializer for the examples, which writes Turtle when it is not
    told the format. *)
Definition demo_serialize_as (g : Graph) (uri : string) (contentType : option string)
    : Result string :=
  serialize Demo.quiet g uri (default "text/turtle" contentType).

Definition demo_graph : Graph := [("a", "b", "c"); ("d", "e", "f")].

(** * Properties *)

(** ** The model at work *)

Example split_range : Js.split "-" "10-19" = ["10"; "19"].
Proof. reflexivity. Qed.

Example split_open_range : Js.split "-" "10-" = ["10"; ""].
Proof. reflexivity. Qed.

Example remove_first_bytes : Js.remove_first "bytes=" "bytes=10-19" = "10-19".
Proof. reflexivity. Qed.

Example parseInt_19 : Js.parseInt "19" = Js.Num 19.
Proof. reflexivity. Qed.

Example parseInt_empty : Js.parseInt "" = Js.NaN.
Proof. reflexivity. Qed.

Example show_100 : Js.toString (Js.Num 100) = "100".
Proof. reflexivity. Qed.

Example endsWith_slash : Js.endsWith "/c/" "/" = true /\ Js.endsWith "/c/a" "/" = false /\ Js.endsWith "" "/" = false.
Proof. repeat split; reflexivity. Qed.

Example demo_joinPaths :
  Demo.uri_joinPaths "/c/" "foo.ttl" = "/c/foo.ttl" /\ Demo.uri_joinPaths "/" "" = ""
  /\ Demo.uri_joinPaths "/c" "d/" = "/c/d/".
Proof. repeat split; reflexivity. Qed.

Example demo_dirname :
  Demo.posix_dirname "/data/c/foo.ttl" = "/data/c" /\ Demo.posix_dirname "/data" = "/"
  /\ Demo.posix_dirname "foo" = ".".
Proof. repeat split; reflexivity. Qed.

Example demo_put_ok :
  let r := put Demo.quiet Demo.ldp (UrlString "/c/new.ttl") "hello" (Some "text/turtle")
             (Demo.world Demo.disk1) in
  r.1 = Ok tt /\ content_at (disk r.2) "/data/c/new.ttl" = Some "hello"
  /\ held r.2 = ∅.
Proof. vm_compute. repeat split; reflexivity. Qed.

(** ** Running the monad *)

Ltac splits := repeat match goal with |- _ /\ _ => split end.

Lemma bind_ok {A B} (m : M A) (k : A -> M B) w a w1 :
  m w = (Ok a, w1) -> bind m k w = k a w1.
Proof. intros H. unfold bind. now rewrite H. Qed.

Lemma bind_err {A B} (m : M A) (k : A -> M B) w e w1 :
  m w = (Err e, w1) -> bind m k w = (Err e, w1).
Proof. intros H. unfold bind. now rewrite H. Qed.

Lemma bind_pending {A B} (m : M A) (k : A -> M B) w w1 :
  m w = (Pending, w1) -> bind m k w = (Pending, w1).
Proof. intros H. unfold bind. now rewrite H. Qed.

Lemma bind_inv {A B} (m : M A) (k : A -> M B) w (r : Result B) w' :
  bind m k w = (r, w') ->
  (exists a w1, m w = (Ok a, w1) /\ k a w1 = (r, w'))
  \/ (exists e, m w = (Err e, w') /\ r = Err e).
Proof.
  unfold bind. destruct (m w) as [[[a|e]|] w1]; intros H.
  - left. eauto.
  - right. injection H as <- <-. eauto.
  - discriminate.
Qed.

Lemma try_catch_inv {A} (body : M A) (handler : Error -> M A) w (r : Result A) w' :
  try_catch body handler w = (r, w') ->
  (exists a, body w = (Ok a, w') /\ r = Ok a)
  \/ (exists e w1, body w = (Err e, w1) /\ handler e w1 = (r, w')).
Proof.
  unfold try_catch. destruct (body w) as [[[a|e]|] w1]; intros H.
  - left. injection H as <- <-. eauto.
  - right. eauto.
  - discriminate.
Qed.

(** ** Argument checks of [put] and [post] *)

(** C8. A [put] whose target identifier ends with the separator fails
    with status 409 (Conflict) and leaves the whole world as it was:
    the disk, the lock table and the call log, so that neither the
    mapper, the quota oracle, the lock manager nor the file system was
    called. *)
Theorem put_on_container_conflict (env : Env) (this : LDP) (url : UrlArg)
    (stream : Readable) (contentType : option string) (w : World) (target : string) :
  target_of url = Some target ->
  Js.endsWith target "/" = true ->
  put env this url stream contentType w
  = (Err (HttpError 409 "PUT not supported on containers, use POST instead"), w).
Proof.
  intros Htarget Hends. unfold put. rewrite Htarget, Hends. reflexivity.
Qed.

Lemma put_on_container_conflict_witness :
  put Demo.quiet Demo.ldp (UrlString "/c/") "<> a <#Thing>." (Some "text/turtle")
    (Demo.world Demo.disk1)
  = (Err (HttpError 409 "PUT not supported on containers, use POST instead"),
     Demo.world Demo.disk1).
Proof.
  apply (put_on_container_conflict Demo.quiet Demo.ldp (UrlString "/c/") _ _ _ "/c/");
    reflexivity.
Defined.

(** C7. A [post] with a (non-empty) slug decodes it first; when the
    decoded slug holds a [/], a [|] or a [:] the call fails with status
    400 (BadRequest) in the world it started from: nothing was probed,
    allocated, locked or written, and no fuel is needed. *)
Theorem post_rejects_forbidden_slug (env : Env) (this : LDP) (fuel : nat)
    (host containerPath : string) (stream : Readable) (container : bool)
    (slug decoded : string) (extension : option string) (w : World) :
  slug <> "" ->
  decodeURIComponent env slug = Some decoded ->
  (Js.includes "/" decoded = true \/ Js.includes ":" decoded = true
   \/ Js.includes "|" decoded = true) ->
  post env this fuel host containerPath stream container (Some slug) extension w
  = Some (Err (HttpError 400 "The name of new file POSTed may not contain : | or /"), w).
Proof.
  intros Hslug Hdecode Hchars. unfold post, checked_slug.
  assert (Htruthy : truthy_string (Some slug) = true).
  { simpl. destruct (String.eqb_spec slug ""); [contradiction | reflexivity]. }
  rewrite Htruthy. simpl concat_string. rewrite Hdecode.
  assert (Hforbidden : forbidden_slug decoded = true).
  { unfold forbidden_slug. destruct Hchars as [H | [H | H]]; rewrite H;
      rewrite ?orb_true_r; reflexivity. }
  rewrite Hforbidden. reflexivity.
Qed.

Lemma post_rejects_forbidden_slug_witness :
  post Demo.quiet Demo.ldp 0 "localhost" "/c/" "data" false (Some "a%2Fb") (Some ".ttl")
    (Demo.world Demo.disk1)
  = Some (Err (HttpError 400 "The name of new file POSTed may not contain : | or /"),
          Demo.world Demo.disk1).
Proof.
  apply (post_rejects_forbidden_slug Demo.quiet Demo.ldp 0 "localhost" "/c/" "data" false
           "a%2Fb" "a/b" (Some ".ttl") (Demo.world Demo.disk1)).
  - discriminate.
  - reflexivity.
  - left. reflexivity.
Defined.

Example post_slug_with_separator :
  post Demo.quiet Demo.ldp 5 "localhost" "/c/" "data" false (Some "a/b") (Some ".ttl")
    (Demo.world Demo.disk1)
  = Some (Err (HttpError 400 "The name of new file POSTed may not contain : | or /"),
          Demo.world Demo.disk1).
Proof. reflexivity. Qed.

(** ** The quota gate *)

(** The run of [put] once its two argument checks have passed, up to
    the answer of the quota oracle. *)
Lemma put_reaches_gate (env : Env) (this : LDP) (url : UrlArg) (stream : Readable)
    (contentType : option string) (w : World) (target : string) :
  target_of url = Some target ->
  Js.endsWith target "/" = false ->
  truthy_string contentType = true ->
  let w1 := mkWorld (disk w) (held w) (clock w) (log w ++ [EvQuota]) in
  match overQuota env (disk w) (rootPath (resourceMapper this)) (serverUri this) with
  | Ok true =>
      put env this url stream contentType w
      = (Err (HttpError 413 "User has exceeded their storage quota"), w1)
  | Err _ =>
      put env this url stream contentType w
      = (Err (HttpError 500 "Error finding user quota"), w1)
  | Ok false => True
  end.
Proof.
  intros Htarget Hends Hct. unfold put. rewrite Htarget, Hends, Hct. simpl.
  unfold bind, try_catch, call_overQuota, bind, emit, get_disk, lift. simpl.
  destruct (overQuota env (disk w) _ _) as [[|]|e]; simpl; auto.
Qed.

(** C4. In a state where the quota oracle answers over-quota, or where
    the check itself fails, no [put] changes the disk or the lock table,
    and the only call a [put] can make to the outside is the one to the
    oracle.  The oracle is asked exactly by the calls that pass the
    container and content-type checks, and a call that asked it fails
    with status 413 (PayloadTooLarge) when the answer is over-quota and
    with status 500 (ServerError) when the check failed. *)
Theorem put_quota_gate (env : Env) (this : LDP) (url : UrlArg) (stream : Readable)
    (contentType : option string) (w w' : World) (r : Outcome unit) :
  overQuota env (disk w) (rootPath (resourceMapper this)) (serverUri this) <> Ok false ->
  put env this url stream contentType w = (r, w') ->
  disk w' = disk w /\ held w' = held w /\ is_ok r = false
  /\ (log w' = log w \/ log w' = log w ++ [EvQuota])
  /\ (forall target, target_of url = Some target -> Js.endsWith target "/" = false ->
        truthy_string contentType = true -> log w' = log w ++ [EvQuota])
  /\ (log w' = log w ++ [EvQuota] ->
        (overQuota env (disk w) (rootPath (resourceMapper this)) (serverUri this) = Ok true ->
           r = Err (HttpError 413 "User has exceeded their storage quota"))
        /\ (forall e,
              overQuota env (disk w) (rootPath (resourceMapper this)) (serverUri this) = Err e ->
              r = Err (HttpError 500 "Error finding user quota"))).
Proof.
  intros Hquota Hput.
  assert (Hnil : forall l : list Event, l = l ++ [EvQuota] -> False).
  { intros l H. apply (f_equal (@List.length Event)) in H.
    rewrite length_app in H. simpl in H. lia. }
  destruct (target_of url) as [target|] eqn:Htarget.
  2:{ unfold put in Hput. rewrite Htarget in Hput. injection Hput as <- <-.
      splits; [reflexivity | reflexivity | reflexivity | left; reflexivity
             | intros t Ht He Hc; congruence | intros H; destruct (Hnil _ H)]. }
  destruct (Js.endsWith target "/") eqn:Hends.
  { unfold put in Hput. rewrite Htarget, Hends in Hput. injection Hput as <- <-.
    splits; [reflexivity | reflexivity | reflexivity | left; reflexivity
             | intros t Ht He Hc; congruence | intros H; destruct (Hnil _ H)]. }
  destruct (truthy_string contentType) eqn:Hct.
  2:{ unfold put in Hput. rewrite Htarget, Hends, Hct in Hput. injection Hput as <- <-.
      splits; [reflexivity | reflexivity | reflexivity | left; reflexivity
             | intros t Ht He Hc; congruence | intros H; destruct (Hnil _ H)]. }
  pose proof (put_reaches_gate env this url stream contentType w target Htarget Hends Hct)
    as Hgate. simpl in Hgate.
  destruct (overQuota env (disk w) _ _) as [[|]|e] eqn:Hanswer.
  - rewrite Hput in Hgate. injection Hgate as -> ->. simpl.
    splits; auto. intros _. split; [reflexivity | discriminate].
  - congruence.
  - rewrite Hput in Hgate. injection Hgate as -> ->. simpl.
    splits; auto. intros _. split; [discriminate | reflexivity].
Qed.

Lemma put_quota_gate_witness :
  let w := Demo.world Demo.disk1 in
  let over := Demo.env (Ok true) None false in
  let result := put over Demo.ldp (UrlString "/c/new.ttl") "data" (Some "text/turtle") w in
  disk result.2 = disk w /\ held result.2 = held w
  /\ result.1 = Err (HttpError 413 "User has exceeded their storage quota").
Proof.
  intros w over result.
  assert (Hrun : put over Demo.ldp (UrlString "/c/new.ttl") "data" (Some "text/turtle") w
                 = (result.1, result.2)) by apply surjective_pairing.
  pose proof (put_quota_gate over Demo.ldp (UrlString "/c/new.ttl") "data"
                (Some "text/turtle") w result.2 result.1) as H.
  destruct H as (Hdisk & Hheld & _ & _ & Hasked & Hstatus).
  - discriminate.
  - exact Hrun.
  - splits; [exact Hdisk | exact Hheld |].
    apply Hstatus; [| reflexivity].
    apply (Hasked "/c/new.ttl"); reflexivity.
Defined.

Example put_quota_check_fails :
  put (Demo.env (Err (SysError EIO)) None false) Demo.ldp (UrlString "/c/new.ttl") "data"
    (Some "text/turtle") (Demo.world Demo.disk1)
  = (Err (HttpError 500 "Error finding user quota"),
     mkWorld Demo.disk1 ∅ 0 [EvQuota]).
Proof. reflexivity. Qed.

(** ** What a computation leaves alone *)

Section Frames.

Context (R : World -> World -> Prop) `{!PreOrder R}.

Lemma keeps_ret {A} (a : A) : keeps R (ret a).
Proof. intros w. simpl. reflexivity. Qed.

Lemma keeps_throw {A} (e : Error) : keeps R (@throw A e).
Proof. intros w. simpl. reflexivity. Qed.

Lemma keeps_lift {A} (r : Result A) : keeps R (lift r).
Proof. intros w. simpl. reflexivity. Qed.

Lemma keeps_get_disk : keeps R get_disk.
Proof. intros w. simpl. reflexivity. Qed.

Lemma keeps_pending {A} : keeps R (@pending A).
Proof. intros w. simpl. reflexivity. Qed.

Lemma keeps_bind {A B} (m : M A) (k : A -> M B) :
  keeps R m -> (forall a, keeps R (k a)) -> keeps R (bind m k).
Proof.
  intros Hm Hk w. unfold bind. specialize (Hm w).
  destruct (m w) as [[[a|e]|] w1]; simpl in *.
  - etransitivity; [exact Hm | apply Hk].
  - exact Hm.
  - exact Hm.
Qed.

Lemma keeps_try_catch {A} (body : M A) (handler : Error -> M A) :
  keeps R body -> (forall e, keeps R (handler e)) -> keeps R (try_catch body handler).
Proof.
  intros Hb Hh w. unfold try_catch. specialize (Hb w).
  destruct (body w) as [[[a|e]|] w1]; simpl in *.
  - exact Hb.
  - etransitivity; [exact Hb | apply Hh].
  - exact Hb.
Qed.

End Frames.

(** *** Promises that are settled *)

Lemma settles_ret {A} (a : A) : settles (ret a).
Proof. intros w. discriminate. Qed.

Lemma settles_throw {A} (e : Error) : settles (@throw A e).
Proof. intros w. discriminate. Qed.

Lemma settles_lift {A} (r : Result A) : settles (lift r).
Proof. intros w. discriminate. Qed.

Lemma settles_get_disk : settles get_disk.
Proof. intros w. discriminate. Qed.

Lemma settles_emit ev : settles (emit ev).
Proof. intros w. discriminate. Qed.

Lemma settles_set_disk d : settles (set_disk d).
Proof. intros w. discriminate. Qed.

Lemma settles_bind {A B} (m : M A) (k : A -> M B) :
  settles m -> (forall a, settles (k a)) -> settles (bind m k).
Proof.
  intros Hm Hk w. unfold bind. specialize (Hm w).
  destruct (m w) as [[[a|e]|] w1]; simpl in *.
  - apply Hk.
  - discriminate.
  - contradiction.
Qed.

Lemma settles_try_catch {A} (body : M A) (handler : Error -> M A) :
  settles body -> (forall e, settles (handler e)) -> settles (try_catch body handler).
Proof.
  intros Hb Hh w. unfold try_catch. specialize (Hb w).
  destruct (body w) as [[[a|e]|] w1]; simpl in *.
  - discriminate.
  - apply Hh.
  - contradiction.
Qed.

Lemma settles_lock path options : settles (lock path options).
Proof.
  intros w. unfold lock, bind, emit. simpl.
  destruct (realpath options && _); [discriminate |].
  destruct (bool_decide _); discriminate.
Qed.

Lemma settles_with_lock {A} path options (body : M A) :
  settles body -> settles (with_lock path options body).
Proof.
  intros Hb w. unfold with_lock.
  pose proof (settles_lock path options w) as Hl.
  destruct (lock path options w) as [[[key|e]|] w1]; simpl in *;
    [| discriminate | contradiction].
  specialize (Hb w1). destruct (body w1) as [[r|] w2]; simpl in *;
    [discriminate | contradiction].
Qed.

Create HintDb settled.

#[export] Hint Resolve settles_emit settles_set_disk settles_lock : settled.

Ltac settles_step :=
  match goal with
  | |- settles (bind _ _) => apply settles_bind
  | |- settles (try_catch _ _) => apply settles_try_catch
  | |- settles (with_lock _ _ _) => apply settles_with_lock
  | |- settles (ret _) => apply settles_ret
  | |- settles (throw _) => apply settles_throw
  | |- settles (lift _) => apply settles_lift
  | |- settles get_disk => apply settles_get_disk
  | |- settles (match ?x with _ => _ end) => destruct x
  | |- settles (if ?x then _ else _) => destruct x
  | |- forall _, _ => intro
  end.

Ltac settles_auto :=
  repeat (first [settles_step | solve [auto with settled]]).

(** The same at one world. *)
Ltac settled_here :=
  match goal with
  | |- (?m ?w).1 <> Pending =>
      let Hs := fresh "Hs" in
      cut (settles m); [intros Hs; exact (Hs w) | settles_auto]
  end.

Lemma settles_fs_stat env file : settles (fs_stat env file).
Proof. unfold fs_stat. settles_auto. Qed.

Lemma settles_fs_readFile path : settles (fs_readFile path).
Proof. unfold fs_readFile. settles_auto. Qed.

Lemma settles_fs_unlink path : settles (fs_unlink path).
Proof. unfold fs_unlink. settles_auto. Qed.

Lemma settles_mkdirp dir : settles (mkdirp dir).
Proof. unfold mkdirp. settles_auto. Qed.

Lemma settles_fs_readdir dir : settles (fs_readdir dir).
Proof. unfold fs_readdir. settles_auto. Qed.

Lemma settles_rimraf env dir : settles (rimraf env dir).
Proof. unfold rimraf. settles_auto. Qed.

Lemma settles_createReadStream path options : settles (createReadStream path options).
Proof. unfold createReadStream. settles_auto. Qed.

(** A source that ends settles the write, one way or the other. *)
Lemma settles_pipe_to_file env (data : string) path :
  settles (pipe_to_file env data path).
Proof. unfold pipe_to_file. settles_auto. Qed.

Lemma settles_put_write env (data : string) path : settles (put_write env data path).
Proof. unfold put_write. settles_auto. apply settles_pipe_to_file. Qed.

#[export] Hint Resolve settles_fs_stat settles_fs_readFile settles_fs_unlink settles_mkdirp
  settles_fs_readdir settles_rimraf settles_createReadStream settles_pipe_to_file
  settles_put_write : settled.

Ltac keeps_step :=
  match goal with
  | |- keeps _ (bind _ _) => apply keeps_bind
  | |- keeps _ (try_catch _ _) => apply keeps_try_catch
  | |- keeps _ (ret _) => apply keeps_ret
  | |- keeps _ (throw _) => apply keeps_throw
  | |- keeps _ pending => apply keeps_pending
  | |- keeps _ (lift _) => apply keeps_lift
  | |- keeps _ get_disk => apply keeps_get_disk
  | |- keeps _ (match ?x with _ => _ end) => destruct x
  | |- forall _, _ => intro
  end.

Create HintDb frames.

Ltac keeps_auto :=
  repeat (first [keeps_step | solve [auto with frames] | solve [typeclasses eauto]]).

#[local] Instance same_locks_preorder : PreOrder same_locks.
Proof.
  split.
  - intros w. reflexivity.
  - intros a b c Hab Hbc. unfold same_locks in *. congruence.
Qed.

#[local] Instance same_contents_preorder : PreOrder same_contents.
Proof.
  split.
  - intros w p. reflexivity.
  - intros a b c Hab Hbc p. rewrite Hbc. apply Hab.
Qed.

#[local] Instance written_prefix_preorder data : PreOrder (written_prefix data).
Proof.
  split.
  - intros w p. left. reflexivity.
  - intros a b c Hab Hbc p. destruct (Hbc p) as [H | H].
    + rewrite H. apply Hab.
    + right. exact H.
Qed.

Lemma same_contents_written_prefix data w w' :
  same_contents w w' -> written_prefix data w w'.
Proof. intros H p. left. apply H. Qed.

Lemma keeps_weaken {A} (R R' : World -> World -> Prop) (m : M A) :
  (forall w w', R w w' -> R' w w') -> keeps R m -> keeps R' m.
Proof. intros Himpl Hm w. apply Himpl, Hm. Qed.

(** *** The primitives *)

Lemma emit_same_locks ev : keeps same_locks (emit ev).
Proof. intros w. reflexivity. Qed.

Lemma emit_same_contents ev : keeps same_contents (emit ev).
Proof. intros w p. reflexivity. Qed.

Lemma set_disk_same_locks d : keeps same_locks (set_disk d).
Proof. intros w. reflexivity. Qed.

#[export] Hint Resolve emit_same_locks emit_same_contents set_disk_same_locks : frames.

Lemma fs_stat_same_locks env file : keeps same_locks (fs_stat env file).
Proof. unfold fs_stat. keeps_auto. Qed.

Lemma fs_readFile_same_locks path : keeps same_locks (fs_readFile path).
Proof. unfold fs_readFile. keeps_auto. Qed.

Lemma mkdirp_same_locks dir : keeps same_locks (mkdirp dir).
Proof. unfold mkdirp. keeps_auto. Qed.

Lemma fs_readdir_same_locks dir : keeps same_locks (fs_readdir dir).
Proof. unfold fs_readdir. keeps_auto. Qed.

Lemma rimraf_same_locks env dir : keeps same_locks (rimraf env dir).
Proof. unfold rimraf. keeps_auto. Qed.

Lemma fs_unlink_same_locks path : keeps same_locks (fs_unlink path).
Proof. unfold fs_unlink. keeps_auto. Qed.

Lemma pipe_to_file_same_locks env stream path :
  keeps same_locks (pipe_to_file env stream path).
Proof. unfold pipe_to_file. keeps_auto. Qed.

Lemma createReadStream_same_locks path options :
  keeps same_locks (createReadStream path options).
Proof. unfold createReadStream. keeps_auto. Qed.

Lemma statSync_size_same_locks env path : keeps same_locks (statSync_size env path).
Proof. unfold statSync_size. keeps_auto. apply fs_stat_same_locks. Qed.

#[export] Hint Resolve fs_stat_same_locks fs_readFile_same_locks mkdirp_same_locks
  fs_readdir_same_locks rimraf_same_locks fs_unlink_same_locks pipe_to_file_same_locks
  createReadStream_same_locks statSync_size_same_locks : frames.

(** The heart of the locking discipline: a lock that was taken is given
    back whatever the body did, and a lock that could not be taken was
    never entered in the table. *)
Lemma lock_table_restored (k : list string) (locks : gset (list string)) :
  k ∉ locks -> ({[k]} ∪ locks) ∖ {[k]} = locks.
Proof.
  intros Hfree. apply set_eq. intros k'.
  rewrite elem_of_difference, elem_of_union, !elem_of_singleton.
  split; [tauto |]. intros Hk. split; [tauto |]. intros ->. contradiction.
Qed.

(** What [with_lock] does for a body that keeps the lock table: when
    the promise is settled the table is as before the call, and when it
    stays pending the path is in the table. *)
Lemma with_lock_exit {A} path options (body : M A) :
  keeps same_locks body ->
  forall w,
    match (with_lock path options body w).1 with
    | Settled _ => held (with_lock path options body w).2 = held w
    | Pending =>
        (segments path ∉ held w)
        /\ held (with_lock path options body w).2 = {[segments path]} ∪ held w
    end.
Proof.
  intros Hbody w. unfold with_lock, lock, bind, emit. simpl.
  destruct (realpath options && _); [reflexivity |].
  destruct (bool_decide (segments path ∈ held w)) eqn:Hheld; [reflexivity |].
  apply bool_decide_eq_false in Hheld.
  match goal with
  | |- context [body ?w1] => specialize (Hbody w1); destruct (body w1) as [[r|] w2]
  end; unfold same_locks in *; simpl in *; rewrite Hbody.
  - apply lock_table_restored, Hheld.
  - split; [exact Hheld | reflexivity].
Qed.

Lemma with_lock_same_locks {A} path options (body : M A) :
  settles body -> keeps same_locks body -> keeps same_locks (with_lock path options body).
Proof.
  intros Hsettles Hbody w.
  pose proof (with_lock_exit path options body Hbody w) as Hexit.
  pose proof (settles_with_lock path options body Hsettles w) as Hs.
  destruct (with_lock path options body w).1; [exact Hexit | contradiction].
Qed.

Ltac keeps_auto ::=
  repeat (first [keeps_step | apply with_lock_same_locks; [solve [settles_auto] |]
                | solve [auto with frames] | solve [typeclasses eauto]]).

(** *** The operations *)

Section LockDiscipline.

Variable env : Env.
Variable this : LDP.

Lemma call_mapUrlToFile_same_locks url contentType create search :
  keeps same_locks (call_mapUrlToFile this url contentType create search).
Proof. unfold call_mapUrlToFile. keeps_auto. Qed.

Lemma call_mapFileToUrl_same_locks path hostname :
  keeps same_locks (call_mapFileToUrl this path hostname).
Proof. unfold call_mapFileToUrl. keeps_auto. Qed.

Lemma call_overQuota_same_locks root uri :
  keeps same_locks (call_overQuota env root uri).
Proof. unfold call_overQuota. keeps_auto. Qed.

Hint Resolve call_mapUrlToFile_same_locks call_mapFileToUrl_same_locks
  call_overQuota_same_locks : frames.

Lemma stat_same_locks file : keeps same_locks (stat env file).
Proof. unfold stat. keeps_auto. Qed.

Hint Resolve stat_same_locks : frames.

Lemma readResource_same_locks url : keeps same_locks (readResource this url).
Proof. unfold readResource. keeps_auto. Qed.

Lemma readContainerMeta_same_locks url : keeps same_locks (readContainerMeta this url).
Proof. unfold readContainerMeta. apply readResource_same_locks. Qed.

Lemma add_files_same_locks container reqUri hostname files g :
  keeps same_locks (add_files env this container reqUri hostname files g).
Proof.
  revert g. induction files as [|file rest IH]; intros g; simpl; keeps_auto.
Qed.

Hint Resolve readContainerMeta_same_locks add_files_same_locks : frames.

Lemma listContainer_same_locks container reqUri containerData hostname :
  keeps same_locks (listContainer env this container reqUri containerData hostname).
Proof. unfold listContainer. keeps_auto. Qed.

Hint Resolve listContainer_same_locks : frames.

Lemma put_same_locks url (stream : string) contentType :
  keeps same_locks (put env this url stream contentType).
Proof. unfold put. keeps_auto. Qed.

Lemma get_same_locks options searchIndex :
  keeps same_locks (get env this options searchIndex).
Proof. unfold get. keeps_auto. Qed.

Lemma deleteResource_same_locks path : keeps same_locks (deleteResource path).
Proof. unfold deleteResource. keeps_auto. Qed.

Lemma deleteContainer_same_locks directory :
  keeps same_locks (deleteContainer env this directory).
Proof. unfold deleteContainer. keeps_auto. Qed.

(** Every promise of the class is settled, the one of [put] (and of
    [post], which awaits it) as long as the stream it is given ends. *)
Lemma settles_call_mapUrlToFile url contentType create search :
  settles (call_mapUrlToFile this url contentType create search).
Proof. unfold call_mapUrlToFile. settles_auto. Qed.

Lemma settles_call_mapFileToUrl path hostname :
  settles (call_mapFileToUrl this path hostname).
Proof. unfold call_mapFileToUrl. settles_auto. Qed.

Lemma settles_call_overQuota root uri : settles (call_overQuota env root uri).
Proof. unfold call_overQuota. settles_auto. Qed.

Lemma settles_stat file : settles (stat env file).
Proof. unfold stat. settles_auto. Qed.

Hint Resolve settles_call_mapUrlToFile settles_call_mapFileToUrl settles_call_overQuota
  settles_stat : settled.

Lemma settles_readResource url : settles (readResource this url).
Proof. unfold readResource. settles_auto. Qed.

Lemma settles_readContainerMeta url : settles (readContainerMeta this url).
Proof. unfold readContainerMeta. apply settles_readResource. Qed.

Lemma settles_add_files container reqUri hostname files g :
  settles (add_files env this container reqUri hostname files g).
Proof.
  revert g. induction files as [|file rest IH]; intros g; simpl; settles_auto.
Qed.

Hint Resolve settles_readContainerMeta settles_add_files : settled.

Lemma settles_listContainer container reqUri containerData hostname :
  settles (listContainer env this container reqUri containerData hostname).
Proof. unfold listContainer. settles_auto. Qed.

Hint Resolve settles_listContainer : settled.

Lemma settles_statSync_size path : settles (statSync_size env path).
Proof. unfold statSync_size. settles_auto. Qed.

Hint Resolve settles_statSync_size : settled.

Lemma settles_get options searchIndex : settles (get env this options searchIndex).
Proof. unfold get. settles_auto. Qed.

Lemma settles_put url (stream : string) contentType :
  settles (put env this url stream contentType).
Proof. unfold put. settles_auto. Qed.

Lemma settles_deleteResource path : settles (deleteResource path).
Proof. unfold deleteResource. settles_auto. Qed.

Lemma settles_deleteContainer directory : settles (deleteContainer env this directory).
Proof. unfold deleteContainer. settles_auto. Qed.

Lemma settles_delete_ url : settles (delete_ env this url).
Proof.
  unfold delete_. settles_auto;
    [apply settles_deleteContainer | apply settles_deleteResource].
Qed.

End LockDiscipline.

(** ** The stages of [put] *)

(** The whole of [put] up to the lock, by the answers it gets. *)
Lemma put_stages (env : Env) (this : LDP) (url : UrlArg) (stream : Readable)
    (contentType : option string) (w : World) :
  put env this url stream contentType w
  = match target_of url with
    | None => (Err TypeError, w)
    | Some target =>
        if Js.endsWith target "/"
        then (Err (HttpError 409 "PUT not supported on containers, use POST instead"), w)
        else if negb (truthy_string contentType)
        then (Err (HttpError 415
                     "PUT request require a valid content type via the Content-Type header"),
              w)
        else
          match overQuota env (disk w) (rootPath (resourceMapper this)) (serverUri this) with
          | Err _ =>
              (Err (HttpError 500 "Error finding user quota"),
               mkWorld (disk w) (held w) (clock w) (log w ++ [EvQuota]))
          | Ok true =>
              (Err (HttpError 413 "User has exceeded their storage quota"),
               mkWorld (disk w) (held w) (clock w) (log w ++ [EvQuota]))
          | Ok false =>
              match mapUrlToFile (resourceMapper this) (disk w) url contentType true true with
              | Err e =>
                  (Err e, mkWorld (disk w) (held w) (clock w)
                            (log w ++ [EvQuota; EvMapUrlToFile]))
              | Ok (path, _) =>
                  match disk_mkdirp (disk w) (path_dirname env path) with
                  | Err e =>
                      (Err (error_from e "Failed to create the path to the new resource"),
                       put_before_lock env w path (disk w))
                  | Ok d1 =>
                      with_lock path {| retries := 10; realpath := false |}
                        (put_write env stream path) (put_before_lock env w path d1)
                  end
              end
          end
    end.
Proof.
  unfold put, put_before_lock, put_write.
  destruct (target_of url) as [target|]; [| reflexivity].
  destruct (Js.endsWith target "/"); [reflexivity |].
  destruct (negb (truthy_string contentType)); [reflexivity |].
  unfold bind at 1, try_catch at 1, call_overQuota, bind, emit, get_disk, lift. simpl.
  destruct (overQuota env (disk w) _ _) as [[|]|e]; simpl; try reflexivity.
  unfold call_mapUrlToFile, bind, emit, get_disk, lift. simpl.
  destruct (mapUrlToFile _ _ _ _ _ _) as [[path ct]|e]; simpl.
  2:{ rewrite <- app_assoc. reflexivity. }
  unfold try_catch, mkdirp, bind, emit, get_disk, lift, set_disk. simpl.
  destruct (disk_mkdirp (disk w) (path_dirname env path)) as [d1|e]; simpl;
    rewrite <- !app_assoc; reflexivity.
Qed.

Lemma put_write_same_locks env stream path : keeps same_locks (put_write env stream path).
Proof. unfold put_write. keeps_auto. Qed.

(** Whatever the stream does, a [put] whose promise is settled ends
    with the lock table it started with. *)
Lemma put_exit_same_locks (env : Env) (this : LDP) (url : UrlArg) (stream : Readable)
    (contentType : option string) (w : World) :
  (put env this url stream contentType w).1 <> Pending ->
  held (put env this url stream contentType w).2 = held w.
Proof.
  rewrite put_stages.
  destruct (target_of url) as [target|]; [| reflexivity].
  destruct (Js.endsWith target "/"); [reflexivity |].
  destruct (negb (truthy_string contentType)); [reflexivity |].
  destruct (overQuota env (disk w) _ _) as [[|]|e]; try reflexivity.
  destruct (mapUrlToFile _ _ _ _ _ _) as [[path ct]|e]; [| reflexivity].
  destruct (disk_mkdirp (disk w) (path_dirname env path)) as [d1|e]; [| reflexivity].
  pose proof (with_lock_exit path {| retries := 10; realpath := false |}
                (put_write env stream path) (put_write_same_locks env stream path)
                (put_before_lock env w path d1)) as Hexit.
  destruct (with_lock path _ (put_write env stream path) (put_before_lock env w path d1)).1;
    [intros _; exact Hexit | contradiction].
Qed.

(** C3. Each of the four operations that take a path lock ([get], whose
    document branch locks, [put], [deleteResource] and [readResource])
    ends with the lock table it started with, whether it returns or
    throws, and whatever it throws: a lock it acquired is released on
    every exit path, and a path that was free before the call is free
    after it.  For [put] this is so for every stream that ends, and,
    whatever the stream does, for every call whose promise is settled. *)
Theorem locks_released_on_every_exit (env : Env) (this : LDP) :
  (forall options searchIndex w,
      held (get env this options searchIndex w).2 = held w)
  /\ (forall url (stream : string) contentType w,
      held (put env this url stream contentType w).2 = held w)
  /\ (forall path w, held (deleteResource path w).2 = held w)
  /\ (forall url w, held (readResource this url w).2 = held w)
  /\ (forall url (stream : Readable) contentType w,
      (put env this url stream contentType w).1 <> Pending ->
      held (put env this url stream contentType w).2 = held w).
Proof.
  splits.
  - intros options searchIndex w. apply (get_same_locks env this).
  - intros url stream contentType w. apply (put_same_locks env this).
  - intros path w. apply deleteResource_same_locks.
  - intros url w. apply (readResource_same_locks this).
  - intros url stream contentType w. apply put_exit_same_locks.
Qed.

(** The table is not left alone for lack of locking: when the lock is
    free (and, with [realpath], the file is there) the body runs with
    the path entered in the table, and the entry is removed after it. *)
Lemma with_lock_covers_body {A} (path : string) (options : LockOptions) (body : M A)
    (w : World) :
  segments path ∉ held w ->
  (realpath options = true -> is_Some (node_at (disk w) (segments path))) ->
  let locked := mkWorld (disk w) ({[segments path]} ∪ held w) (clock w)
                  (log w ++ [EvLock path]) in
  segments path ∈ held locked
  /\ ((body locked).1 <> Pending ->
      with_lock path options body w
      = ((body locked).1,
         mkWorld (disk (body locked).2) (held (body locked).2 ∖ {[segments path]})
           (clock (body locked).2) (log (body locked).2 ++ [EvRelease (segments path)])))
  /\ ((body locked).1 = Pending ->
      with_lock path options body w = (Pending, (body locked).2)).
Proof.
  intros Hfree Hreal locked.
  assert (Hrun : with_lock path options body w
                 = match body locked with
                   | (Settled r, w2) =>
                       (Settled r,
                        mkWorld (disk w2) (held w2 ∖ {[segments path]}) (clock w2)
                          (log w2 ++ [EvRelease (segments path)]))
                   | (Pending, w2) => (Pending, w2)
                   end).
  { unfold with_lock, lock, bind, emit. simpl.
    destruct (realpath options) eqn:Hrp; simpl.
    - rewrite bool_decide_eq_true_2 by auto. simpl.
      rewrite bool_decide_eq_false_2 by exact Hfree.
      fold locked. destruct (body locked) as [[r|] w2]; reflexivity.
    - rewrite bool_decide_eq_false_2 by exact Hfree.
      fold locked. destruct (body locked) as [[r|] w2]; reflexivity. }
  splits.
  - unfold locked. simpl. set_solver.
  - rewrite Hrun. destruct (body locked) as [[r|] w2]; simpl; [reflexivity | contradiction].
  - rewrite Hrun. destruct (body locked) as [[r|] w2]; simpl; [discriminate | reflexivity].
Qed.

(** A lock that is held elsewhere makes the call fail before the body
    is entered. *)
Lemma with_lock_timeout {A} (path : string) (options : LockOptions) (body : M A)
    (w : World) :
  segments path ∈ held w ->
  (realpath options = true -> is_Some (node_at (disk w) (segments path))) ->
  with_lock path options body w
  = (Err (SysError ELOCKED),
     mkWorld (disk w) (held w) (clock w) (log w ++ [EvLock path])).
Proof.
  intros Hheld Hreal. unfold with_lock, lock, bind, emit. simpl.
  destruct (realpath options) eqn:Hrp; simpl.
  - rewrite bool_decide_eq_true_2 by auto. simpl.
    rewrite bool_decide_eq_true_2 by exact Hheld. reflexivity.
  - rewrite bool_decide_eq_true_2 by exact Hheld. reflexivity.
Qed.

Lemma with_lock_inv {A} (path : string) (options : LockOptions) (body : M A)
    (w w' : World) (r : Outcome A) :
  with_lock path options body w = (r, w') ->
  (exists e, r = Err e
             /\ w' = mkWorld (disk w) (held w) (clock w) (log w ++ [EvLock path]))
  \/ (exists w2, body (mkWorld (disk w) ({[segments path]} ∪ held w) (clock w)
                         (log w ++ [EvLock path])) = (r, w2)
                 /\ disk w' = disk w2).
Proof.
  unfold with_lock, lock, bind, emit. simpl.
  destruct (realpath options && _).
  { intros H. injection H as <- <-. left. eauto. }
  destruct (bool_decide (segments path ∈ held w)).
  { intros H. injection H as <- <-. left. eauto. }
  match goal with |- context [body ?w1] => destruct (body w1) as [[r1|] w2] end;
    intros H; injection H as <- <-; right; eauto.
Qed.

(** ** What a failed write leaves on the disk *)

Lemma substring_whole (s : string) : substring 0 (String.length s) s = s.
Proof. induction s as [|a s IH]; simpl; [reflexivity | now rewrite IH]. Qed.

Lemma content_at_lookup (d : Disk) (p : string) :
  content_at d p = file_content (d !! segments p) \/ segments p = [].
Proof.
  unfold content_at, node_at. destruct (segments p); [right | left]; reflexivity.
Qed.

Lemma make_dir_content (k0 k : list string) (d : Disk) :
  file_content (make_dir k0 d !! k) = file_content (d !! k).
Proof.
  unfold make_dir. destruct (d !! k0) eqn:Hk0; [reflexivity |].
  destruct (decide (k0 = k)) as [<- | Hne].
  - rewrite lookup_insert_eq, Hk0. reflexivity.
  - rewrite lookup_insert_ne by exact Hne. reflexivity.
Qed.

Lemma make_dirs_content (ks : list (list string)) (k : list string) (d : Disk) :
  file_content (foldr make_dir d ks !! k) = file_content (d !! k).
Proof.
  induction ks as [|k0 ks IH]; simpl; [reflexivity |].
  rewrite make_dir_content. exact IH.
Qed.

(** Creating directories changes no file. *)
Lemma disk_mkdirp_content (d d' : Disk) (dir p : string) :
  disk_mkdirp d dir = Ok d' -> content_at d' p = content_at d p.
Proof.
  unfold disk_mkdirp. destruct (existsb _ _); [discriminate |].
  intros H. injection H as <-. unfold content_at, node_at.
  destruct (segments p) as [|x k]; [reflexivity |].
  pose proof (make_dirs_content (ancestors_from [] (segments dir)) (x :: k) d) as Hc.
  unfold file_content in Hc.
  destruct (foldr make_dir d _ !! (x :: k)) as [[c|]|], (d !! (x :: k)) as [[c'|]|];
    congruence.
Qed.

Lemma mkdirp_same_contents dir : keeps same_contents (mkdirp dir).
Proof.
  intros w p. unfold mkdirp, bind, emit, get_disk, lift, set_disk. simpl.
  destruct (disk_mkdirp (disk w) dir) as [d'|e] eqn:Hmk; simpl; [| reflexivity].
  eapply disk_mkdirp_content, Hmk.
Qed.

#[export] Hint Resolve mkdirp_same_contents : frames.

(** A write stream changes one file only, and what it leaves there is
    the beginning of the data: all of it on ['finish'], the bytes that
    arrived before the failure on ['error']. *)
Lemma pipe_to_file_written_prefix env stream path :
  keeps (written_prefix (delivered stream)) (pipe_to_file env stream path).
Proof.
  intros w p. unfold pipe_to_file, bind, emit, get_disk. simpl.
  assert (Hset : forall content,
             content_at (<[segments path := File content]> (disk w)) p
             = content_at (disk w) p
             \/ content_at (<[segments path := File content]> (disk w)) p = Some content).
  { intros content. unfold content_at, node_at.
    destruct (segments p) as [|x k] eqn:Hp; [left; reflexivity |].
    destruct (decide (segments path = x :: k)) as [-> | Hne].
    - right. rewrite lookup_insert_eq. reflexivity.
    - left. rewrite lookup_insert_ne by exact Hne. reflexivity. }
  assert (Hpart : forall n data,
             content_at (<[segments path := File (substring 0 n data)]> (disk w)) p
             = content_at (disk w) p
             \/ exists m, content_at (<[segments path := File (substring 0 n data)]> (disk w)) p
                          = Some (substring 0 m data)).
  { intros n data. destruct (Hset (substring 0 n data)) as [H | H]; [left | right; exists n];
      exact H. }
  assert (Hall : forall data,
             content_at (<[segments path := File data]> (disk w)) p
             = content_at (disk w) p
             \/ exists m, content_at (<[segments path := File data]> (disk w)) p
                          = Some (substring 0 m data)).
  { intros data. destruct (Hset data) as [H | H];
      [left | right; exists (String.length data); rewrite substring_whole]; exact H. }
  destruct (node_at (disk w) (segments path)) as [[c|]|];
    try (left; reflexivity);
    (destruct (node_at (disk w) (removelast (segments path))) as [[c'|]|];
     try (left; reflexivity);
     destruct stream as [data|data]; simpl;
     destruct (write_fault env (segments path)) as [n|]; simpl;
     try destruct (n <? String.length data)%nat; simpl;
     first [apply Hpart | apply Hall]).
Qed.

#[export] Hint Resolve pipe_to_file_written_prefix : frames.

Section WriteFailure.

Variable env : Env.
Variable this : LDP.

Lemma call_overQuota_same_contents root uri :
  keeps same_contents (call_overQuota env root uri).
Proof. unfold call_overQuota. keeps_auto. Qed.

Lemma call_mapUrlToFile_same_contents url contentType create search :
  keeps same_contents (call_mapUrlToFile this url contentType create search).
Proof. unfold call_mapUrlToFile. keeps_auto. Qed.

Hint Resolve call_overQuota_same_contents call_mapUrlToFile_same_contents : frames.

Lemma with_lock_written_prefix {A} data path options (body : M A) :
  keeps (written_prefix data) body ->
  keeps (written_prefix data) (with_lock path options body).
Proof.
  intros Hbody w. destruct (with_lock path options body w) as [r w'] eqn:Hrun.
  apply with_lock_inv in Hrun as [(e & -> & ->) | (w2 & Hrun & Hdisk)]; simpl.
  - intros p. left. reflexivity.
  - specialize (Hbody (mkWorld (disk w) ({[segments path]} ∪ held w) (clock w)
                         (log w ++ [EvLock path]))).
    rewrite Hrun in Hbody. simpl in Hbody.
    intros p. unfold written_prefix in Hbody. rewrite Hdisk. apply Hbody.
Qed.

Lemma put_written_prefix url stream contentType :
  keeps (written_prefix (delivered stream)) (put env this url stream contentType).
Proof.
  unfold put.
  repeat (first [keeps_step | apply with_lock_written_prefix
                | solve [auto with frames]
                | solve [eapply keeps_weaken;
                         [apply same_contents_written_prefix | auto with frames]]
                | solve [typeclasses eauto]]).
Qed.

End WriteFailure.

(** Instantiating a frame at a known run. *)
Lemma keeps_run {A} (R : World -> World -> Prop) (m : M A) w r w' :
  keeps R m -> m w = (r, w') -> R w w'.
Proof. intros Hk Hrun. specialize (Hk w). rewrite Hrun in Hk. exact Hk. Qed.

Section WriteFailureCases.

Variable env : Env.
Variable this : LDP.

(** Only the failure of the write stream itself, reported as "Error
    writing data", can come with a changed file: every other failure of
    [put] (argument checks, quota gate, mapper, directory creation,
    lock time-out) leaves all files as they were. *)
Lemma put_failure_before_write url (stream : Readable) contentType w w' e :
  put env this url stream contentType w = (Err e, w') ->
  e <> HttpError 500 "Error writing data" ->
  same_contents w w'.
Proof.
  intros Hput Hne. unfold put in Hput.
  destruct (target_of url) as [target|]; [| injection Hput as <- <-; reflexivity].
  destruct (Js.endsWith target "/"); [injection Hput as <- <-; reflexivity |].
  destruct (negb (truthy_string contentType)); [injection Hput as <- <-; reflexivity |].
  apply bind_inv in Hput as [(over & w1 & Hquota & Hput) | (e1 & Hquota & _)].
  2:{ eapply keeps_run; [| exact Hquota].
      apply keeps_try_catch; [typeclasses eauto | apply call_overQuota_same_contents |].
      intros e0. apply keeps_throw. typeclasses eauto. }
  assert (H1 : same_contents w w1).
  { eapply keeps_run; [| exact Hquota].
    apply keeps_try_catch; [typeclasses eauto | apply call_overQuota_same_contents |].
    intros e0. apply keeps_throw. typeclasses eauto. }
  destruct over; [injection Hput as <- <-; exact H1 |].
  apply bind_inv in Hput as [([path ct] & w2 & Hmap & Hput) | (e2 & Hmap & _)].
  2:{ etransitivity; [exact H1 |].
      eapply keeps_run; [apply call_mapUrlToFile_same_contents | exact Hmap]. }
  assert (H2 : same_contents w1 w2).
  { eapply keeps_run; [apply call_mapUrlToFile_same_contents | exact Hmap]. }
  apply bind_inv in Hput as [(u & w3 & Hmk & Hput) | (e3 & Hmk & _)].
  2:{ etransitivity; [exact H1 |]. etransitivity; [exact H2 |].
      eapply keeps_run; [| exact Hmk].
      apply keeps_try_catch; [typeclasses eauto | apply mkdirp_same_contents |].
      intros e0. apply keeps_throw. typeclasses eauto. }
  assert (H3 : same_contents w2 w3).
  { eapply keeps_run; [| exact Hmk].
    apply keeps_try_catch; [typeclasses eauto | apply mkdirp_same_contents |].
    intros e0. apply keeps_throw. typeclasses eauto. }
  etransitivity; [exact H1 |]. etransitivity; [exact H2 |].
  etransitivity; [exact H3 |].
  apply with_lock_inv in Hput as [(e4 & _ & ->) | (w4 & Hbody & _)].
  - intros p. reflexivity.
  - exfalso. apply try_catch_inv in Hbody as [(a & _ & Hr) | (e5 & w5 & _ & Hthrow)].
    + discriminate.
    + unfold throw, error in Hthrow. injection Hthrow as Hr _. apply Hne.
      symmetry. exact Hr.
Qed.

End WriteFailureCases.

(** The write stream truncates the file when it opens and the bytes
    piped before the device fails stay: [/data/c/foo.ttl] held "old
    content", the [put] of "new content" fails after three bytes, and the
    file holds "new". *)
Lemma put_failure_leaves_partial_file : ~ put_failure_is_atomic.
Proof.
  intros Hatomic.
  assert (Hrun : exists w',
             put (Demo.env (Ok false) (Some 3%nat) false) Demo.ldp (UrlString "/c/foo.ttl")
               "new content" (Some "text/turtle") (Demo.world Demo.disk1)
             = (Err (HttpError 500 "Error writing data"), w')
             /\ content_at (disk w') "/data/c/foo.ttl" = Some "new").
  { eexists. split; vm_compute; reflexivity. }
  destruct Hrun as (w' & Hrun & Hcontent).
  apply (Hatomic _ _ _ _ _ _ _ _ "/data/c/foo.ttl") in Hrun.
  rewrite Hcontent in Hrun. destruct Hrun as [H | H].
  - vm_compute in H. discriminate.
  - discriminate.
Qed.

Example put_stream_error_run :
  let r := put (Demo.env (Ok false) (Some 3%nat) false) Demo.ldp (UrlString "/c/foo.ttl")
             "new content" (Some "text/turtle") (Demo.world Demo.disk1) in
  r.1 = Err (HttpError 500 "Error writing data")
  /\ content_at (disk r.2) "/data/c/foo.ttl" = Some "new"
  /\ held r.2 = ∅.
Proof. vm_compute. splits; reflexivity. Qed.

(** What the class does not handle: the source emits ['error'] (or the
    sender stalls) after three bytes.  Nothing listens to the source,
    the file stream is never ended, the promise of [put] stays pending,
    the [finally] clause is not reached, and the lock on the target
    stays in the table, with the three bytes in the file. *)
Example put_source_error_run :
  let r := put Demo.quiet Demo.ldp (UrlString "/c/foo.ttl") (Breaks "new")
             (Some "text/turtle") (Demo.world Demo.disk1) in
  r.1 = Pending
  /\ content_at (disk r.2) "/data/c/foo.ttl" = Some "new"
  /\ elements (held r.2) = [["data"; "c"; "foo.ttl"]].
Proof. vm_compute. splits; reflexivity. Qed.

(** C1, amended. The promise of a [put] whose stream ends is settled.
    Whatever the stream does, when [put] is rejected the lock table is
    as before the call, so no lock of the call remains; every file is
    as before the call or holds the first bytes of what the stream
    delivered (those written before the file stream failed); and after
    a lock time-out every file is as before the call. *)
Theorem put_failure_releases_lock_and_writes_prefix (env : Env) (this : LDP)
    (url : UrlArg) (stream : Readable) (contentType : option string)
    (w w' : World) (o : Outcome unit) :
  put env this url stream contentType w = (o, w') ->
  ((exists data, stream = Ends data) -> o <> Pending)
  /\ (forall e, o = Err e ->
        held w' = held w
        /\ (forall p, content_at (disk w') p = content_at (disk w) p
                      \/ exists n, content_at (disk w') p
                                   = Some (substring 0 n (delivered stream)))
        /\ (e = SysError ELOCKED ->
            forall p, content_at (disk w') p = content_at (disk w) p)).
Proof.
  intros Hput. split.
  - intros [data ->]. pose proof (settles_put env this url data contentType w) as Hs.
    rewrite Hput in Hs. exact Hs.
  - intros e ->. splits.
    + pose proof (put_exit_same_locks env this url stream contentType w) as Hexit.
      rewrite Hput in Hexit. apply Hexit. discriminate.
    + eapply (keeps_run (written_prefix (delivered stream)));
        [apply put_written_prefix | exact Hput].
    + intros ->. eapply put_failure_before_write; [exact Hput | discriminate].
Qed.

Lemma put_failure_releases_lock_and_writes_prefix_witness :
  let w := Demo.world Demo.disk1 in
  let faulty := Demo.env (Ok false) (Some 3%nat) false in
  let run := put faulty Demo.ldp (UrlString "/c/foo.ttl") "new content"
               (Some "text/turtle") w in
  run.1 = Err (HttpError 500 "Error writing data")
  /\ held run.2 = held w
  /\ (forall p, content_at (disk run.2) p = content_at (disk w) p
                \/ exists n, content_at (disk run.2) p = Some (substring 0 n "new content")).
Proof.
  intros w faulty run.
  assert (Hrun : run.1 = Err (HttpError 500 "Error writing data"))
    by (vm_compute; reflexivity).
  split; [exact Hrun |].
  destruct (put_failure_releases_lock_and_writes_prefix faulty Demo.ldp
              (UrlString "/c/foo.ttl") "new content" (Some "text/turtle") w run.2 run.1)
    as [_ Hfail]; [apply surjective_pairing |].
  destruct (Hfail _ Hrun) as (Hheld & Hprefix & _).
  split; [exact Hheld | exact Hprefix].
Defined.

(** The other failure of the claim: the lock on the target is held by
    someone else, the call gives up with the lock manager's error, the
    file is untouched and the foreign lock is still there. *)
Example put_lock_timeout_run :
  let k := ["data"; "c"; "foo.ttl"] in
  let r := put Demo.quiet Demo.ldp (UrlString "/c/foo.ttl") "new content"
             (Some "text/turtle") (mkWorld Demo.disk1 {[k]} 0 []) in
  r.1 = Err (SysError ELOCKED)
  /\ content_at (disk r.2) "/data/c/foo.ttl" = Some "old content"
  /\ elements (held r.2) = [k].
Proof. vm_compute. splits; reflexivity. Qed.

(** ** Deleting a container *)

Lemma split_nonempty (c : ascii) (s : string) : Js.split c s <> [].
Proof.
  induction s as [|a s IH]; simpl; [discriminate |].
  destruct (Ascii.eqb a c); [discriminate |].
  destruct (Js.split c s); [contradiction | discriminate].
Qed.

Lemma split_snoc_separator (c : ascii) (s : string) :
  Js.split c (s +:+ String c "") = Js.split c s ++ [""].
Proof.
  induction s as [|a s IH]; simpl.
  - rewrite Ascii.eqb_refl. reflexivity.
  - destruct (Ascii.eqb a c); [now rewrite IH |].
    rewrite IH. pose proof (split_nonempty c s) as Hne.
    destruct (Js.split c s) as [|piece pieces]; [contradiction | reflexivity].
Qed.

Lemma resolve_snoc_empty (parts acc : list string) :
  resolve (parts ++ [""]) acc = resolve parts acc.
Proof.
  revert acc. induction parts as [|part rest IH]; intros acc; simpl; [reflexivity |].
  destruct (String.eqb part "" || String.eqb part "."); [apply IH |].
  destruct (String.eqb part ".."); apply IH.
Qed.

(** A trailing separator does not change the directory a path names. *)
Lemma segments_trailing_separator (dir : string) :
  segments (dir +:+ "/") = segments dir.
Proof.
  unfold segments. rewrite split_snoc_separator. apply resolve_snoc_empty.
Qed.

Lemma child_name_Some (k k' : list string) (name : string) :
  child_name k k' = Some name <-> k' = k ++ [name].
Proof.
  unfold child_name. split.
  - destruct (last k') as [n|] eqn:Hlast; [| discriminate].
    destruct (decide (k' = k ++ [n])) as [Heq | Hne]; [| discriminate].
    intros H. injection H as <-. exact Heq.
  - intros ->. rewrite last_snoc. rewrite decide_True by reflexivity. reflexivity.
Qed.

(** [readdir] lists exactly the names of the entries the disk has
    below the directory. *)
Lemma disk_readdir_entries (d : Disk) (dir : string) (names : list string) (name : string) :
  disk_readdir d dir = Ok names ->
  (In name names <-> is_Some (d !! (segments dir ++ [name]))).
Proof.
  unfold disk_readdir. destruct (node_at d (segments dir)) as [[c|]|]; try discriminate.
  intros H. injection H as <-. rewrite <- list_elem_of_In, list_elem_of_omap. split.
  - intros ([k' n] & Hin & Hchild). simpl in Hchild.
    apply child_name_Some in Hchild as ->.
    apply elem_of_map_to_list in Hin. eauto.
  - intros [n Hn]. exists (segments dir ++ [name], n). split.
    + apply elem_of_map_to_list. exact Hn.
    + simpl. apply child_name_Some. reflexivity.
Qed.

Lemma disk_rimraf_below (d : Disk) (dir : string) (k : list string) :
  segments dir `prefix_of` k -> disk_rimraf d dir !! k = None.
Proof.
  intros Hprefix. unfold disk_rimraf. apply map_lookup_filter_None. right.
  intros n _ Hnot. apply Hnot. exact Hprefix.
Qed.

Lemma disk_rimraf_elsewhere (d : Disk) (dir : string) (k : list string) :
  ¬ segments dir `prefix_of` k -> disk_rimraf d dir !! k = d !! k.
Proof.
  intros Hprefix. unfold disk_rimraf. destruct (d !! k) as [n|] eqn:Hk.
  - apply map_lookup_filter_Some. split; [exact Hk | exact Hprefix].
  - apply map_lookup_filter_None. left. exact Hk.
Qed.

Section DeleteContainer.

Variable env : Env.
Variable this : LDP.

Lemma extra_true (file : string) :
  extra this file = true <-> file <> suffixMeta this /\ file <> suffixAcl this.
Proof.
  unfold extra. rewrite andb_true_iff, !negb_true_iff, !String.eqb_neq. reflexivity.
Qed.

(** The run of [deleteContainer] on a directory, by what [readdir]
    lists. *)
Lemma deleteContainer_run (directory : string) (w : World) :
  node_at (disk w) (segments directory) = Some Dir ->
  exists (dir' : string) (names : list string),
    segments dir' = segments directory
    /\ disk_readdir (disk w) dir' = Ok names
    /\ deleteContainer env this directory w
       = if existsb (extra this) names
         then (Err (HttpError 409 "Container is not empty"),
               mkWorld (disk w) (held w) (clock w) (log w ++ [EvReaddir dir']))
         else if rimraf_fault env (segments directory)
         then (Err (HttpError 500 "Failed to delete the container"),
               mkWorld (disk w) (held w) (clock w)
                 (log w ++ [EvReaddir dir'] ++ [EvRimraf dir']))
         else (Ok tt,
               mkWorld (disk_rimraf (disk w) directory) (held w) (clock w)
                 (log w ++ [EvReaddir dir'] ++ [EvRimraf dir'])).
Proof.
  intros Hdir.
  set (dir' := if negb (Js.endsWith directory "/") then directory +:+ "/" else directory).
  assert (Hseg : segments dir' = segments directory).
  { unfold dir'. destruct (negb _); [apply segments_trailing_separator | reflexivity]. }
  assert (Hrd : exists names, disk_readdir (disk w) dir' = Ok names).
  { unfold disk_readdir. rewrite Hseg, Hdir. eauto. }
  destruct Hrd as [names Hrd]. exists dir', names. splits; [exact Hseg | exact Hrd |].
  unfold deleteContainer. fold dir'. fold (extra this).
  unfold bind, try_catch, fs_readdir, bind, emit, get_disk, lift. simpl.
  rewrite Hrd. destruct (existsb (extra this) names); [reflexivity |].
  unfold rimraf, bind, emit, get_disk, set_disk. simpl. rewrite Hseg.
  destruct (rimraf_fault env (segments directory)); simpl.
  - rewrite <- app_assoc. reflexivity.
  - rewrite <- app_assoc. unfold disk_rimraf. rewrite Hseg. reflexivity.
Qed.

End DeleteContainer.

(** C6. Deleting a directory: when it has an entry that is neither the
    metadata nor the ACL suffix file the call fails with status 409
    (Conflict) and the disk is unchanged; when it has no such entry the
    tree is removed, that is, nothing is left at or below the directory
    and everything else is as it was, unless the removal fails, in which
    case the call fails with status 500 (ServerError). *)
Theorem deleteContainer_only_when_empty (env : Env) (this : LDP) (directory : string)
    (w : World) :
  node_at (disk w) (segments directory) = Some Dir ->
  ((exists name, name <> suffixMeta this /\ name <> suffixAcl this
                 /\ is_Some (disk w !! (segments directory ++ [name]))) ->
   exists w', deleteContainer env this directory w
              = (Err (HttpError 409 "Container is not empty"), w')
              /\ disk w' = disk w)
  /\ ((forall name, is_Some (disk w !! (segments directory ++ [name])) ->
                    name = suffixMeta this \/ name = suffixAcl this) ->
      (rimraf_fault env (segments directory) = false ->
       exists w', deleteContainer env this directory w = (Ok tt, w')
                  /\ (forall k, segments directory `prefix_of` k -> disk w' !! k = None)
                  /\ (forall k, ¬ segments directory `prefix_of` k ->
                                disk w' !! k = disk w !! k))
      /\ (rimraf_fault env (segments directory) = true ->
          exists w', deleteContainer env this directory w
                     = (Err (HttpError 500 "Failed to delete the container"), w'))).
Proof.
  intros Hdir.
  destruct (deleteContainer_run env this directory w Hdir)
    as (dir' & names & Hseg & Hrd & Hrun).
  assert (Hentries : forall name,
             In name names <-> is_Some (disk w !! (segments directory ++ [name]))).
  { intros name. rewrite <- Hseg. apply disk_readdir_entries. exact Hrd. }
  split.
  - intros (name & Hmeta & Hacl & Hentry).
    assert (Hex : existsb (extra this) names = true).
    { apply existsb_exists. exists name. split; [apply Hentries, Hentry |].
      apply extra_true. auto. }
    rewrite Hex in Hrun. eexists. split; [exact Hrun | reflexivity].
  - intros Honly.
    assert (Hex : existsb (extra this) names = false).
    { apply not_true_is_false. intros Hex. apply existsb_exists in Hex as (name & Hin & Hx).
      apply extra_true in Hx as [Hmeta Hacl].
      destruct (Honly name (proj1 (Hentries name) Hin)); contradiction. }
    rewrite Hex in Hrun. split; intros Hfault; rewrite Hfault in Hrun.
    + eexists. split; [exact Hrun |]. simpl. split.
      * intros k Hk. apply disk_rimraf_below, Hk.
      * intros k Hk. apply disk_rimraf_elsewhere, Hk.
    + eexists. exact Hrun.
Qed.

Lemma deleteContainer_only_when_empty_witness :
  let w := Demo.world Demo.disk1 in
  exists w', deleteContainer Demo.quiet Demo.ldp "/data/c" w
             = (Err (HttpError 409 "Container is not empty"), w')
             /\ disk w' = disk w.
Proof.
  intros w.
  apply (deleteContainer_only_when_empty Demo.quiet Demo.ldp "/data/c" w).
  - reflexivity.
  - exists "foo.ttl". splits; [discriminate | discriminate |].
    exists (File "old content"). vm_compute. reflexivity.
Defined.

Example deleteContainer_bare_run :
  let r := deleteContainer Demo.quiet Demo.ldp "/data/c" (Demo.world demo_disk_bare) in
  r.1 = Ok tt
  /\ map_to_list (disk r.2) = [(["data"; "other.ttl"], File "x"); (["data"], Dir)].
Proof. vm_compute. splits; reflexivity. Qed.

Example deleteContainer_removal_fails :
  (deleteContainer (Demo.env (Ok false) None true) Demo.ldp "/data/c"
     (Demo.world demo_disk_bare)).1
  = Err (HttpError 500 "Failed to delete the container").
Proof. vm_compute. reflexivity. Qed.

(** ** Byte ranges in [get] *)

(** The example of the specification: [bytes=10-19] of 100 bytes. *)
Example get_range_10_19 :
  (get Demo.quiet Demo.ldp (demo_range_request "bytes=10-19") true
     (Demo.world demo_disk_hundred)).1
  = Ok {| stream := BodyBytes "0123456789"; contentType := "text/turtle";
          container := false; contentRange := Some "bytes 10-19/100";
          chunksize := Some (Js.Num 10) |}.
Proof. vm_compute. reflexivity. Qed.

Example get_range_open_end :
  (get Demo.quiet Demo.ldp (demo_range_request "bytes=95-") true
     (Demo.world demo_disk_hundred)).1
  = Ok {| stream := BodyBytes "56789"; contentType := "text/turtle";
          container := false; contentRange := Some "bytes 95-99/100";
          chunksize := Some (Js.Num 5) |}.
Proof. vm_compute. reflexivity. Qed.

(** C2 fails when the range starts at offset 0: [start && end] is falsy
    for [start = 0], the read stream is opened without options and
    yields the whole file, while [chunksize] and [contentRange] still
    describe the ten bytes that were asked for. *)
Theorem get_range_from_zero_streams_whole_file :
  (get Demo.quiet Demo.ldp (demo_range_request "bytes=0-9") true
     (Demo.world demo_disk_hundred)).1
  = Ok {| stream := BodyBytes (digit_bytes 100 0); contentType := "text/turtle";
          container := false; contentRange := Some "bytes 0-9/100";
          chunksize := Some (Js.Num 10) |}
  /\ String.length (digit_bytes 100 0) = 100%nat
  /\ substring 0 10 (digit_bytes 100 0) = "0123456789".
Proof. vm_compute. splits; reflexivity. Qed.

(** ** The path allocator *)

Section Allocator.

Variable env : Env.
Variable this : LDP.

(** The probe reads and never writes; it resolves exactly when [probe]
    says so. *)
Lemma exists_run (host path : string) (w : World) :
  exists (r : Result GetResult) l,
    exists_ env this host path true w
    = (r, mkWorld (disk w) (held w) (clock w) (log w ++ l))
    /\ is_ok r = probe this (disk w) host path.
Proof.
  unfold exists_, get, probe, bind, try_catch, call_mapUrlToFile, bind, emit, get_disk,
    lift, stat, try_catch, fs_stat, bind, emit, get_disk. simpl.
  destruct (mapUrlToFile _ _ _ _ _ _) as [[file ct]|e]; simpl.
  - destruct (node_at (disk w) (segments file)) as [n|] eqn:Hnode; simpl.
    + eexists _, [EvMapUrlToFile; EvStat file]. rewrite <- app_assoc. simpl.
      split; reflexivity.
    + eexists _, [EvMapUrlToFile; EvStat file]. rewrite <- app_assoc. simpl.
      split; reflexivity.
  - eexists _, [EvMapUrlToFile]. split; reflexivity.
Qed.

Lemma candidate_shift (containerURI path first : string) (clock0 i : nat) :
  candidate env containerURI path
    (joinPaths env containerURI (uuid_prefix (uuid_v1 env clock0) +:+ "-" +:+ path))
    (S clock0) i
  = candidate env containerURI path first clock0 (S i).
Proof.
  destruct i as [|j]; simpl.
  - rewrite Nat.add_0_r. reflexivity.
  - replace (clock0 + S j)%nat with (S (clock0 + j)) by lia. reflexivity.
Qed.

(** A result of [ensureNotExists] is the first candidate the probe does
    not find, and the disk and the lock table are as before. *)
Lemma ensureNotExists_result (fuel : nat) (host containerURI path newPath : string)
    (w w' : World) (p : string) :
  ensureNotExists env this fuel host containerURI path newPath w = Some (p, w') ->
  disk w' = disk w /\ held w' = held w
  /\ exists i, (i < fuel)%nat
               /\ p = candidate env containerURI path newPath (clock w) i
               /\ probe this (disk w) host p = false
               /\ forall j, (j < i)%nat ->
                    probe this (disk w) host
                      (candidate env containerURI path newPath (clock w) j) = true.
Proof.
  revert newPath w. induction fuel as [|fuel IH]; intros newPath w Hrun; [discriminate |].
  simpl in Hrun.
  destruct (exists_run host newPath w) as (r & l & Hprobe & Hok). rewrite Hprobe in Hrun.
  destruct r as [found|e]; simpl in Hok.
  - unfold uuid in Hrun. simpl in Hrun. apply IH in Hrun. simpl in Hrun.
    destruct Hrun as (Hdisk & Hheld & i & Hi & Hp & Hfree & Hbefore).
    splits; [exact Hdisk | exact Hheld |]. exists (S i).
    rewrite candidate_shift with (first := newPath) in Hp.
    splits; [lia | exact Hp | exact Hfree |].
    intros [|j] Hj; [symmetry; exact Hok |].
    rewrite <- candidate_shift. apply Hbefore. lia.
  - injection Hrun as <- <-. simpl. splits; [reflexivity | reflexivity |].
    exists 0%nat. splits; [lia | reflexivity | symmetry; exact Hok |]. intros j Hj. lia.
Qed.

(** Enough fuel gives a result as soon as one candidate is free. *)
Lemma ensureNotExists_returns (fuel : nat) (host containerURI path newPath : string)
    (w : World) (i : nat) :
  probe this (disk w) host (candidate env containerURI path newPath (clock w) i) = false ->
  (i < fuel)%nat ->
  exists p w', ensureNotExists env this fuel host containerURI path newPath w = Some (p, w').
Proof.
  revert newPath w i. induction fuel as [|fuel IH]; intros newPath w i Hfree Hi; [lia |].
  simpl. destruct (exists_run host newPath w) as (r & l & Hprobe & Hok). rewrite Hprobe.
  destruct r as [found|e]; simpl in Hok; [| eauto].
  destruct i as [|i]; [simpl in Hfree; congruence |].
  unfold uuid. simpl.
  apply (IH _ _ i); [| lia]. simpl.
  rewrite candidate_shift with (first := newPath). exact Hfree.
Qed.

End Allocator.

(** C5. Whatever the store holds, an identifier [getAvailablePath]
    returns is one its existence probe did not find, on a disk that is
    still the one of the call: it is the first candidate
    [containerURI + slug + extension] when that one is not found, and
    otherwise a retry candidate whose base name is prefixed with a uuid
    token and a dash, every earlier candidate having been found to
    exist.  The allocator does return as soon as some candidate is free
    (with the fuel to reach it). *)
Theorem getAvailablePath_returns_unprobed_path (env : Env) (this : LDP) (fuel : nat)
    (host containerURI : string) (slug extension : option string) (w : World) :
  let base := match slug with Some s => s | None => uuid_v1 env (clock w) end in
  let clock0 := match slug with Some _ => clock w | None => S (clock w) end in
  let path := base +:+ concat_string extension in
  let first := joinPaths env containerURI path in
  (forall p w',
      getAvailablePath env this fuel host containerURI slug extension w = Some (p, w') ->
      disk w' = disk w /\ held w' = held w
      /\ probe this (disk w) host p = false
      /\ (probe this (disk w) host first = false -> p = first)
      /\ (probe this (disk w) host first = true ->
          exists token, p = joinPaths env containerURI (token +:+ "-" +:+ path))
      /\ exists i, (i < fuel)%nat
                   /\ p = candidate env containerURI path first clock0 i
                   /\ forall j, (j < i)%nat ->
                        probe this (disk w) host
                          (candidate env containerURI path first clock0 j) = true)
  /\ (forall i,
         probe this (disk w) host (candidate env containerURI path first clock0 i) = false ->
         (i < fuel)%nat ->
         exists p w',
           getAvailablePath env this fuel host containerURI slug extension w = Some (p, w')).
Proof.
  intros base clock0 path first.
  set (w0 := match slug with Some _ => w | None => (uuid env w).2 end).
  assert (Hrun : getAvailablePath env this fuel host containerURI slug extension w
                 = ensureNotExists env this fuel host containerURI path first w0).
  { unfold getAvailablePath, w0, first, path, base. destruct slug; reflexivity. }
  assert (Hdisk0 : disk w0 = disk w) by (unfold w0; destruct slug; reflexivity).
  assert (Hheld0 : held w0 = held w) by (unfold w0; destruct slug; reflexivity).
  assert (Hclock0 : clock w0 = clock0) by (unfold w0, clock0; destruct slug; reflexivity).
  rewrite Hrun. split.
  - intros p w' Hres. apply ensureNotExists_result in Hres.
    rewrite Hdisk0, Hheld0, Hclock0 in Hres.
    destruct Hres as (Hdisk & Hheld & i & Hi & Hp & Hfree & Hbefore).
    splits; [exact Hdisk | exact Hheld | exact Hfree | | |].
    + intros Hfirst. destruct i as [|i]; [exact Hp |].
      specialize (Hbefore 0%nat ltac:(lia)). simpl in Hbefore. congruence.
    + intros Hfirst. destruct i as [|i].
      * simpl in Hp. congruence.
      * eexists. exact Hp.
    + exists i. splits; [exact Hi | exact Hp | exact Hbefore].
  - intros i Hfree Hi. apply (ensureNotExists_returns env this fuel _ _ _ _ w0 i); [| exact Hi].
    rewrite Hdisk0, Hclock0. exact Hfree.
Qed.

Lemma getAvailablePath_returns_unprobed_path_witness :
  let w := Demo.world Demo.disk1 in
  let p := "/c/c0ffee0-foo.ttl" in
  probe Demo.ldp (disk w) "localhost" "/c/foo.ttl" = true
  /\ probe Demo.ldp (disk w) "localhost" p = false
  /\ exists token, p = Demo.uri_joinPaths "/c/" (token +:+ "-" +:+ "foo.ttl").
Proof.
  intros w p.
  pose proof (getAvailablePath_returns_unprobed_path Demo.quiet Demo.ldp 3 "localhost" "/c/"
                (Some "foo") (Some ".ttl") w) as [Hsafe _].
  specialize (Hsafe p (mkWorld Demo.disk1 ∅ 1
                         [EvMapUrlToFile; EvStat "/data/c/foo.ttl"; EvUuid; EvMapUrlToFile])).
  destruct Hsafe as (_ & _ & Hfree & _ & Hretry & _).
  - vm_compute. reflexivity.
  - assert (Hfirst : probe Demo.ldp (disk w) "localhost" "/c/foo.ttl" = true)
      by (vm_compute; reflexivity).
    splits; [exact Hfirst | exact Hfree | apply Hretry; exact Hfirst].
Defined.

(** The example of the specification: [/c/foo.ttl] exists, allocating
    [foo] with extension [.ttl] under [/c/] gives another identifier. *)
Example getAvailablePath_collision :
  option_map fst (getAvailablePath Demo.quiet Demo.ldp 3 "localhost" "/c/" (Some "foo")
                    (Some ".ttl") (Demo.world Demo.disk1))
  = Some "/c/c0ffee0-foo.ttl".
Proof. vm_compute. reflexivity. Qed.

(** ** Creating a container through [post] *)

Lemma getAvailablePath_unprobed (env : Env) (this : LDP) (fuel : nat)
    (host containerURI : string) (slug extension : option string) (w w1 : World)
    (p : string) :
  getAvailablePath env this fuel host containerURI slug extension w = Some (p, w1) ->
  disk w1 = disk w /\ held w1 = held w /\ probe this (disk w) host p = false.
Proof.
  unfold getAvailablePath. intros Hrun.
  destruct slug as [s|]; apply ensureNotExists_result in Hrun;
    destruct Hrun as (Hdisk & Hheld & i & _ & _ & Hfree & _); simpl in *; auto.
Qed.

(** With the fuel to reach a free candidate the allocator returns, and
    what it returns is free. *)
Lemma getAvailablePath_allocates (env : Env) (this : LDP) (fuel : nat)
    (host containerURI : string) (slug extension : option string) (w : World) (i : nat) :
  (i < fuel)%nat ->
  probe this (disk w) host (allocation_candidate env containerURI slug extension (clock w) i)
  = false ->
  exists p w1,
    getAvailablePath env this fuel host containerURI slug extension w = Some (p, w1)
    /\ disk w1 = disk w /\ held w1 = held w /\ probe this (disk w) host p = false.
Proof.
  intros Hi Hfree.
  assert (Hreturns : exists p w1,
             getAvailablePath env this fuel host containerURI slug extension w
             = Some (p, w1)).
  { unfold getAvailablePath, allocation_candidate in *.
    destruct slug as [s|]; simpl in *;
      eapply ensureNotExists_returns; [exact Hfree | exact Hi | exact Hfree | exact Hi]. }
  destruct Hreturns as (p & w1 & Hrun). exists p, w1. split; [exact Hrun |].
  eapply getAvailablePath_unprobed, Hrun.
Qed.

(** [post] by the answers it gets: the check of the slug, the
    allocator, the mapper, and the outcome of [put]. *)
Lemma post_run (env : Env) (this : LDP) (fuel : nat) (host containerPath : string)
    (stream : Readable) (container : bool) (slug extension : option string) (w : World) :
  post env this fuel host containerPath stream container slug extension w
  = match checked_slug env slug with
    | Err e => Some (Err e, w)
    | Ok slug' =>
        match getAvailablePath env this fuel host containerPath slug'
                (if container then Some "" else extension) w with
        | None => None
        | Some (allocated, w1) =>
            let file :=
              rootPath (resourceMapper this)
              +:+ (if container then path_join env allocated (suffixMeta this)
                   else allocated) in
            match mapFileToUrl (resourceMapper this) (disk w1) file host with
            | Err e => Some (Err e, post_before_put w1 file)
            | Ok (putUrl, contentType) =>
                let run := put env this (UrlString putUrl) stream (Some contentType)
                             (post_before_put w1 file) in
                Some (located (if container then container_location allocated
                               else allocated) run.1, run.2)
            end
        end
    end.
Proof.
  unfold post, post_before_put.
  destruct (checked_slug env slug) as [slug'|e]; [| reflexivity].
  destruct (getAvailablePath env this fuel host containerPath slug' _ w)
    as [[allocated w1]|]; [| reflexivity].
  unfold bind, call_mapFileToUrl, bind, emit, get_disk, lift. simpl.
  destruct (mapFileToUrl (resourceMapper this) (disk w1) _ host)
    as [[putUrl contentType]|e]; simpl; [| reflexivity].
  destruct (put env this (UrlString putUrl) stream (Some contentType) _)
    as [[[[]|e]|] w2]; unfold container_location; destruct container; reflexivity.
Qed.


Lemma append_assoc (a b c : string) : (a +:+ b) +:+ c = a +:+ (b +:+ c).
Proof.
  induction a as [|x a IH]; [reflexivity |].
  change (String x ((a +:+ b) +:+ c) = String x (a +:+ (b +:+ c))). now f_equal.
Qed.

Lemma length_append (a b : string) :
  String.length (a +:+ b) = (String.length a + String.length b)%nat.
Proof.
  induction a as [|x a IH]; [reflexivity |].
  change (S (String.length (a +:+ b)) = S (String.length a + String.length b)).
  now f_equal.
Qed.

Lemma substring_separator_at_end (s : string) :
  substring (String.length s) 1 (s +:+ "/") = "/".
Proof.
  induction s as [|x s IH]; [reflexivity |].
  change (substring (String.length s) 1 (s +:+ "/") = "/"). exact IH.
Qed.

Lemma endsWith_appended_separator (s : string) : Js.endsWith (s +:+ "/") "/" = true.
Proof.
  unfold Js.endsWith. rewrite length_append. simpl String.length.
  replace (String.length s + 1 - 1)%nat with (String.length s) by lia.
  rewrite substring_separator_at_end.
  replace (1 <=? String.length s + 1)%nat with true by (symmetry; apply Nat.leb_le; lia).
  reflexivity.
Qed.

Lemma container_location_ends_with_separator (allocated : string) :
  allocated <> "" -> Js.endsWith (container_location allocated) "/" = true.
Proof.
  intros Hne. unfold container_location.
  apply String.eqb_neq in Hne. rewrite Hne. simpl.
  destruct (Js.endsWith allocated "/") eqn:Hends; simpl;
    [exact Hends | apply endsWith_appended_separator].
Qed.

(** With an empty slug under the root the allocated identifier is the
    empty string ([URI.joinPaths('/', '')] is the empty URI); on a store
    where the probe does not find it, [post] writes the metadata file
    and returns the empty string, which the guard [originalPath && ...]
    leaves without a separator. *)
Lemma post_container_empty_location : ~ post_container_returns_separator_ended.
Proof.
  intros Hclaim.
  assert (Hrun : exists w',
             post Demo.quiet Demo.ldp 2 "localhost" "/" "" true (Some "") (Some ".ttl")
               (Demo.world ∅)
             = Some (Ok "", w')).
  { eexists. vm_compute. reflexivity. }
  destruct Hrun as (w' & Hrun). apply Hclaim in Hrun. discriminate.
Qed.

Example post_container_empty_location_run :
  option_map fst (post Demo.quiet Demo.ldp 2 "localhost" "/" "" true (Some "") (Some ".ttl")
                    (Demo.world ∅))
  = Some (Ok "").
Proof. vm_compute. reflexivity. Qed.

(** C9, amended. A [post] with the container flag, once its slug has
    passed the check, asks the allocator for a path with the empty
    extension, whatever extension it was given; with the fuel to reach
    a candidate that is free the allocator returns, and [post] then
    returns as well: it asks the mapper for the URL of the allocated
    identifier joined with the metadata suffix (under the root) and
    [put]s the stream there.  A rejection of the mapper or of that [put]
    is the rejection of [post], and a [put] that succeeds makes [post]
    return the allocated identifier itself, not the metadata path: with
    the separator appended when it does not end with one, and as it is
    when it is empty.  So the value returned ends with the separator
    whenever the allocated identifier is not empty. *)
Theorem post_container_puts_meta_and_returns_location (env : Env) (this : LDP)
    (fuel : nat) (host containerPath : string) (stream : Readable)
    (slug slug' extension : option string) (w : World) (i : nat) :
  checked_slug env slug = Ok slug' ->
  (i < fuel)%nat ->
  probe this (disk w) host
    (allocation_candidate env containerPath slug' (Some "") (clock w) i) = false ->
  exists allocated w1,
    getAvailablePath env this fuel host containerPath slug' (Some "") w
    = Some (allocated, w1)
    /\ disk w1 = disk w /\ held w1 = held w
    /\ (let file := rootPath (resourceMapper this)
                    +:+ path_join env allocated (suffixMeta this) in
        match mapFileToUrl (resourceMapper this) (disk w) file host with
        | Err e =>
            post env this fuel host containerPath stream true slug extension w
            = Some (Err e, post_before_put w1 file)
        | Ok (putUrl, contentType) =>
            let run := put env this (UrlString putUrl) stream (Some contentType)
                         (post_before_put w1 file) in
            post env this fuel host containerPath stream true slug extension w
            = Some (located (container_location allocated) run.1, run.2)
        end)
    /\ (container_location allocated = allocated
        \/ container_location allocated = allocated +:+ "/")
    /\ (allocated <> "" -> Js.endsWith (container_location allocated) "/" = true)
    /\ (allocated = "" -> container_location allocated = "").
Proof.
  intros Hslug Hi Hfree.
  destruct (getAvailablePath_allocates env this fuel host containerPath slug' (Some "") w i
              Hi Hfree) as (allocated & w1 & Halloc & Hdisk & Hheld & _).
  exists allocated, w1. splits; [exact Halloc | exact Hdisk | exact Hheld | | | |].
  - rewrite post_run, Hslug, Halloc. simpl. rewrite Hdisk.
    destruct (mapFileToUrl (resourceMapper this) (disk w) _ host) as [[putUrl contentType]|e];
      reflexivity.
  - unfold container_location. destruct (_ && _); [right | left]; reflexivity.
  - apply container_location_ends_with_separator.
  - intros ->. reflexivity.
Qed.

Lemma post_container_puts_meta_and_returns_location_witness :
  let w := Demo.world Demo.disk1 in
  exists allocated w1,
    getAvailablePath Demo.quiet Demo.ldp 2 "localhost" "/c/" (Some "sub") (Some "") w
    = Some (allocated, w1)
    /\ disk w1 = disk w /\ held w1 = held w
    /\ (let file := rootPath (resourceMapper Demo.ldp)
                    +:+ path_join Demo.quiet allocated (suffixMeta Demo.ldp) in
        match mapFileToUrl (resourceMapper Demo.ldp) (disk w) file "localhost" with
        | Err e =>
            post Demo.quiet Demo.ldp 2 "localhost" "/c/" "# meta" true (Some "sub")
              (Some ".ttl") w
            = Some (Err e, post_before_put w1 file)
        | Ok (putUrl, contentType) =>
            let run := put Demo.quiet Demo.ldp (UrlString putUrl) "# meta"
                         (Some contentType) (post_before_put w1 file) in
            post Demo.quiet Demo.ldp 2 "localhost" "/c/" "# meta" true (Some "sub")
              (Some ".ttl") w
            = Some (located (container_location allocated) run.1, run.2)
        end)
    /\ (container_location allocated = allocated
        \/ container_location allocated = allocated +:+ "/")
    /\ (allocated <> "" -> Js.endsWith (container_location allocated) "/" = true)
    /\ (allocated = "" -> container_location allocated = "").
Proof.
  intros w.
  apply (post_container_puts_meta_and_returns_location Demo.quiet Demo.ldp 2 "localhost"
           "/c/" "# meta" (Some "sub") (Some "sub") (Some ".ttl") w 0);
    [reflexivity | lia | vm_compute; reflexivity].
Defined.

Example post_container_run :
  let r := post Demo.quiet Demo.ldp 2 "localhost" "/c/" "# meta" true (Some "sub")
             (Some ".ttl") (Demo.world Demo.disk1) in
  option_map fst r = Some (Ok "/c/sub/")
  /\ option_map (fun x => content_at (disk x.2) "/data/c/sub/.meta") r
     = Some (Some "# meta")
  /\ option_map (fun x => node_at (disk x.2) ["data"; "c"; "sub"]) r = Some (Some Dir).
Proof. vm_compute. splits; reflexivity. Qed.

(** ** The metadata of a container in [get] *)

#[local] Instance same_disk_preorder : PreOrder same_disk.
Proof.
  split.
  - intros w. reflexivity.
  - intros a b c Hab Hbc. unfold same_disk in *. congruence.
Qed.

Lemma emit_same_disk ev : keeps same_disk (emit ev).
Proof. intros w. reflexivity. Qed.

#[export] Hint Resolve emit_same_disk : frames.

Lemma fs_readFile_same_disk path : keeps same_disk (fs_readFile path).
Proof. unfold fs_readFile. keeps_auto. Qed.

Lemma with_lock_same_disk {A} path options (body : M A) :
  keeps same_disk body -> keeps same_disk (with_lock path options body).
Proof.
  intros Hbody w. destruct (with_lock path options body w) as [r w'] eqn:Hrun.
  apply with_lock_inv in Hrun as [(e & -> & ->) | (w2 & Hrun & Hdisk)]; simpl.
  - reflexivity.
  - unfold same_disk. rewrite Hdisk.
    apply (keeps_run same_disk body _ _ _ Hbody) in Hrun. exact Hrun.
Qed.

Lemma readContainerMeta_same_disk this url : keeps same_disk (readContainerMeta this url).
Proof.
  unfold readContainerMeta, readResource, call_mapUrlToFile.
  repeat (first [keeps_step | apply with_lock_same_disk | apply fs_readFile_same_disk
                | solve [auto with frames] | solve [typeclasses eauto]]).
Qed.

(** C10. In [get] on a container, when reading the metadata resource
    fails, for whatever reason and with whatever error, the failure is
    dropped: the result of [get] is the listing made from the empty
    string, exactly as when the metadata resource was read and is
    empty, and it succeeds whenever that listing does.  The failed read
    leaves the disk and the lock table as they were. *)
Theorem get_container_meta_failure_is_empty_meta (env : Env) (this : LDP)
    (options : Options.t) (searchIndex : bool) (w w3 : World)
    (path contentType absContainerUri contentType' : string) (meta : Outcome string) :
  mapUrlToFile (resourceMapper this) (disk w) (UrlObject options) None false searchIndex
  = Ok (path, contentType) ->
  node_at (disk w) (segments path) = Some Dir ->
  Options.includeBody options = true ->
  mapFileToUrl (resourceMapper this) (disk w) path (Options.hostname options)
  = Ok (absContainerUri, contentType') ->
  readContainerMeta this absContainerUri
    (mkWorld (disk w) (held w) (clock w)
       (log w ++ [EvMapUrlToFile; EvStat path; EvMapFileToUrl path]))
  = (meta, w3) ->
  (is_ok meta = false \/ meta = Ok "") ->
  get env this options searchIndex w
  = container_listing env this path absContainerUri "" (Options.hostname options) w3
  /\ disk w3 = disk w /\ held w3 = held w.
Proof.
  intros Hmap Hdir Hbody Hurl Hmeta Hfail. splits.
  - unfold get, bind at 1, try_catch at 1, bind at 1, call_mapUrlToFile, bind, emit,
      get_disk, lift. simpl. rewrite Hmap. simpl.
    unfold stat, try_catch, fs_stat, bind, emit, get_disk. simpl.
    rewrite Hdir. simpl. rewrite Hbody. simpl.
    unfold call_mapFileToUrl, bind, emit, get_disk, lift. simpl. rewrite Hurl. simpl.
    rewrite <- !app_assoc. simpl.
    pose proof (settles_readContainerMeta this absContainerUri
                  (mkWorld (disk w) (held w) (clock w)
                     (log w ++ [EvMapUrlToFile; EvStat path; EvMapFileToUrl path])))
      as Hsettled.
    rewrite Hmeta in *. simpl in Hsettled.
    unfold container_listing.
    destruct Hfail as [Hfail | ->].
    + destruct meta as [[data|e]|]; [discriminate | | contradiction]. simpl.
      destruct (listContainer env this path absContainerUri "" _ w3) as [[[data|e']|] w'];
        reflexivity.
    + simpl.
      destruct (listContainer env this path absContainerUri "" _ w3) as [[[data|e']|] w'];
        reflexivity.
  - apply (keeps_run same_disk _ _ _ _ (readContainerMeta_same_disk this absContainerUri))
      in Hmeta. exact Hmeta.
  - apply (keeps_run same_locks _ _ _ _ (readContainerMeta_same_locks this absContainerUri))
      in Hmeta. exact Hmeta.
Qed.

Lemma get_container_meta_failure_is_empty_meta_witness :
  let w := Demo.world Demo.disk1 in
  let w3 := (readContainerMeta Demo.ldp "/c/"
               (mkWorld (disk w) (held w) (clock w)
                  (log w ++ [EvMapUrlToFile; EvStat "/data/c/"; EvMapFileToUrl "/data/c/"]))).2 in
  get Demo.quiet Demo.ldp demo_container_request true w
  = container_listing Demo.quiet Demo.ldp "/data/c/" "/c/" "" "localhost" w3
  /\ disk w3 = disk w /\ held w3 = held w.
Proof.
  intros w w3.
  apply (get_container_meta_failure_is_empty_meta Demo.quiet Demo.ldp demo_container_request
           true w w3 "/data/c/" "text/turtle" "/c/" "text/turtle"
           (readContainerMeta Demo.ldp "/c/"
              (mkWorld (disk w) (held w) (clock w)
                 (log w ++ [EvMapUrlToFile; EvStat "/data/c/"; EvMapFileToUrl "/data/c/"]))).1).
  - reflexivity.
  - reflexivity.
  - reflexivity.
  - reflexivity.
  - apply surjective_pairing.
  - left. vm_compute. reflexivity.
Defined.

(** The metadata resource is missing, locked by someone else, or not
    readable as a file: the listing is made all the same, and is the one
    of a container whose metadata resource is empty. *)
Example get_container_meta_missing :
  (readContainerMeta Demo.ldp "/c/" (Demo.world Demo.disk1)).1
  = Err (HttpError 404 "File not found")
  /\ (get Demo.quiet Demo.ldp demo_container_request true (Demo.world Demo.disk1)).1
     = Ok {| stream := BodyText "/c/foo.ttl"; contentType := "text/turtle";
             container := true; contentRange := None; chunksize := None |}.
Proof. vm_compute. splits; reflexivity. Qed.

Example get_container_meta_locked :
  let w := mkWorld (demo_disk_meta (File "<> a <#Thing>.")) {[ ["data"; "c"; ".meta"] ]} 0 [] in
  (readContainerMeta Demo.ldp "/c/" w).1 = Err (HttpError 500 "ELOCKED")
  /\ (get Demo.quiet Demo.ldp demo_container_request true w).1
     = (get Demo.quiet Demo.ldp demo_container_request true
          (Demo.world (demo_disk_meta (File "")))).1.
Proof. vm_compute. splits; reflexivity. Qed.

Example get_container_meta_unreadable :
  let w := Demo.world (demo_disk_meta Dir) in
  (readContainerMeta Demo.ldp "/c/" w).1 = Err (HttpError 500 "EISDIR")
  /\ is_ok (get Demo.quiet Demo.ldp demo_container_request true w).1 = true.
Proof. vm_compute. splits; reflexivity. Qed.

Example get_container_meta_read :
  (get Demo.quiet Demo.ldp demo_container_request true
     (Demo.world (demo_disk_meta (File "<> a <#Thing>.")))).1
  = Ok {| stream := BodyText "<> a <#Thing>.; /c/foo.ttl; /c/.meta";
          contentType := "text/turtle"; container := true;
          contentRange := None; chunksize := None |}.
Proof. vm_compute. reflexivity. Qed.

(** ** Reading back the decimal notation *)

Lemma append_cons (a : ascii) (s t : string) : String a s +:+ t = String a (s +:+ t).
Proof. reflexivity. Qed.

Lemma append_empty (t : string) : "" +:+ t = t.
Proof. reflexivity. Qed.

Lemma show_digits_acc (n fuel : nat) (acc : string) :
  (n < fuel)%nat -> Js.show_digits fuel n acc = Js.show_nat n +:+ acc.
Proof.
  revert fuel acc. induction n as [n IH] using lt_wf_ind. intros fuel acc Hlt.
  destruct fuel as [|fuel]; [lia |].
  unfold Js.show_nat. cbn [Js.show_digits].
  destruct (n <? 10)%nat eqn:Hsmall; [reflexivity |].
  apply Nat.ltb_ge in Hsmall.
  assert (Hdiv : (n / 10 < n)%nat) by (apply Nat.div_lt; lia).
  rewrite (IH (n / 10)%nat Hdiv fuel) by lia.
  rewrite (IH (n / 10)%nat Hdiv n) by lia.
  rewrite append_assoc. reflexivity.
Qed.

Lemma show_nat_small (n : nat) :
  (n < 10)%nat -> Js.show_nat n = String (Js.digit_char n) "".
Proof.
  intros Hsmall. unfold Js.show_nat. cbn [Js.show_digits].
  rewrite (proj2 (Nat.ltb_lt n 10) Hsmall). rewrite Nat.mod_small by exact Hsmall.
  reflexivity.
Qed.

Lemma show_nat_step (n : nat) :
  (10 <= n)%nat ->
  Js.show_nat n = Js.show_nat (n / 10) +:+ String (Js.digit_char (n mod 10)) "".
Proof.
  intros Hbig. unfold Js.show_nat at 1. cbn [Js.show_digits].
  rewrite (proj2 (Nat.ltb_ge n 10) Hbig).
  apply show_digits_acc. apply Nat.div_lt; lia.
Qed.

Lemma all_digits_app (s t : string) :
  all_digits (s +:+ t) = all_digits s && all_digits t.
Proof.
  induction s as [|a s IH]; [reflexivity |].
  rewrite append_cons. simpl. rewrite IH. apply andb_assoc.
Qed.

Lemma digit_char_is_digit (m : nat) : (m < 10)%nat -> Js.is_digit (Js.digit_char m) = true.
Proof.
  intros Hm. do 10 (destruct m as [|m]; [reflexivity |]). lia.
Qed.

Lemma digit_char_value (m : nat) :
  (m < 10)%nat -> Js.digit_value (Js.digit_char m) = Z.of_nat m.
Proof.
  intros Hm. do 10 (destruct m as [|m]; [reflexivity |]). lia.
Qed.

Lemma show_nat_all_digits (n : nat) : all_digits (Js.show_nat n) = true.
Proof.
  induction n as [n IH] using lt_wf_ind.
  destruct (Nat.lt_ge_cases n 10) as [Hsmall | Hbig].
  - rewrite show_nat_small by exact Hsmall. cbn [all_digits].
    rewrite digit_char_is_digit by exact Hsmall. reflexivity.
  - rewrite show_nat_step by exact Hbig. rewrite all_digits_app.
    rewrite IH by (apply Nat.div_lt; lia). cbn [all_digits].
    rewrite digit_char_is_digit by (apply Nat.mod_upper_bound; lia). reflexivity.
Qed.

Lemma show_nat_not_empty (n : nat) : Js.show_nat n <> "".
Proof.
  destruct (Nat.lt_ge_cases n 10) as [Hsmall | Hbig].
  - rewrite show_nat_small by exact Hsmall. discriminate.
  - rewrite show_nat_step by exact Hbig.
    destruct (Js.show_nat (n / 10)); discriminate.
Qed.

Lemma read_digits_app (s t : string) (acc : option Z) :
  all_digits s = true ->
  Js.read_digits acc (s +:+ t) = Js.read_digits (Js.read_digits acc s) t.
Proof.
  revert acc. induction s as [|a s IH]; intros acc Hs; [reflexivity |].
  rewrite append_cons. simpl in Hs. apply andb_true_iff in Hs as [Ha Hs].
  cbn [Js.read_digits]. rewrite Ha. apply IH. exact Hs.
Qed.

Lemma read_digits_show_nat (n : nat) :
  Js.read_digits None (Js.show_nat n) = Some (Z.of_nat n).
Proof.
  induction n as [n IH] using lt_wf_ind.
  destruct (Nat.lt_ge_cases n 10) as [Hsmall | Hbig].
  - rewrite show_nat_small by exact Hsmall. cbn [Js.read_digits].
    rewrite digit_char_is_digit, digit_char_value by exact Hsmall. reflexivity.
  - rewrite show_nat_step by exact Hbig.
    rewrite read_digits_app by apply show_nat_all_digits.
    rewrite IH by (apply Nat.div_lt; lia). cbn [Js.read_digits].
    assert (Hmod : (n mod 10 < 10)%nat) by (apply Nat.mod_upper_bound; lia).
    rewrite digit_char_is_digit, digit_char_value by exact Hmod.
    f_equal. cbn [default]. unfold id. pose proof (Nat.div_mod_eq n 10) as Hdm. lia.
Qed.

Lemma parseInt_digit_first (a : ascii) (rest : string) :
  Js.is_digit a = true ->
  Js.parseInt (String a rest)
  = match Js.read_digits None (String a rest) with
    | Some z => Js.Num z
    | None => Js.NaN
    end.
Proof.
  intros Ha.
  destruct a as [[] [] [] [] [] [] [] []]; try (vm_compute in Ha; discriminate);
    reflexivity.
Qed.

(** [parseInt] reads the decimal notation of a natural number back. *)
Lemma parseInt_show_nat (n : nat) : Js.parseInt (Js.show_nat n) = Js.Num (Z.of_nat n).
Proof.
  pose proof (show_nat_all_digits n) as Hdigits.
  pose proof (read_digits_show_nat n) as Hread.
  pose proof (show_nat_not_empty n) as Hne.
  destruct (Js.show_nat n) as [|a rest]; [contradiction |].
  simpl in Hdigits. apply andb_true_iff in Hdigits as [Ha _].
  rewrite parseInt_digit_first by exact Ha. rewrite Hread. reflexivity.
Qed.

Lemma show_Z_of_nat (n : nat) : Js.show_Z (Z.of_nat n) = Js.show_nat n.
Proof.
  unfold Js.show_Z. rewrite (proj2 (Z.ltb_ge (Z.of_nat n) 0)) by lia.
  rewrite Nat2Z.id. reflexivity.
Qed.

(** ** The range header, in general *)

Lemma digit_not_dash (a : ascii) : Js.is_digit a = true -> Ascii.eqb a "-" = false.
Proof.
  intros Ha.
  destruct a as [[] [] [] [] [] [] [] []]; try (vm_compute in Ha; discriminate);
    reflexivity.
Qed.

Lemma all_digits_no_dash (s : string) : all_digits s = true -> Js.includes "-" s = false.
Proof.
  induction s as [|a s IH]; [reflexivity |].
  simpl. intros H. apply andb_true_iff in H as [Ha Hs].
  rewrite (digit_not_dash a Ha), IH by exact Hs. reflexivity.
Qed.

Lemma split_without_separator (c : ascii) (s : string) :
  Js.includes c s = false -> Js.split c s = [s].
Proof.
  induction s as [|a s IH]; [reflexivity |].
  simpl. intros H. apply orb_false_iff in H as [Ha Hs].
  rewrite Ha, IH by exact Hs. reflexivity.
Qed.

Lemma split_at_first_separator (c : ascii) (s t : string) :
  Js.includes c s = false -> Js.split c (s +:+ String c t) = s :: Js.split c t.
Proof.
  induction s as [|a s IH]; intros H.
  - rewrite append_empty. simpl. rewrite Ascii.eqb_refl. reflexivity.
  - simpl in H. apply orb_false_iff in H as [Ha Hs].
    rewrite append_cons. cbn [Js.split]. rewrite Ha, IH by exact Hs. reflexivity.
Qed.

Lemma substring_all (s : string) (m : nat) :
  (String.length s <= m)%nat -> substring 0 m s = s.
Proof.
  revert m. induction s as [|a s IH]; intros m Hm.
  - destruct m; reflexivity.
  - destruct m as [|m]; [simpl in Hm; lia |].
    simpl. rewrite IH by (simpl in Hm; lia). reflexivity.
Qed.

Lemma remove_first_bytes_prefix (s : string) : Js.remove_first "bytes=" ("bytes=" +:+ s) = s.
Proof.
  change ("bytes=" +:+ s)
    with (String "b" (String "y" (String "t" (String "e" (String "s" (String "=" s)))))).
  destruct s as [|a s]; [reflexivity |].
  cbn -[substring String.length]. cbn [String.length substring].
  rewrite substring_all by lia. reflexivity.
Qed.

(** What [get] reads from the header [bytes=start-end], and from
    [bytes=start-] for a file of [total] bytes. *)
Lemma parse_range_closed (start end_ : nat) (total : Z) :
  parse_range ("bytes=" +:+ Js.show_nat start +:+ "-" +:+ Js.show_nat end_) total
  = (Js.Num (Z.of_nat end_ - Z.of_nat start + 1),
     "bytes " +:+ Js.show_nat start +:+ "-" +:+ Js.show_nat end_ +:+ "/" +:+ Js.show_Z total,
     Js.Num (Z.of_nat start), Js.Num (Z.of_nat end_)).
Proof.
  unfold parse_range. rewrite remove_first_bytes_prefix.
  change ("-" +:+ Js.show_nat end_) with (String "-" (Js.show_nat end_)).
  rewrite split_at_first_separator
    by (apply all_digits_no_dash, show_nat_all_digits).
  rewrite split_without_separator
    by (apply all_digits_no_dash, show_nat_all_digits).
  cbn [lookup list_lookup concat_string truthy_string].
  rewrite (proj2 (String.eqb_neq _ _) (show_nat_not_empty end_)). cbn [negb].
  rewrite !parseInt_show_nat. cbn [Js.sub Js.add Js.toString].
  rewrite !show_Z_of_nat. reflexivity.
Qed.

Lemma parse_range_open (start : nat) (total : Z) :
  parse_range ("bytes=" +:+ Js.show_nat start +:+ "-") total
  = (Js.Num (total - 1 - Z.of_nat start + 1),
     "bytes " +:+ Js.show_nat start +:+ "-" +:+ Js.show_Z (total - 1) +:+ "/"
       +:+ Js.show_Z total,
     Js.Num (Z.of_nat start), Js.Num (total - 1)).
Proof.
  unfold parse_range. rewrite remove_first_bytes_prefix.
  rewrite split_at_first_separator
    by (apply all_digits_no_dash, show_nat_all_digits).
  cbn [Js.split lookup list_lookup concat_string truthy_string String.eqb negb].
  rewrite !parseInt_show_nat. cbn [Js.sub Js.add Js.toString].
  rewrite !show_Z_of_nat. reflexivity.
Qed.

Section RangeRead.

Variable env : Env.
Variable this : LDP.

(** Opening the read stream settles the promise of [get]. *)
Lemma settles_read_stream (path contentType : string) (options : option (Z * Z))
    (contentRange : option string) (chunksize : option Js.number) :
  settles
    (try_catch
       (let* bytes := createReadStream path options in
        ret {| stream := BodyBytes bytes; contentType := contentType;
               container := false; contentRange := contentRange;
               chunksize := chunksize |})
       (fun err => throw (match err with
                          | SysError _ => error_from err ("Can't read file " +:+ err_message err)
                          | _ => err
                          end))).
Proof. settles_auto. Qed.

#[local] Opaque parse_range read_options with_lock.

(** The run of [get] on a document whose lock is free, with a range
    header: the header decides [chunksize] and [contentRange], the test
    [start && end] decides what is read. *)
Lemma get_range_run (options : Options.t) (searchIndex : bool) (w : World)
    (path contentType content range : string) :
  mapUrlToFile (resourceMapper this) (disk w) (UrlObject options) None false searchIndex
  = Ok (path, contentType) ->
  node_at (disk w) (segments path) = Some (File content) ->
  Options.includeBody options = true ->
  Options.range options = Some range ->
  range <> "" ->
  segments path ∉ held w ->
  exists w',
    get env this options searchIndex w
    = (match parse_range range (Z.of_nat (String.length content)) with
       | (chunksize, contentRange, start, end_) =>
           match read_stream_bytes content (read_options (Some start) (Some end_)) with
           | Ok bytes =>
               Ok {| stream := BodyBytes bytes; contentType := contentType;
                     container := false; contentRange := Some contentRange;
                     chunksize := Some chunksize |}
           | Err e => Err e
           end
       end, w')
    /\ disk w' = disk w /\ held w' = held w.
Proof.
  intros Hmap Hnode Hbody Hrange Hne Hfree.
  unfold get, bind at 1, try_catch at 1, bind at 1, call_mapUrlToFile, bind, emit,
    get_disk, lift. simpl. rewrite Hmap. simpl.
  unfold stat, try_catch, fs_stat, bind, emit, get_disk. simpl.
  rewrite Hnode. simpl. rewrite Hbody, Hrange. simpl.
  rewrite (proj2 (String.eqb_neq _ _) Hne). simpl.
  unfold statSync_size, bind, fs_stat, bind, emit, get_disk. simpl.
  rewrite Hnode. simpl.
  destruct (parse_range range (Z.of_nat (String.length content)))
    as [[[chunksize contentRange] start] end_].
  unfold ret at 1.
  match goal with
  | |- context [with_lock ?p ?o ?b ?w1] =>
      destruct (with_lock_covers_body p o b w1) as (_ & Hlock & _);
        [exact Hfree | intros _; simpl; rewrite Hnode; eauto |]
  end.
  rewrite Hlock
    by exact (settles_read_stream path contentType (read_options (Some start) (Some end_))
                (Some contentRange) (Some chunksize) _).
  clear Hlock. eexists. split; [| split].
  - f_equal.
    unfold try_catch, bind, createReadStream, bind, emit, get_disk. simpl.
    unfold read_stream_bytes.
    destruct (read_options (Some start) (Some end_)) as [[s e]|]; simpl.
    + destruct ((0 <=? s) && (s <=? e)); simpl; [| reflexivity].
      rewrite Hnode. reflexivity.
    + rewrite Hnode. reflexivity.
  - simpl.
    unfold try_catch, bind, createReadStream, bind, emit, get_disk. simpl.
    destruct (read_options (Some start) (Some end_)) as [[s e]|]; simpl.
    + destruct ((0 <=? s) && (s <=? e)); simpl; [| reflexivity].
      rewrite Hnode. reflexivity.
    + rewrite Hnode. reflexivity.
  - simpl.
    unfold try_catch, bind, createReadStream, bind, emit, get_disk. simpl.
    assert (Hset : ({[segments path]} ∪ held w) ∖ {[segments path]} = held w).
    { apply set_eq. intros k.
      rewrite elem_of_difference, elem_of_union, !elem_of_singleton.
      split; [tauto |]. intros Hk. split; [tauto |]. intros ->. contradiction. }
    destruct (read_options (Some start) (Some end_)) as [[s e]|]; simpl.
    + destruct ((0 <=? s) && (s <=? e)); simpl; [| exact Hset].
      rewrite Hnode. exact Hset.
    + rewrite Hnode. exact Hset.
Qed.

#[local] Transparent parse_range read_options with_lock.

End RangeRead.

Section RangeReadCases.

Variable env : Env.
Variable this : LDP.
Variable options : Options.t.
Variable searchIndex : bool.
Variable w : World.
Variables path mimeType content : string.

Hypothesis Hmap :
  mapUrlToFile (resourceMapper this) (disk w) (UrlObject options) None false searchIndex
  = Ok (path, mimeType).
Hypothesis Hnode : node_at (disk w) (segments path) = Some (File content).
Hypothesis Hbody : Options.includeBody options = true.
Hypothesis Hfree : segments path ∉ held w.

Local Abbreviation total := (String.length content).

Lemma range_header_not_empty (rest : string) : "bytes=" +:+ rest <> "".
Proof. discriminate. Qed.

(** Where C2 holds: a range [bytes=start-end] that starts after offset
    0 is served exactly, and so is [bytes=start-] up to the last byte. *)
Lemma get_range_positive_start (start end_ : nat) :
  Options.range options
  = Some ("bytes=" +:+ Js.show_nat start +:+ "-" +:+ Js.show_nat end_) ->
  (1 <= start <= end_)%nat ->
  exists w',
    get env this options searchIndex w
    = (Ok {| stream := BodyBytes (substring start (end_ - start + 1) content);
             contentType := mimeType; container := false;
             contentRange :=
               Some ("bytes " +:+ Js.show_nat start +:+ "-" +:+ Js.show_nat end_
                     +:+ "/" +:+ Js.show_nat total);
             chunksize := Some (Js.Num (Z.of_nat (end_ - start + 1))) |}, w')
    /\ disk w' = disk w /\ held w' = held w.
Proof.
  intros Hrange Horder.
  destruct (get_range_run env this options searchIndex w path mimeType content _
              Hmap Hnode Hbody Hrange (range_header_not_empty _) Hfree)
    as (w' & Hrun & Hdisk & Hheld).
  exists w'. splits; [| exact Hdisk | exact Hheld].
  rewrite Hrun. rewrite parse_range_closed. f_equal.
  unfold read_options, Js.truthy.
  rewrite (proj2 (Z.eqb_neq (Z.of_nat start) 0)) by lia.
  rewrite (proj2 (Z.eqb_neq (Z.of_nat end_) 0)) by lia.
  cbn [negb andb read_stream_bytes].
  rewrite (proj2 (Z.leb_le 0 (Z.of_nat start))) by lia.
  rewrite (proj2 (Z.leb_le (Z.of_nat start) (Z.of_nat end_))) by lia.
  cbn [andb]. rewrite Nat2Z.id, show_Z_of_nat.
  replace (Z.to_nat (Z.of_nat end_ - Z.of_nat start + 1)) with (end_ - start + 1)%nat by lia.
  replace (Z.of_nat end_ - Z.of_nat start + 1) with (Z.of_nat (end_ - start + 1)) by lia.
  reflexivity.
Qed.

Lemma get_range_positive_start_open (start : nat) :
  Options.range options = Some ("bytes=" +:+ Js.show_nat start +:+ "-") ->
  (1 <= start < total)%nat ->
  exists w',
    get env this options searchIndex w
    = (Ok {| stream := BodyBytes (substring start (total - start) content);
             contentType := mimeType; container := false;
             contentRange :=
               Some ("bytes " +:+ Js.show_nat start +:+ "-" +:+ Js.show_nat (total - 1)
                     +:+ "/" +:+ Js.show_nat total);
             chunksize := Some (Js.Num (Z.of_nat (total - start))) |}, w')
    /\ disk w' = disk w /\ held w' = held w.
Proof.
  intros Hrange Horder.
  destruct (get_range_run env this options searchIndex w path mimeType content _
              Hmap Hnode Hbody Hrange (range_header_not_empty _) Hfree)
    as (w' & Hrun & Hdisk & Hheld).
  exists w'. splits; [| exact Hdisk | exact Hheld].
  rewrite Hrun. rewrite parse_range_open. f_equal.
  unfold read_options, Js.truthy.
  rewrite (proj2 (Z.eqb_neq (Z.of_nat start) 0)) by lia.
  rewrite (proj2 (Z.eqb_neq (Z.of_nat total - 1) 0)) by lia.
  cbn [negb andb read_stream_bytes].
  rewrite (proj2 (Z.leb_le 0 (Z.of_nat start))) by lia.
  rewrite (proj2 (Z.leb_le (Z.of_nat start) (Z.of_nat total - 1))) by lia.
  cbn [andb]. rewrite Nat2Z.id, show_Z_of_nat.
  replace (Z.of_nat total - 1) with (Z.of_nat (total - 1)) by lia.
  rewrite show_Z_of_nat.
  replace (Z.to_nat (Z.of_nat (total - 1) - Z.of_nat start + 1)) with (total - start)%nat
    by lia.
  replace (Z.of_nat (total - 1) - Z.of_nat start + 1) with (Z.of_nat (total - start)) by lia.
  reflexivity.
Qed.

(** Where it fails: for every range [bytes=0-end] the stream yields the
    whole file, whatever [end] is, next to a [chunksize] of [end + 1]. *)
Lemma get_range_zero_start (end_ : nat) :
  Options.range options = Some ("bytes=0-" +:+ Js.show_nat end_) ->
  exists w',
    get env this options searchIndex w
    = (Ok {| stream := BodyBytes content;
             contentType := mimeType; container := false;
             contentRange :=
               Some ("bytes 0-" +:+ Js.show_nat end_ +:+ "/" +:+ Js.show_nat total);
             chunksize := Some (Js.Num (Z.of_nat end_ + 1)) |}, w')
    /\ disk w' = disk w /\ held w' = held w.
Proof.
  intros Hrange.
  change ("bytes=0-" +:+ Js.show_nat end_)
    with ("bytes=" +:+ Js.show_nat 0 +:+ "-" +:+ Js.show_nat end_) in Hrange.
  destruct (get_range_run env this options searchIndex w path mimeType content _
              Hmap Hnode Hbody Hrange (range_header_not_empty _) Hfree)
    as (w' & Hrun & Hdisk & Hheld).
  exists w'. splits; [| exact Hdisk | exact Hheld].
  rewrite Hrun. rewrite parse_range_closed. f_equal.
  unfold read_options, Js.truthy. cbn [Z.of_nat Z.eqb negb andb read_stream_bytes].
  rewrite show_Z_of_nat. rewrite Z.sub_0_r. reflexivity.
Qed.

End RangeReadCases.

(** ** [delete] on a directory *)

(** [delete] hands a target that [stat] reports as a directory to
    [deleteContainer], so what holds of that holds of every delete of a
    directory. *)
Lemma delete_of_directory (env : Env) (this : LDP) (url path contentType : string)
    (w : World) :
  mapUrlToFile (resourceMapper this) (disk w) (UrlString url) None false true
  = Ok (path, contentType) ->
  node_at (disk w) (segments path) = Some Dir ->
  delete_ env this url w
  = deleteContainer env this path
      (mkWorld (disk w) (held w) (clock w) (log w ++ [EvMapUrlToFile; EvStat path])).
Proof.
  intros Hmap Hdir.
  unfold delete_, bind at 1, try_catch at 1, bind at 1, call_mapUrlToFile, bind, emit,
    get_disk, lift. simpl. rewrite Hmap. simpl.
  unfold stat, try_catch, fs_stat, bind, emit, get_disk. simpl.
  rewrite Hdir. simpl. rewrite <- app_assoc. reflexivity.
Qed.

(** * More of the class *)

(** ** [put], stage by stage *)

(** The write below the lock, by what is at the path. *)
Lemma put_write_run (env : Env) (stream path : string) (w : World) :
  put_write env stream path w
  = let w1 := mkWorld (disk w) (held w) (clock w) (log w ++ [EvCreateWriteStream path]) in
    match node_at (disk w) (segments path),
          node_at (disk w) (removelast (segments path)),
          write_fault env (segments path) with
    | Some Dir, _, _ => (Err (HttpError 500 "Error writing data"), w1)
    | _, Some Dir, None =>
        (Ok tt, mkWorld (<[segments path := File stream]> (disk w)) (held w) (clock w)
                  (log w1))
    | _, Some Dir, Some n =>
        (Err (HttpError 500 "Error writing data"),
         mkWorld (<[segments path := File (substring 0 n stream)]> (disk w)) (held w)
           (clock w) (log w1))
    | _, _, _ => (Err (HttpError 500 "Error writing data"), w1)
    end.
Proof.
  unfold put_write, try_catch, pipe_to_file, bind, emit, get_disk, set_disk. simpl.
  destruct (node_at (disk w) (segments path)) as [[c|]|];
    destruct (node_at (disk w) (removelast (segments path))) as [[c'|]|];
    destruct (write_fault env (segments path)) as [n|]; reflexivity.
Qed.

(** The same for a source that stops without ending: the promise is
    settled only when the file cannot be opened or the device fails
    before the data that arrive are written. *)
Lemma put_write_broken_run (env : Env) (data path : string) (w : World) :
  put_write env (Breaks data) path w
  = let w1 := mkWorld (disk w) (held w) (clock w) (log w ++ [EvCreateWriteStream path]) in
    match node_at (disk w) (segments path),
          node_at (disk w) (removelast (segments path)) with
    | Some Dir, _ => (Err (HttpError 500 "Error writing data"), w1)
    | _, Some Dir =>
        match write_fault env (segments path) with
        | Some n =>
            if (n <? String.length data)%nat
            then (Err (HttpError 500 "Error writing data"),
                  mkWorld (<[segments path := File (substring 0 n data)]> (disk w)) (held w)
                    (clock w) (log w1))
            else (Pending,
                  mkWorld (<[segments path := File data]> (disk w)) (held w) (clock w)
                    (log w1))
        | None =>
            (Pending,
             mkWorld (<[segments path := File data]> (disk w)) (held w) (clock w) (log w1))
        end
    | _, _ => (Err (HttpError 500 "Error writing data"), w1)
    end.
Proof.
  unfold put_write, try_catch, pipe_to_file, bind, emit, get_disk, set_disk. simpl.
  destruct (node_at (disk w) (segments path)) as [[c|]|];
    destruct (node_at (disk w) (removelast (segments path))) as [[c'|]|];
    try reflexivity;
    (destruct (write_fault env (segments path)) as [n|]; [| reflexivity];
     destruct (n <? String.length data)%nat; reflexivity).
Qed.

(** A directory at the path makes the write fail whatever the source
    does. *)
Lemma put_write_onto_directory (env : Env) (stream : Readable) (path : string) (w : World) :
  node_at (disk w) (segments path) = Some Dir ->
  put_write env stream path w
  = (Err (HttpError 500 "Error writing data"),
     mkWorld (disk w) (held w) (clock w) (log w ++ [EvCreateWriteStream path])).
Proof.
  intros Hdir. destruct stream as [data|data].
  - rewrite put_write_run. simpl. rewrite Hdir. reflexivity.
  - rewrite put_write_broken_run. simpl. rewrite Hdir. reflexivity.
Qed.

Lemma make_dir_keeps (k0 k : list string) (n : Node) (d : gmap (list string) Node) :
  d !! k = Some n -> make_dir k0 d !! k = Some n.
Proof.
  intros Hk. unfold make_dir. destruct (d !! k0) eqn:Hk0; [exact Hk |].
  rewrite lookup_insert_ne; [exact Hk |]. intros ->. congruence.
Qed.

(** [mkdirp] only adds directories. *)
Lemma disk_mkdirp_keeps (d d1 : gmap (list string) Node) (dir : string)
    (k : list string) (n : Node) :
  disk_mkdirp d dir = Ok d1 -> d !! k = Some n -> d1 !! k = Some n.
Proof.
  unfold disk_mkdirp. destruct (existsb _ _); [discriminate |].
  intros H Hk. injection H as <-.
  induction (ancestors_from [] (segments dir)) as [|k0 ks IH]; simpl; [exact Hk |].
  apply make_dir_keeps, IH.
Qed.

Lemma disk_mkdirp_node (d d1 : gmap (list string) Node) (dir : string)
    (k : list string) (n : Node) :
  disk_mkdirp d dir = Ok d1 -> node_at d k = Some n -> node_at d1 k = Some n.
Proof.
  intros Hmk. destruct k as [|x k]; [trivial |]. simpl.
  apply (disk_mkdirp_keeps d d1 dir (x :: k) n Hmk).
Qed.

Lemma removelast_ne {A} (l : list A) : l <> [] -> removelast l <> l.
Proof.
  induction l as [|x l IH]; [contradiction |].
  destruct l as [|y l]; [discriminate |].
  intros _ H. injection H as H. revert H. apply IH. discriminate.
Qed.

Lemma put_success_inv (env : Env) (this : LDP) (url : UrlArg)
    (stream : string) (contentType : option string) (w w' : World) :
  put env this url stream contentType w = (Ok tt, w') ->
  exists path contentType',
    mapUrlToFile (resourceMapper this) (disk w) url contentType true true
    = Ok (path, contentType')
    /\ content_at (disk w') path = Some stream
    /\ node_at (disk w') (removelast (segments path)) = Some Dir
    /\ (segments path ∉ held w)
    /\ held w' = held w.
Proof.
  intros Hput. rewrite put_stages in Hput.
  destruct (target_of url) as [target|]; [| discriminate].
  destruct (Js.endsWith target "/"); [discriminate |].
  destruct (negb (truthy_string contentType)); [discriminate |].
  destruct (overQuota env (disk w) _ _) as [[|]|e]; try discriminate.
  destruct (mapUrlToFile _ _ _ _ _ _) as [[path ct]|e] eqn:Hmap; [| discriminate].
  destruct (disk_mkdirp (disk w) (path_dirname env path)) as [d1|e] eqn:Hmk;
    [| discriminate].
  exists path, ct. split; [reflexivity |].
  destruct (decide (segments path ∈ held w)) as [Hheld | Hfree].
  { rewrite with_lock_timeout in Hput by (simpl; auto; discriminate). discriminate. }
  destruct (with_lock_covers_body path {| retries := 10; realpath := false |}
              (put_write env stream path) (put_before_lock env w path d1))
    as (_ & Hlock & _); [exact Hfree | discriminate |].
  rewrite Hlock in Hput by settled_here.
  clear Hlock. rewrite put_write_run in Hput. simpl in Hput.
  destruct (node_at d1 (segments path)) as [[c|]|] eqn:Hnode;
    destruct (node_at d1 (removelast (segments path))) as [[c'|]|] eqn:Hparent;
    destruct (write_fault env (segments path)) as [n|]; try discriminate;
    injection Hput as <-; simpl.
  - assert (Hk : segments path <> []).
    { intros Hk. rewrite Hk in Hnode. discriminate. }
    splits; [| | exact Hfree | apply lock_table_restored, Hfree].
    + unfold content_at, node_at. destruct (segments path) as [|x k]; [contradiction |].
      rewrite lookup_insert_eq. reflexivity.
    + pose proof (removelast_ne _ Hk) as Hne.
      destruct (removelast (segments path)) as [|y k'] eqn:Hrl; [reflexivity |].
      simpl in *. rewrite lookup_insert_ne; [exact Hparent |].
      intros Heq. apply Hne. symmetry. exact Heq.
  - assert (Hk : segments path <> []).
    { intros Hk. rewrite Hk in Hnode. discriminate. }
    splits; [| | exact Hfree | apply lock_table_restored, Hfree].
    + unfold content_at, node_at. destruct (segments path) as [|x k]; [contradiction |].
      rewrite lookup_insert_eq. reflexivity.
    + pose proof (removelast_ne _ Hk) as Hne.
      destruct (removelast (segments path)) as [|y k'] eqn:Hrl; [reflexivity |].
      simpl in *. rewrite lookup_insert_ne; [exact Hparent |].
      intros Heq. apply Hne. symmetry. exact Heq.
Qed.

(** X1. A [put] that succeeds has written all of the stream to the file
    the mapper names for the target (replacing what was there), below a
    directory that now exists; the lock on that file was free and is
    free again. *)
Theorem put_success_writes_whole_stream (env : Env) (this : LDP) (url : UrlArg)
    (stream : string) (contentType : option string) (w w' : World) :
  put env this url stream contentType w = (Ok tt, w') ->
  exists path contentType',
    mapUrlToFile (resourceMapper this) (disk w) url contentType true true
    = Ok (path, contentType')
    /\ content_at (disk w') path = Some stream
    /\ node_at (disk w') (removelast (segments path)) = Some Dir
    /\ (segments path ∉ held w)
    /\ held w' = held w.
Proof. apply put_success_inv. Qed.

Lemma put_success_writes_whole_stream_witness :
  let w := Demo.world Demo.disk1 in
  let w' := (put Demo.quiet Demo.ldp (UrlString "/c/sub/new.ttl") "hello"
               (Some "text/turtle") w).2 in
  exists path contentType',
    mapUrlToFile (resourceMapper Demo.ldp) (disk w) (UrlString "/c/sub/new.ttl")
      (Some "text/turtle") true true = Ok (path, contentType')
    /\ content_at (disk w') path = Some "hello"
    /\ node_at (disk w') (removelast (segments path)) = Some Dir
    /\ (segments path ∉ held w)
    /\ held w' = held w.
Proof.
  intros w w'.
  apply (put_success_writes_whole_stream Demo.quiet Demo.ldp (UrlString "/c/sub/new.ttl")
           "hello" (Some "text/turtle") w w').
  vm_compute. reflexivity.
Defined.

(** X4. A [put] to a document identifier without a content type
    (undefined or empty) fails with status 415 in the world it started
    from: the quota oracle is not asked and nothing is mapped, created,
    locked or written. *)
Theorem put_without_content_type (env : Env) (this : LDP) (url : UrlArg)
    (stream : Readable) (contentType : option string) (w : World) (target : string) :
  target_of url = Some target ->
  Js.endsWith target "/" = false ->
  truthy_string contentType = false ->
  put env this url stream contentType w
  = (Err (HttpError 415
            "PUT request require a valid content type via the Content-Type header"), w).
Proof.
  intros Htarget Hends Hct. rewrite put_stages, Htarget, Hends, Hct. reflexivity.
Qed.

Lemma put_without_content_type_witness :
  put Demo.quiet Demo.ldp (UrlString "/c/new.ttl") "hello" (Some "") (Demo.world Demo.disk1)
  = (Err (HttpError 415
            "PUT request require a valid content type via the Content-Type header"),
     Demo.world Demo.disk1).
Proof.
  apply (put_without_content_type Demo.quiet Demo.ldp (UrlString "/c/new.ttl") "hello"
           (Some "") (Demo.world Demo.disk1) "/c/new.ttl"); reflexivity.
Defined.

Section PutAtTheLock.

Variable env : Env.
Variable this : LDP.
Variable url : UrlArg.
Variable stream : Readable.
Variable mimeType : option string.
Variable w : World.
Variables target path mimeType' : string.
Variable d1 : gmap (list string) Node.

Hypothesis Htarget : target_of url = Some target.
Hypothesis Hends : Js.endsWith target "/" = false.
Hypothesis Htype : truthy_string mimeType = true.
Hypothesis Hquota :
  overQuota env (disk w) (rootPath (resourceMapper this)) (serverUri this) = Ok false.
Hypothesis Hmap :
  mapUrlToFile (resourceMapper this) (disk w) url mimeType true true = Ok (path, mimeType').
Hypothesis Hmkdirp : disk_mkdirp (disk w) (path_dirname env path) = Ok d1.

Lemma put_at_the_lock :
  put env this url stream mimeType w
  = with_lock path {| retries := 10; realpath := false |} (put_write env stream path)
      (put_before_lock env w path d1).
Proof.
  rewrite put_stages, Htarget, Hends, Htype, Hquota, Hmap, Hmkdirp. reflexivity.
Qed.

(** X5. While someone else holds the lock on the target file, a [put]
    that got as far as the lock gives up with the lock manager's own
    error (it carries no HTTP status): no write stream is opened, every
    file has the content it had, and the lock table is untouched, the
    other holder's entry included. *)
Theorem put_locked_target_times_out :
  segments path ∈ held w ->
  exists w',
    put env this url stream mimeType w = (Err (SysError ELOCKED), w')
    /\ err_status (SysError ELOCKED) = None
    /\ held w' = held w
    /\ disk w' = d1
    /\ (forall p, content_at (disk w') p = content_at (disk w) p)
    /\ log w' = log w ++ [EvQuota; EvMapUrlToFile; EvMkdirp (path_dirname env path);
                          EvLock path].
Proof.
  intros Hheld. rewrite put_at_the_lock.
  rewrite with_lock_timeout by (simpl; auto; discriminate).
  eexists. splits; try reflexivity.
  - intros p. simpl. eapply disk_mkdirp_content, Hmkdirp.
  - simpl. rewrite <- app_assoc. reflexivity.
Qed.

(** X6. A [put] whose target file path is an existing directory fails
    with status 500 "Error writing data" once the write stream is
    opened under the lock: the directory and every file are as before,
    and the lock is released. *)
Theorem put_onto_directory_fails :
  node_at (disk w) (segments path) = Some Dir ->
  segments path ∉ held w ->
  exists w',
    put env this url stream mimeType w = (Err (HttpError 500 "Error writing data"), w')
    /\ held w' = held w
    /\ disk w' = d1
    /\ node_at (disk w') (segments path) = Some Dir
    /\ (forall p, content_at (disk w') p = content_at (disk w) p).
Proof.
  intros Hdir Hfree. rewrite put_at_the_lock.
  assert (Hdir1 : node_at d1 (segments path) = Some Dir)
    by (eapply disk_mkdirp_node; eauto).
  destruct (with_lock_covers_body path {| retries := 10; realpath := false |}
              (put_write env stream path) (put_before_lock env w path d1))
    as (_ & Hlock & _); [exact Hfree | discriminate |].
  rewrite Hlock by (rewrite put_write_onto_directory by exact Hdir1; discriminate).
  clear Hlock. rewrite put_write_onto_directory by exact Hdir1. simpl.
  eexists. splits; try reflexivity.
  - simpl. apply lock_table_restored, Hfree.
  - simpl. exact Hdir1.
  - intros p. simpl. eapply disk_mkdirp_content, Hmkdirp.
Qed.

(** X28. What [put] does not handle: the source stops without ending
    (it emits ['error'], or the sender stalls) and the device has not
    failed on what arrived.  The promise of [put] then stays pending
    for ever: nothing is thrown, the [finally] clause is not reached,
    the lock on the target stays in the table without ever being
    released, and the file holds what arrived. *)
Theorem put_source_error_keeps_lock (data : string) :
  stream = Breaks data ->
  node_at d1 (segments path) <> Some Dir ->
  node_at d1 (removelast (segments path)) = Some Dir ->
  (forall n, write_fault env (segments path) = Some n -> (String.length data <= n)%nat) ->
  segments path ∉ held w ->
  exists w',
    put env this url stream mimeType w = (Pending, w')
    /\ held w' = {[segments path]} ∪ held w
    /\ (segments path ∈ held w')
    /\ content_at (disk w') path = Some data
    /\ log w' = log w ++ [EvQuota; EvMapUrlToFile; EvMkdirp (path_dirname env path);
                          EvLock path; EvCreateWriteStream path].
Proof.
  intros Hstream Hnode Hparent Hdevice Hfree. rewrite put_at_the_lock, Hstream.
  assert (Hwrite : forall w1,
             disk w1 = d1 ->
             put_write env (Breaks data) path w1
             = (Pending,
                mkWorld (<[segments path := File data]> d1) (held w1) (clock w1)
                  (log w1 ++ [EvCreateWriteStream path]))).
  { intros w1 Hd1. rewrite put_write_broken_run. simpl. rewrite Hd1, Hparent.
    assert (Hfault : match write_fault env (segments path) with
                     | Some n => (n <? String.length data)%nat = false
                     | None => True
                     end).
    { destruct (write_fault env (segments path)) as [n|] eqn:Hn; [| exact I].
      apply Nat.ltb_ge, Hdevice. reflexivity. }
    destruct (node_at d1 (segments path)) as [[c|]|];
      [| contradiction |];
      (destruct (write_fault env (segments path)) as [n|]; [rewrite Hfault |]; reflexivity). }
  destruct (with_lock_covers_body path {| retries := 10; realpath := false |}
              (put_write env (Breaks data) path) (put_before_lock env w path d1))
    as (_ & _ & Hlock); [exact Hfree | discriminate |].
  rewrite Hlock by (rewrite Hwrite by reflexivity; reflexivity).
  rewrite Hwrite by reflexivity. simpl.
  eexists. splits; [reflexivity | reflexivity | | |].
  - simpl. set_solver.
  - simpl. unfold content_at, node_at.
    destruct (segments path) as [|x k] eqn:Hk; [contradiction Hnode; reflexivity |].
    rewrite lookup_insert_eq. reflexivity.
  - simpl. rewrite <- !app_assoc. reflexivity.
Qed.

End PutAtTheLock.

Lemma put_locked_target_times_out_witness :
  let k := ["data"; "c"; "foo.ttl"] in
  let w := mkWorld Demo.disk1 {[k]} 0 [] in
  exists w',
    put Demo.quiet Demo.ldp (UrlString "/c/foo.ttl") "new content" (Some "text/turtle") w
    = (Err (SysError ELOCKED), w')
    /\ err_status (SysError ELOCKED) = None
    /\ held w' = held w
    /\ disk w' = Demo.disk1
    /\ (forall p, content_at (disk w') p = content_at (disk w) p)
    /\ log w' = log w ++ [EvQuota; EvMapUrlToFile;
                          EvMkdirp (path_dirname Demo.quiet "/data/c/foo.ttl");
                          EvLock "/data/c/foo.ttl"].
Proof.
  intros k w.
  apply (put_locked_target_times_out Demo.quiet Demo.ldp (UrlString "/c/foo.ttl")
           "new content" (Some "text/turtle") w "/c/foo.ttl" "/data/c/foo.ttl"
           "text/turtle" Demo.disk1);
    first [reflexivity | apply elem_of_singleton; reflexivity].
Defined.

Lemma put_source_error_keeps_lock_witness :
  let w := Demo.world Demo.disk1 in
  exists w',
    put Demo.quiet Demo.ldp (UrlString "/c/foo.ttl") (Breaks "new") (Some "text/turtle") w
    = (Pending, w')
    /\ held w' = {[segments "/data/c/foo.ttl"]} ∪ held w
    /\ (segments "/data/c/foo.ttl" ∈ held w')
    /\ content_at (disk w') "/data/c/foo.ttl" = Some "new"
    /\ log w' = log w ++ [EvQuota; EvMapUrlToFile;
                          EvMkdirp (path_dirname Demo.quiet "/data/c/foo.ttl");
                          EvLock "/data/c/foo.ttl"; EvCreateWriteStream "/data/c/foo.ttl"].
Proof.
  intros w.
  apply (put_source_error_keeps_lock Demo.quiet Demo.ldp (UrlString "/c/foo.ttl")
           (Breaks "new") (Some "text/turtle") w "/c/foo.ttl" "/data/c/foo.ttl"
           "text/turtle" Demo.disk1);
    first [reflexivity | discriminate | apply not_elem_of_empty].
Defined.

Lemma put_onto_directory_fails_witness :
  let w := Demo.world Demo.disk1 in
  exists w',
    put Demo.quiet Demo.ldp (UrlString "/c") "new content" (Some "text/turtle") w
    = (Err (HttpError 500 "Error writing data"), w')
    /\ held w' = held w
    /\ disk w' = Demo.disk1
    /\ node_at (disk w') (segments "/data/c") = Some Dir
    /\ (forall p, content_at (disk w') p = content_at (disk w) p).
Proof.
  intros w.
  apply (put_onto_directory_fails Demo.quiet Demo.ldp (UrlString "/c") "new content"
           (Some "text/turtle") w "/c" "/data/c" "text/turtle" Demo.disk1);
    first [reflexivity | apply not_elem_of_empty].
Defined.

(** ** What [put] leaves in place *)

Lemma put_write_disk (env : Env) (stream : Readable) (path : string) (w w' : World)
    (r : Outcome unit) :
  put_write env stream path w = (r, w') ->
  disk w' = disk w
  \/ (node_at (disk w) (segments path) <> Some Dir
      /\ exists content, disk w' = <[segments path := File content]> (disk w)).
Proof.
  destruct stream as [data|data].
  - rewrite put_write_run. simpl.
    destruct (node_at (disk w) (segments path)) as [[c|]|] eqn:Hnode;
      destruct (node_at (disk w) (removelast (segments path))) as [[c'|]|];
      destruct (write_fault env (segments path)) as [n|];
      intros H; injection H as <- <-; simpl; auto;
      right; (split; [discriminate | eauto]).
  - rewrite put_write_broken_run. simpl.
    destruct (node_at (disk w) (segments path)) as [[c|]|] eqn:Hnode;
      destruct (node_at (disk w) (removelast (segments path))) as [[c'|]|];
      try (intros H; injection H as <- <-; simpl; auto; fail);
      (destruct (write_fault env (segments path)) as [n|];
       [destruct (n <? String.length data)%nat |]);
      intros H; injection H as <- <-; simpl;
      right; (split; [discriminate | eauto]).
Qed.

Lemma insert_file_entries_kept (d : gmap (list string) Node) (k : list string)
    (content : string) :
  node_at d k <> Some Dir -> entries_kept d (<[k := File content]> d).
Proof.
  intros Hnode k' n Hk'. destruct (decide (k = k')) as [<- | Hne].
  - rewrite lookup_insert_eq. destruct n as [c|]; [eauto |].
    exfalso. apply Hnode. destruct k; [reflexivity | exact Hk'].
  - rewrite lookup_insert_ne by exact Hne. destruct n; eauto.
Qed.

Lemma entries_kept_refl (d : gmap (list string) Node) : entries_kept d d.
Proof. intros k n Hk. destruct n; eauto. Qed.

Lemma entries_kept_trans (a b c : gmap (list string) Node) :
  entries_kept a b -> entries_kept b c -> entries_kept a c.
Proof.
  intros Hab Hbc k n Hk. specialize (Hab k n Hk). destruct n as [content|].
  - destruct Hab as [c1 H1]. apply (Hbc k (File c1) H1).
  - apply (Hbc k Dir Hab).
Qed.

(** X2. Whatever its outcome, [put] removes no entry of the disk and
    changes the kind of none (a directory stays a directory, a file a
    file), and every entry other than the one at the target file path
    is exactly as it was. *)
Theorem put_keeps_the_other_entries (env : Env) (this : LDP) (url : UrlArg)
    (stream : Readable) (contentType : option string) (w : World) :
  let w' := (put env this url stream contentType w).2 in
  entries_kept (disk w) (disk w')
  /\ forall k n, disk w !! k = Some n ->
       disk w' !! k = Some n
       \/ exists path contentType',
            mapUrlToFile (resourceMapper this) (disk w) url contentType true true
            = Ok (path, contentType')
            /\ k = segments path.
Proof.
  intros w'. unfold w'. clear w'. rewrite put_stages.
  destruct (target_of url) as [target|]; [| split; [apply entries_kept_refl | auto]].
  destruct (Js.endsWith target "/"); [split; [apply entries_kept_refl | auto] |].
  destruct (negb (truthy_string contentType)); [split; [apply entries_kept_refl | auto] |].
  destruct (overQuota env (disk w) _ _) as [[|]|e];
    try (split; [apply entries_kept_refl | auto]).
  destruct (mapUrlToFile _ _ _ _ _ _) as [[path ct]|e] eqn:Hmap;
    [| split; [apply entries_kept_refl | auto]].
  destruct (disk_mkdirp (disk w) (path_dirname env path)) as [d1|e] eqn:Hmk;
    [| split; [apply entries_kept_refl | auto]].
  assert (Hd1 : entries_kept (disk w) d1).
  { intros k n Hk. apply (disk_mkdirp_keeps _ _ _ _ _ Hmk) in Hk. destruct n; eauto. }
  destruct (with_lock path {| retries := 10; realpath := false |}
              (put_write env stream path) (put_before_lock env w path d1))
    as [r w'] eqn:Hrun.
  apply with_lock_inv in Hrun as [(e & _ & ->) | (w2 & Hrun & Hdisk)]; simpl.
  { split; [exact Hd1 |]. intros k n Hk. left. eapply disk_mkdirp_keeps; eauto. }
  rewrite Hdisk. apply put_write_disk in Hrun. simpl in Hrun.
  destruct Hrun as [-> | (Hnode & content & ->)].
  { split; [exact Hd1 |]. intros k n Hk. left. eapply disk_mkdirp_keeps; eauto. }
  split.
  - eapply entries_kept_trans; [exact Hd1 |]. apply insert_file_entries_kept, Hnode.
  - intros k n Hk. destruct (decide (k = segments path)) as [-> | Hne].
    + right. eauto.
    + left. rewrite lookup_insert_ne by (intros H; apply Hne; symmetry; exact H).
      eapply disk_mkdirp_keeps; eauto.
Qed.

(** ** [get] and [exists] *)

(** How [get] opens: the mapper, then [stat]. *)
Lemma get_opening (env : Env) (this : LDP) (options : Options.t) (searchIndex : bool)
    (w : World) :
  match mapUrlToFile (resourceMapper this) (disk w) (UrlObject options) None false
          searchIndex with
  | Err _ =>
      get env this options searchIndex w
      = (Err (HttpError 404 "Can't find file requested: [object Object]"),
         mkWorld (disk w) (held w) (clock w) (log w ++ [EvMapUrlToFile]))
  | Ok (path, mimeType) =>
      match node_at (disk w) (segments path) with
      | None =>
          get env this options searchIndex w
          = (Err (HttpError 404 "Can't find file requested: [object Object]"),
             after_lookup w path)
      | Some n =>
          Options.includeBody options = false ->
          get env this options searchIndex w
          = (Ok {| stream :=
                     BodyStats (stats_of (directory_size env (disk w) (segments path)) n);
                   contentType := mimeType;
                   container := match n with Dir => true | File _ => false end;
                   contentRange := None; chunksize := None |},
             after_lookup w path)
      end
  end.
Proof.
  destruct (mapUrlToFile _ _ _ _ _ _) as [[path mimeType]|e] eqn:Hmap.
  - destruct (node_at (disk w) (segments path)) as [n|] eqn:Hnode; [intros Hbody |];
      unfold get, after_lookup, bind at 1, try_catch at 1, bind at 1, call_mapUrlToFile,
        bind, emit, get_disk, lift; simpl; rewrite Hmap; simpl;
      unfold stat, try_catch, fs_stat, bind, emit, get_disk; simpl;
      rewrite Hnode; simpl; rewrite <- ?app_assoc; [| reflexivity].
    rewrite Hbody. simpl. rewrite <- ?app_assoc. destruct n; reflexivity.
  - unfold get, bind at 1, try_catch at 1, bind at 1, call_mapUrlToFile,
      bind, emit, get_disk, lift. simpl. rewrite Hmap. reflexivity.
Qed.

Ltac looks_only :=
  repeat (apply List.Forall_cons;
          [first [left; reflexivity | right; eexists; reflexivity] |]);
  apply List.Forall_nil.

(** X7. A [get] that is not asked for the body (and so every [exists])
    only calls the mapper and [stat]: it takes no lock, opens no file
    and leaves disk and lock table alone.  It resolves exactly when the
    mapper names a file that is there, with the [Stats] of that file
    (for a directory, with the size the file system reports for it),
    the mapper's content type and [container] set exactly for a
    directory; otherwise it fails with status 404. *)
Theorem get_without_body_only_looks (env : Env) (this : LDP) (options : Options.t)
    (searchIndex : bool) (w : World) :
  Options.includeBody options = false ->
  let r := get env this options searchIndex w in
  disk r.2 = disk w /\ held r.2 = held w
  /\ (exists l, log r.2 = log w ++ l
                /\ Forall (fun ev => ev = EvMapUrlToFile \/ exists p, ev = EvStat p) l)
  /\ match mapUrlToFile (resourceMapper this) (disk w) (UrlObject options) None false
             searchIndex with
     | Ok (path, mimeType) =>
         match node_at (disk w) (segments path) with
         | Some n =>
             r.1 = Ok {| stream :=
                           BodyStats (stats_of (directory_size env (disk w) (segments path)) n);
                         contentType := mimeType;
                         container := match n with Dir => true | File _ => false end;
                         contentRange := None; chunksize := None |}
         | None => r.1 = Err (HttpError 404 "Can't find file requested: [object Object]")
         end
     | Err _ => r.1 = Err (HttpError 404 "Can't find file requested: [object Object]")
     end.
Proof.
  intros Hbody r. unfold r. clear r.
  pose proof (get_opening env this options searchIndex w) as Hopen.
  destruct (mapUrlToFile _ _ _ _ _ _) as [[path mimeType]|e].
  - destruct (node_at (disk w) (segments path)) as [n|].
    + rewrite (Hopen Hbody). simpl. splits; try reflexivity.
      exists [EvMapUrlToFile; EvStat path]. split; [reflexivity |].
      looks_only.
    + rewrite Hopen. simpl. splits; try reflexivity.
      exists [EvMapUrlToFile; EvStat path]. split; [reflexivity |].
      looks_only.
  - rewrite Hopen. simpl. splits; try reflexivity.
    exists [EvMapUrlToFile]. split; [reflexivity |]. looks_only.
Qed.

Lemma get_without_body_only_looks_witness :
  let w := Demo.world Demo.disk1 in
  let r := exists_ Demo.quiet Demo.ldp "localhost" "/c/" true w in
  disk r.2 = disk w /\ held r.2 = held w
  /\ r.1 = Ok {| stream := BodyStats {| isDirectory := true; size := 4096 |};
                 contentType := "text/turtle";
                 container := true; contentRange := None; chunksize := None |}.
Proof.
  intros w r.
  destruct (get_without_body_only_looks Demo.quiet Demo.ldp
              (Options.mk None "localhost" "/c/" false true None) true w eq_refl)
    as (Hdisk & Hheld & _ & Hresult).
  splits; [exact Hdisk | exact Hheld | exact Hresult].
Defined.

(** X8. Whatever it is asked for, [get] fails with status 404 when the
    mapper rejects the identifier or the file it names is not there; no
    lock is taken and the disk is untouched. *)
Theorem get_of_missing_resource (env : Env) (this : LDP) (options : Options.t)
    (searchIndex : bool) (w : World) :
  match mapUrlToFile (resourceMapper this) (disk w) (UrlObject options) None false
          searchIndex with
  | Ok (path, _) => node_at (disk w) (segments path) = None
  | Err _ => True
  end ->
  exists l,
    get env this options searchIndex w
    = (Err (HttpError 404 "Can't find file requested: [object Object]"),
       mkWorld (disk w) (held w) (clock w) (log w ++ l))
    /\ Forall (fun ev => ev = EvMapUrlToFile \/ exists p, ev = EvStat p) l.
Proof.
  intros Hmissing.
  pose proof (get_opening env this options searchIndex w) as Hopen.
  destruct (mapUrlToFile _ _ _ _ _ _) as [[path mimeType]|e].
  - rewrite Hmissing in Hopen. exists [EvMapUrlToFile; EvStat path].
    split; [exact Hopen |]. looks_only.
  - exists [EvMapUrlToFile]. split; [exact Hopen |]. looks_only.
Qed.

Lemma get_of_missing_resource_witness :
  exists l,
    get Demo.quiet Demo.ldp (Options.mk None "localhost" "/c/nothing.ttl" true true None)
      true (Demo.world Demo.disk1)
    = (Err (HttpError 404 "Can't find file requested: [object Object]"),
       mkWorld Demo.disk1 ∅ 0 ([] ++ l))
    /\ Forall (fun ev => ev = EvMapUrlToFile \/ exists p, ev = EvStat p) l.
Proof.
  apply (get_of_missing_resource Demo.quiet Demo.ldp
           (Options.mk None "localhost" "/c/nothing.ttl" true true None) true
           (Demo.world Demo.disk1)).
  vm_compute. exact I.
Defined.

Section GetDocument.

Variable env : Env.
Variable this : LDP.
Variable options : Options.t.
Variable searchIndex : bool.
Variable w : World.
Variables path mimeType content : string.

Hypothesis Hmap :
  mapUrlToFile (resourceMapper this) (disk w) (UrlObject options) None false searchIndex
  = Ok (path, mimeType).
Hypothesis Hnode : node_at (disk w) (segments path) = Some (File content).
Hypothesis Hbody : Options.includeBody options = true.

#[local] Opaque parse_range read_options with_lock.

Lemma get_document_run :
  truthy_string (Options.range options) = false ->
  segments path ∉ held w ->
  exists w',
    get env this options searchIndex w
    = (Ok {| stream := BodyBytes content; contentType := mimeType; container := false;
             contentRange := None; chunksize := None |}, w')
    /\ disk w' = disk w /\ held w' = held w.
Proof.
  intros Hrange Hfree.
  unfold get, bind at 1, try_catch at 1, bind at 1, call_mapUrlToFile, bind, emit,
    get_disk, lift. simpl. rewrite Hmap. simpl.
  unfold stat, try_catch, fs_stat, bind, emit, get_disk. simpl.
  rewrite Hnode. simpl. rewrite Hbody, Hrange. simpl.
  match goal with
  | |- context [with_lock ?p ?o ?b ?w1] =>
      destruct (with_lock_covers_body p o b w1) as (_ & Hlock & _);
        [exact Hfree | intros _; simpl; rewrite Hnode; eauto |]
  end.
  rewrite Hlock by exact (settles_read_stream path mimeType (read_options None None)
                            None None _).
  clear Hlock.
  unfold try_catch, bind, createReadStream, bind, emit, get_disk. simpl.
  rewrite Hnode. simpl. eexists. splits; [reflexivity | reflexivity |].
  simpl. apply lock_table_restored, Hfree.
Qed.

(** X9. Without a range header, [get] on a document whose lock is free
    yields the whole content with the mapper's content type, reports
    neither [contentRange] nor [chunksize], and leaves disk and lock
    table as they were. *)
Theorem get_document_whole :
  truthy_string (Options.range options) = false ->
  segments path ∉ held w ->
  exists w',
    get env this options searchIndex w
    = (Ok {| stream := BodyBytes content; contentType := mimeType; container := false;
             contentRange := None; chunksize := None |}, w')
    /\ disk w' = disk w /\ held w' = held w.
Proof. apply get_document_run. Qed.

(** X12. While someone else holds the lock on the file, [get] on a
    document (with or without a range header) fails with the lock
    manager's own error, not wrapped into an HTTP error; no read stream
    is opened and disk and lock table are as they were. *)
Theorem get_document_locked :
  segments path ∈ held w ->
  exists w',
    get env this options searchIndex w = (Err (SysError ELOCKED), w')
    /\ disk w' = disk w /\ held w' = held w
    /\ Forall (fun ev => forall p, ev <> EvCreateReadStream p)
         (drop (List.length (log w)) (log w')).
Proof.
  intros Hheld.
  unfold get, bind at 1, try_catch at 1, bind at 1, call_mapUrlToFile, bind, emit,
    get_disk, lift. simpl. rewrite Hmap. simpl.
  unfold stat, try_catch, fs_stat, bind, emit, get_disk. simpl.
  rewrite Hnode. simpl. rewrite Hbody. simpl.
  destruct (truthy_string (Options.range options)); simpl.
  - unfold statSync_size, bind, fs_stat, bind, emit, get_disk. simpl.
    rewrite Hnode. simpl.
    destruct (parse_range _ _) as [[[chunksize contentRange] start] end_].
    unfold ret at 1.
    rewrite with_lock_timeout by (simpl; rewrite ?Hnode; eauto).
    eexists. splits; try reflexivity. simpl.
    rewrite <- !app_assoc, drop_app_length. simpl.
    repeat (apply List.Forall_cons; [intros p; discriminate |]). apply List.Forall_nil.
  - rewrite with_lock_timeout by (simpl; rewrite ?Hnode; eauto).
    eexists. splits; try reflexivity. simpl.
    rewrite <- !app_assoc, drop_app_length. simpl.
    repeat (apply List.Forall_cons; [intros p; discriminate |]). apply List.Forall_nil.
Qed.

#[local] Transparent parse_range read_options with_lock.

(** X11. A range whose start lies after its end, [bytes=start-end] with
    [start > end >= 1], makes [get] fail with the [RangeError] of the
    stream constructor, which reaches the caller as it is (no HTTP
    status); the lock taken for the read is released. *)
Theorem get_range_reversed (start end_ : nat) :
  Options.range options
  = Some ("bytes=" +:+ Js.show_nat start +:+ "-" +:+ Js.show_nat end_) ->
  (1 <= end_ < start)%nat ->
  segments path ∉ held w ->
  exists w',
    get env this options searchIndex w = (Err RangeError, w')
    /\ err_status RangeError = None
    /\ disk w' = disk w /\ held w' = held w.
Proof.
  intros Hrange Horder Hfree.
  destruct (get_range_run env this options searchIndex w path mimeType content _
              Hmap Hnode Hbody Hrange (range_header_not_empty _) Hfree)
    as (w' & Hrun & Hdisk & Hheld).
  exists w'. splits; [| reflexivity | exact Hdisk | exact Hheld].
  rewrite Hrun. rewrite parse_range_closed. f_equal.
  unfold read_options, Js.truthy.
  rewrite (proj2 (Z.eqb_neq (Z.of_nat start) 0)) by lia.
  rewrite (proj2 (Z.eqb_neq (Z.of_nat end_) 0)) by lia.
  cbn [negb andb read_stream_bytes].
  rewrite (proj2 (Z.leb_gt (Z.of_nat start) (Z.of_nat end_))) by lia.
  rewrite andb_false_r. reflexivity.
Qed.

(** X10. A suffix range [bytes=-n], with [n] a safe integer, is not
    served as the last [n] bytes: the start does not parse, so the
    stream yields the whole file while [chunksize] is NaN and
    [contentRange] reads [bytes NaN-n/total]. *)
Theorem get_range_suffix_form (n : nat) :
  Js.is_safe_integer (Z.of_nat n) = true ->
  Options.range options = Some ("bytes=-" +:+ Js.show_nat n) ->
  segments path ∉ held w ->
  exists w',
    get env this options searchIndex w
    = (Ok {| stream := BodyBytes content; contentType := mimeType; container := false;
             contentRange :=
               Some ("bytes NaN-" +:+ Js.show_nat n +:+ "/"
                     +:+ Js.show_nat (String.length content));
             chunksize := Some Js.NaN |}, w')
    /\ disk w' = disk w /\ held w' = held w.
Proof.
  intros _ Hrange Hfree.
  change ("bytes=-" +:+ Js.show_nat n)
    with ("bytes=" +:+ ("" +:+ String "-" (Js.show_nat n))) in Hrange.
  destruct (get_range_run env this options searchIndex w path mimeType content _
              Hmap Hnode Hbody Hrange (range_header_not_empty _) Hfree)
    as (w' & Hrun & Hdisk & Hheld).
  exists w'. splits; [| exact Hdisk | exact Hheld].
  rewrite Hrun. unfold parse_range. rewrite remove_first_bytes_prefix.
  rewrite split_at_first_separator by reflexivity.
  rewrite split_without_separator by (apply all_digits_no_dash, show_nat_all_digits).
  cbn [lookup list_lookup concat_string truthy_string].
  rewrite (proj2 (String.eqb_neq _ _) (show_nat_not_empty n)). cbn [negb].
  rewrite parseInt_show_nat.
  change (Js.parseInt "") with Js.NaN.
  cbn [Js.sub Js.add Js.toString read_options read_stream_bytes].
  rewrite !show_Z_of_nat. reflexivity.
Qed.

End GetDocument.

Lemma get_document_whole_witness :
  let w := Demo.world demo_disk_hundred in
  exists w',
    get Demo.quiet Demo.ldp (Options.mk None "localhost" "/c/hundred.bin" true true None)
      true w
    = (Ok {| stream := BodyBytes (digit_bytes 100 0); contentType := "text/turtle";
             container := false; contentRange := None; chunksize := None |}, w')
    /\ disk w' = disk w /\ held w' = held w.
Proof.
  intros w.
  apply (get_document_whole Demo.quiet Demo.ldp
           (Options.mk None "localhost" "/c/hundred.bin" true true None) true w
           "/data/c/hundred.bin" "text/turtle" (digit_bytes 100 0));
    first [reflexivity | apply not_elem_of_empty].
Defined.

Lemma get_document_locked_witness :
  let w := mkWorld demo_disk_hundred {[ ["data"; "c"; "hundred.bin"] ]} 0 [] in
  exists w',
    get Demo.quiet Demo.ldp (demo_range_request "bytes=10-19") true w
    = (Err (SysError ELOCKED), w')
    /\ disk w' = disk w /\ held w' = held w
    /\ Forall (fun ev => forall p, ev <> EvCreateReadStream p)
         (drop (List.length (log w)) (log w')).
Proof.
  intros w.
  apply (get_document_locked Demo.quiet Demo.ldp (demo_range_request "bytes=10-19") true w
           "/data/c/hundred.bin" "text/turtle" (digit_bytes 100 0));
    first [reflexivity | apply elem_of_singleton; reflexivity].
Defined.

Lemma get_range_reversed_witness :
  let w := Demo.world demo_disk_hundred in
  exists w',
    get Demo.quiet Demo.ldp (demo_range_request "bytes=19-10") true w
    = (Err RangeError, w')
    /\ err_status RangeError = None
    /\ disk w' = disk w /\ held w' = held w.
Proof.
  intros w.
  apply (get_range_reversed Demo.quiet Demo.ldp (demo_range_request "bytes=19-10") true w
           "/data/c/hundred.bin" "text/turtle" (digit_bytes 100 0)
           ltac:(reflexivity) ltac:(reflexivity) ltac:(reflexivity) 19%nat 10%nat);
    first [reflexivity | lia | apply not_elem_of_empty].
Defined.

Lemma get_range_suffix_form_witness :
  let w := Demo.world demo_disk_hundred in
  exists w',
    get Demo.quiet Demo.ldp (demo_range_request "bytes=-10") true w
    = (Ok {| stream := BodyBytes (digit_bytes 100 0); contentType := "text/turtle";
             container := false; contentRange := Some "bytes NaN-10/100";
             chunksize := Some Js.NaN |}, w')
    /\ disk w' = disk w /\ held w' = held w.
Proof.
  intros w.
  apply (get_range_suffix_form Demo.quiet Demo.ldp (demo_range_request "bytes=-10") true w
           "/data/c/hundred.bin" "text/turtle" (digit_bytes 100 0)
           ltac:(reflexivity) ltac:(reflexivity) ltac:(reflexivity) 10%nat);
    first [reflexivity | apply not_elem_of_empty].
Defined.

(** X3. Write, then read: after a successful [put], a [get] with body
    and without range that the mapper resolves to the same file yields
    exactly the stream that was put, with the content type the mapper
    reports, and changes nothing. *)
Theorem put_then_get_round_trip (env : Env) (this : LDP) (url : UrlArg)
    (stream : string) (contentType : option string) (options : Options.t)
    (searchIndex : bool) (w w' : World) (path contentType' mimeType : string) :
  put env this url stream contentType w = (Ok tt, w') ->
  mapUrlToFile (resourceMapper this) (disk w) url contentType true true
  = Ok (path, contentType') ->
  mapUrlToFile (resourceMapper this) (disk w') (UrlObject options) None false searchIndex
  = Ok (path, mimeType) ->
  Options.includeBody options = true ->
  truthy_string (Options.range options) = false ->
  exists w'',
    get env this options searchIndex w'
    = (Ok {| stream := BodyBytes stream; contentType := mimeType; container := false;
             contentRange := None; chunksize := None |}, w'')
    /\ disk w'' = disk w' /\ held w'' = held w'.
Proof.
  intros Hput Hmap Hmap' Hbody Hrange.
  apply put_success_inv in Hput
    as (path0 & ct0 & Hmap0 & Hcontent & _ & Hfree & Hheld).
  rewrite Hmap in Hmap0. injection Hmap0 as <- <-.
  apply (get_document_run env this options searchIndex w' path mimeType stream Hmap').
  - unfold content_at in Hcontent.
    destruct (node_at (disk w') (segments path)) as [[c|]|]; try discriminate.
    injection Hcontent as ->. reflexivity.
  - exact Hbody.
  - exact Hrange.
  - rewrite Hheld. exact Hfree.
Qed.

Lemma put_then_get_round_trip_witness :
  let w := Demo.world Demo.disk1 in
  let w' := (put Demo.quiet Demo.ldp (UrlString "/c/new.ttl") "<> a <#Doc>."
               (Some "text/turtle") w).2 in
  exists w'',
    get Demo.quiet Demo.ldp (Options.mk None "localhost" "/c/new.ttl" true true None) true w'
    = (Ok {| stream := BodyBytes "<> a <#Doc>."; contentType := "text/turtle";
             container := false; contentRange := None; chunksize := None |}, w'')
    /\ disk w'' = disk w' /\ held w'' = held w'.
Proof.
  intros w w'.
  apply (put_then_get_round_trip Demo.quiet Demo.ldp (UrlString "/c/new.ttl")
           "<> a <#Doc>." (Some "text/turtle")
           (Options.mk None "localhost" "/c/new.ttl" true true None) true w w'
           "/data/c/new.ttl" "text/turtle" "text/turtle");
    vm_compute; reflexivity.
Defined.

(** ** Operations that only read *)

Lemma fs_stat_same_disk env file : keeps same_disk (fs_stat env file).
Proof. unfold fs_stat. keeps_auto. Qed.

Lemma createReadStream_same_disk path options :
  keeps same_disk (createReadStream path options).
Proof. unfold createReadStream. keeps_auto. Qed.

#[export] Hint Resolve fs_stat_same_disk fs_readFile_same_disk createReadStream_same_disk
  : frames.

Ltac keeps_disk :=
  repeat (first [keeps_step | apply with_lock_same_disk
                | solve [auto with frames] | solve [typeclasses eauto]]).

Section ReadOnly.

Variable env : Env.
Variable this : LDP.

Lemma call_mapUrlToFile_same_disk url contentType create search :
  keeps same_disk (call_mapUrlToFile this url contentType create search).
Proof. unfold call_mapUrlToFile. keeps_disk. Qed.

Lemma call_mapFileToUrl_same_disk path hostname :
  keeps same_disk (call_mapFileToUrl this path hostname).
Proof. unfold call_mapFileToUrl. keeps_disk. Qed.

Hint Resolve call_mapUrlToFile_same_disk call_mapFileToUrl_same_disk : frames.

Lemma stat_same_disk file : keeps same_disk (stat env file).
Proof. unfold stat. keeps_disk. Qed.

Lemma statSync_size_same_disk path : keeps same_disk (statSync_size env path).
Proof. unfold statSync_size. keeps_disk. Qed.

Lemma readResource_same_disk url : keeps same_disk (readResource this url).
Proof. unfold readResource. keeps_disk. Qed.

Lemma add_files_same_disk container reqUri hostname files g :
  keeps same_disk (add_files env this container reqUri hostname files g).
Proof.
  revert g. induction files as [|file rest IH]; intros g; simpl; keeps_disk.
Qed.

Hint Resolve stat_same_disk statSync_size_same_disk readResource_same_disk
  add_files_same_disk readContainerMeta_same_disk : frames.

Lemma listContainer_same_disk container reqUri containerData hostname :
  keeps same_disk (listContainer env this container reqUri containerData hostname).
Proof. unfold listContainer. keeps_disk. Qed.

Hint Resolve listContainer_same_disk : frames.

Lemma get_same_disk options searchIndex :
  keeps same_disk (get env this options searchIndex).
Proof. unfold get. keeps_disk. Qed.

Lemma graph_same_disk url baseUri contentType :
  keeps same_disk (graph env this url baseUri contentType).
Proof. unfold graph. keeps_disk. Qed.

Lemma graph_same_locks url baseUri contentType :
  keeps same_locks (graph env this url baseUri contentType).
Proof.
  unfold graph.
  repeat (first [keeps_step | apply readResource_same_locks
                | apply call_mapUrlToFile_same_locks
                | solve [auto with frames] | solve [typeclasses eauto]]).
Qed.

End ReadOnly.

(** X13. The reading operations never write: whatever they return or
    throw, [get], [exists], [readResource], [readContainerMeta],
    [listContainer], [graph] and [getGraph] end with the disk they
    started with, and [graph] and [getGraph] with the lock table they
    started with as well. *)
Theorem reading_leaves_the_disk_alone (env : Env) (this : LDP) :
  (forall options searchIndex w, disk (get env this options searchIndex w).2 = disk w)
  /\ (forall host path searchIndex w,
        disk (exists_ env this host path searchIndex w).2 = disk w)
  /\ (forall url w, disk (readResource this url w).2 = disk w)
  /\ (forall url w, disk (readContainerMeta this url w).2 = disk w)
  /\ (forall container reqUri data host w,
        disk (listContainer env this container reqUri data host w).2 = disk w)
  /\ (forall url baseUri contentType w,
        disk (graph env this url baseUri contentType w).2 = disk w
        /\ held (graph env this url baseUri contentType w).2 = held w)
  /\ (forall uri contentType w,
        disk (getGraph env this uri contentType w).2 = disk w
        /\ held (getGraph env this uri contentType w).2 = held w).
Proof.
  splits.
  - intros. apply (get_same_disk env this).
  - intros. apply (get_same_disk env this).
  - intros. apply (readResource_same_disk this).
  - intros. apply (readContainerMeta_same_disk this).
  - intros. apply (listContainer_same_disk env this).
  - intros. split; [apply (graph_same_disk env this) | apply (graph_same_locks env this)].
  - intros. split; [apply (graph_same_disk env this) | apply (graph_same_locks env this)].
Qed.

(** ** [readResource] and the deletions *)

(** The values of [readResource] and [deleteResource], by what is on
    the disk and in the lock table. *)
Lemma readResource_run (this : LDP) (url : string) (w : World) :
  (readResource this url w).1
  = match mapUrlToFile (resourceMapper this) (disk w) (UrlString url) None false true with
    | Err e => Err (error_status (err_status e) (err_message e))
    | Ok (path, _) =>
        match node_at (disk w) (segments path) with
        | None => Err (error_status None "ENOENT")
        | Some n =>
            if bool_decide (segments path ∈ held w) then Err (error_status None "ELOCKED")
            else match n with
                 | File content => Ok content
                 | Dir => Err (error_status None "EISDIR")
                 end
        end
    end.
Proof.
  unfold readResource, try_catch, bind, call_mapUrlToFile, bind, emit, get_disk, lift.
  simpl. destruct (mapUrlToFile _ _ _ _ _ _) as [[path ct]|e]; simpl; [| reflexivity].
  unfold with_lock, lock, bind, emit. simpl.
  destruct (node_at (disk w) (segments path)) as [n|] eqn:Hnode; simpl; [| reflexivity].
  destruct (bool_decide (segments path ∈ held w)); simpl; [reflexivity |].
  unfold fs_readFile, bind, emit, get_disk. simpl. rewrite Hnode.
  destruct n; reflexivity.
Qed.

Lemma deleteResource_run (path : string) (w : World) :
  exists l,
    deleteResource path w
    = match node_at (disk w) (segments path) with
      | Some (File _) =>
          if bool_decide (segments path ∈ held w)
          then (Err (error_from (SysError ELOCKED) "Failed to delete resource"),
                mkWorld (disk w) (held w) (clock w) (log w ++ l))
          else (Ok tt,
                mkWorld (base.delete (segments path) (disk w))
                  (({[segments path]} ∪ held w) ∖ {[segments path]}) (clock w)
                  (log w ++ l))
      | Some Dir =>
          if bool_decide (segments path ∈ held w)
          then (Err (error_from (SysError ELOCKED) "Failed to delete resource"),
                mkWorld (disk w) (held w) (clock w) (log w ++ l))
          else (Err (error_from (SysError EISDIR) "Failed to delete resource"),
                mkWorld (disk w) (({[segments path]} ∪ held w) ∖ {[segments path]})
                  (clock w) (log w ++ l))
      | None =>
          (Err (error_from (SysError ENOENT) "Failed to delete resource"),
           mkWorld (disk w) (held w) (clock w) (log w ++ l))
      end.
Proof.
  unfold deleteResource, try_catch, with_lock, lock, bind, emit. simpl.
  destruct (node_at (disk w) (segments path)) as [n|] eqn:Hnode; simpl.
  2:{ exists [EvLock path]. reflexivity. }
  destruct (bool_decide (segments path ∈ held w)); simpl.
  { exists [EvLock path]. destruct n; reflexivity. }
  unfold fs_unlink, bind, emit, get_disk, lift, set_disk, disk_unlink. simpl.
  rewrite Hnode.
  exists [EvLock path; EvUnlink path; EvRelease (segments path)].
  destruct n; simpl; rewrite <- !app_assoc; reflexivity.
Qed.

(** X14. [readResource] returns the content of the file the mapper
    names for the URL exactly when that file is there, is a file and is
    not locked by someone else; and an HTTP error of the mapper keeps
    its status and message on the way out. *)
Theorem readResource_reads_the_mapped_file (this : LDP) (url : string) (w : World) :
  (forall content,
      (readResource this url w).1 = Ok content <->
      exists path contentType,
        mapUrlToFile (resourceMapper this) (disk w) (UrlString url) None false true
        = Ok (path, contentType)
        /\ node_at (disk w) (segments path) = Some (File content)
        /\ segments path ∉ held w)
  /\ (forall status message,
        mapUrlToFile (resourceMapper this) (disk w) (UrlString url) None false true
        = Err (HttpError status message) ->
        (readResource this url w).1 = Err (HttpError status message)).
Proof.
  rewrite readResource_run. split.
  - intros content. split.
    + destruct (mapUrlToFile _ _ _ _ _ _) as [[path ct]|e]; [| discriminate].
      destruct (node_at (disk w) (segments path)) as [n|] eqn:Hnode; [| discriminate].
      destruct (bool_decide (segments path ∈ held w)) eqn:Hheld; [discriminate |].
      destruct n as [c|]; [| discriminate]. intros H. injection H as ->.
      exists path, ct. splits; [reflexivity | exact Hnode |].
      apply bool_decide_eq_false in Hheld. exact Hheld.
    + intros (path & ct & -> & -> & Hfree).
      rewrite bool_decide_eq_false_2 by exact Hfree. reflexivity.
  - intros status message ->. reflexivity.
Qed.

(** X15. [deleteResource] succeeds exactly on a file that is there and
    not locked by someone else, and then the disk is the old one without
    that entry; when it fails the disk is unchanged and the error
    carries the message "Failed to delete resource" (a directory, a
    missing file and a held lock all end there).  The lock table is
    restored either way. *)
Theorem deleteResource_removes_the_file (path : string) (w w' : World) (r : Outcome unit) :
  deleteResource path w = (r, w') ->
  held w' = held w
  /\ (r = Ok tt <->
      (exists content, node_at (disk w) (segments path) = Some (File content))
      /\ segments path ∉ held w)
  /\ (r = Ok tt -> disk w' = base.delete (segments path) (disk w))
  /\ (r <> Ok tt ->
      disk w' = disk w /\ exists e, r = Err (error_from e "Failed to delete resource")).
Proof.
  intros Hrun. destruct (deleteResource_run path w) as [l Hvalue].
  rewrite Hrun in Hvalue. clear Hrun.
  destruct (node_at (disk w) (segments path)) as [[content|]|] eqn:Hnode;
    [destruct (bool_decide (segments path ∈ held w)) eqn:Hheld
    | destruct (bool_decide (segments path ∈ held w)) eqn:Hheld |];
    injection Hvalue as -> ->; simpl;
    try apply bool_decide_eq_true in Hheld; try apply bool_decide_eq_false in Hheld.
  - splits; [reflexivity | | discriminate | intros _; split; [reflexivity | eauto]].
    split; [discriminate | intros [_ Hfree]; contradiction].
  - splits; [apply lock_table_restored, Hheld | | reflexivity | contradiction].
    split; [intros _; split; [eauto | exact Hheld] | reflexivity].
  - splits; [reflexivity | | discriminate | intros _; split; [reflexivity | eauto]].
    split; [discriminate | intros [_ Hfree]; contradiction].
  - splits; [apply lock_table_restored, Hheld | | discriminate
            | intros _; split; [reflexivity | eauto]].
    split; [discriminate | intros [[c Hc] _]; discriminate].
  - splits; [reflexivity | | discriminate | intros _; split; [reflexivity | eauto]].
    split; [discriminate | intros [[c Hc] _]; discriminate].
Qed.

Lemma deleteResource_removes_the_file_witness :
  let w := Demo.world Demo.disk1 in
  let run := deleteResource "/data/c/foo.ttl" w in
  held run.2 = held w
  /\ run.1 = Ok tt
  /\ disk run.2 = base.delete (segments "/data/c/foo.ttl") (disk w).
Proof.
  intros w run.
  destruct (deleteResource_removes_the_file "/data/c/foo.ttl" w run.2 run.1)
    as (Hheld & Hiff & Hdisk & _); [apply surjective_pairing |].
  assert (Hok : run.1 = Ok tt).
  { apply Hiff. split; [exists "old content"; vm_compute; reflexivity |].
    apply not_elem_of_empty. }
  splits; [exact Hheld | exact Hok | exact (Hdisk Hok)].
Defined.

Lemma readResource_reads_the_mapped_file_witness :
  (readResource Demo.ldp "/c/foo.ttl" (Demo.world Demo.disk1)).1 = Ok "old content".
Proof.
  apply (readResource_reads_the_mapped_file Demo.ldp "/c/foo.ttl" (Demo.world Demo.disk1)).
  exists "/data/c/foo.ttl", "text/turtle".
  splits; [reflexivity | reflexivity | apply not_elem_of_empty].
Defined.

(** How [delete] opens, and where it goes. *)
Lemma delete_opening (env : Env) (this : LDP) (url : string) (w : World) :
  match mapUrlToFile (resourceMapper this) (disk w) (UrlString url) None false true with
  | Err e =>
      delete_ env this url w
      = (Err (HttpError 404 ("Can't find " +:+ err_message e)),
         mkWorld (disk w) (held w) (clock w) (log w ++ [EvMapUrlToFile]))
  | Ok (path, _) =>
      match node_at (disk w) (segments path) with
      | None =>
          delete_ env this url w
          = (Err (HttpError 404 ("Can't find Can't read metadata of " +:+ path)),
             after_lookup w path)
      | Some Dir =>
          delete_ env this url w = deleteContainer env this path (after_lookup w path)
      | Some (File _) =>
          delete_ env this url w = deleteResource path (after_lookup w path)
      end
  end.
Proof.
  destruct (mapUrlToFile _ _ _ _ _ _) as [[path ct]|e] eqn:Hmap.
  - destruct (node_at (disk w) (segments path)) as [[c|]|] eqn:Hnode;
      unfold delete_, after_lookup, bind at 1, try_catch at 1, bind at 1,
        call_mapUrlToFile, bind, emit, get_disk, lift; simpl; rewrite Hmap; simpl;
      unfold stat, try_catch, fs_stat, bind, emit, get_disk; simpl;
      rewrite Hnode; simpl; rewrite <- ?app_assoc; reflexivity.
  - unfold delete_, bind at 1, try_catch at 1, bind at 1, call_mapUrlToFile,
      bind, emit, get_disk, lift. simpl. rewrite Hmap. reflexivity.
Qed.

(** X16. [delete] of something the mapper rejects or that is not on the
    disk fails with status 404 before anything is listed, locked or
    removed: disk and lock table are untouched. *)
Theorem delete_of_missing_resource (env : Env) (this : LDP) (url : string) (w : World) :
  match mapUrlToFile (resourceMapper this) (disk w) (UrlString url) None false true with
  | Ok (path, _) => node_at (disk w) (segments path) = None
  | Err _ => True
  end ->
  exists message l,
    delete_ env this url w
    = (Err (HttpError 404 message), mkWorld (disk w) (held w) (clock w) (log w ++ l))
    /\ Forall (fun ev => ev = EvMapUrlToFile \/ exists p, ev = EvStat p) l.
Proof.
  intros Hmissing. pose proof (delete_opening env this url w) as Hopen.
  destruct (mapUrlToFile _ _ _ _ _ _) as [[path ct]|e].
  - rewrite Hmissing in Hopen. eexists _, [EvMapUrlToFile; EvStat path].
    split; [exact Hopen | looks_only].
  - eexists _, [EvMapUrlToFile]. split; [exact Hopen | looks_only].
Qed.

Lemma delete_of_missing_resource_witness :
  exists message l,
    delete_ Demo.quiet Demo.ldp "/c/nothing.ttl" (Demo.world Demo.disk1)
    = (Err (HttpError 404 message), mkWorld Demo.disk1 ∅ 0 ([] ++ l))
    /\ Forall (fun ev => ev = EvMapUrlToFile \/ exists p, ev = EvStat p) l.
Proof.
  apply (delete_of_missing_resource Demo.quiet Demo.ldp "/c/nothing.ttl"
           (Demo.world Demo.disk1)).
  vm_compute. exact I.
Defined.

(** X17. [deleteContainer] called on a path that is not a directory on
    the disk (nothing there, or a file) fails with status 404 "The
    container does not exist": only [readdir] was called, nothing is
    removed. *)
Theorem deleteContainer_of_no_directory (env : Env) (this : LDP) (directory : string)
    (w : World) :
  node_at (disk w) (segments directory) <> Some Dir ->
  exists dir',
    segments dir' = segments directory
    /\ deleteContainer env this directory w
       = (Err (HttpError 404 "The container does not exist"),
          mkWorld (disk w) (held w) (clock w) (log w ++ [EvReaddir dir'])).
Proof.
  intros Hnode.
  set (dir' := if negb (Js.endsWith directory "/") then directory +:+ "/" else directory).
  assert (Hseg : segments dir' = segments directory).
  { unfold dir'. destruct (negb _); [apply segments_trailing_separator | reflexivity]. }
  exists dir'. split; [exact Hseg |].
  unfold deleteContainer. fold dir'.
  unfold bind, try_catch, fs_readdir, bind, emit, get_disk, lift, disk_readdir. simpl.
  rewrite Hseg.
  destruct (node_at (disk w) (segments directory)) as [[c|]|]; try reflexivity.
  contradiction.
Qed.

Lemma deleteContainer_of_no_directory_witness :
  exists dir',
    segments dir' = segments "/data/c/foo.ttl"
    /\ deleteContainer Demo.quiet Demo.ldp "/data/c/foo.ttl" (Demo.world Demo.disk1)
       = (Err (HttpError 404 "The container does not exist"),
          mkWorld Demo.disk1 ∅ 0 ([] ++ [EvReaddir dir'])).
Proof.
  apply (deleteContainer_of_no_directory Demo.quiet Demo.ldp "/data/c/foo.ttl"
           (Demo.world Demo.disk1)).
  vm_compute. discriminate.
Defined.

(** X18. Write, then delete: after a successful [put], a [delete] that
    the mapper resolves to the same file succeeds, the file is gone,
    every other entry is as the [put] left it, and the lock table is as
    before. *)
Theorem put_then_delete (env : Env) (this : LDP) (url : UrlArg) (stream : string)
    (contentType : option string) (target : string) (w w' : World)
    (path contentType' mimeType : string) :
  put env this url stream contentType w = (Ok tt, w') ->
  mapUrlToFile (resourceMapper this) (disk w) url contentType true true
  = Ok (path, contentType') ->
  mapUrlToFile (resourceMapper this) (disk w') (UrlString target) None false true
  = Ok (path, mimeType) ->
  exists w'',
    delete_ env this target w' = (Ok tt, w'')
    /\ disk w'' = base.delete (segments path) (disk w')
    /\ content_at (disk w'') path = None
    /\ held w'' = held w'.
Proof.
  intros Hput Hmap Hmap'.
  apply put_success_inv in Hput
    as (path0 & ct0 & Hmap0 & Hcontent & _ & Hfree & Hheld).
  rewrite Hmap in Hmap0. injection Hmap0 as <- <-.
  assert (Hnode : node_at (disk w') (segments path) = Some (File stream)).
  { unfold content_at in Hcontent.
    destruct (node_at (disk w') (segments path)) as [[c|]|]; try discriminate.
    injection Hcontent as ->. reflexivity. }
  pose proof (delete_opening env this target w') as Hopen.
  rewrite Hmap', Hnode in Hopen. rewrite Hopen.
  destruct (deleteResource_run path (after_lookup w' path)) as [l Hrun].
  simpl in Hrun. rewrite Hnode in Hrun.
  rewrite bool_decide_eq_false_2 in Hrun by (rewrite Hheld; exact Hfree).
  rewrite Hrun. eexists. splits; [reflexivity | reflexivity | |].
  - simpl. unfold content_at, node_at.
    destruct (segments path) as [|x k] eqn:Hk; [simpl in Hnode; discriminate |].
    rewrite lookup_delete_eq. reflexivity.
  - simpl. apply lock_table_restored. rewrite Hheld. exact Hfree.
Qed.

Lemma put_then_delete_witness :
  let w := Demo.world Demo.disk1 in
  let w' := (put Demo.quiet Demo.ldp (UrlString "/c/new.ttl") "<> a <#Doc>."
               (Some "text/turtle") w).2 in
  exists w'',
    delete_ Demo.quiet Demo.ldp "/c/new.ttl" w' = (Ok tt, w'')
    /\ disk w'' = base.delete (segments "/data/c/new.ttl") (disk w')
    /\ content_at (disk w'') "/data/c/new.ttl" = None
    /\ held w'' = held w'.
Proof.
  intros w w'.
  apply (put_then_delete Demo.quiet Demo.ldp (UrlString "/c/new.ttl") "<> a <#Doc>."
           (Some "text/turtle") "/c/new.ttl" w w' "/data/c/new.ttl" "text/turtle"
           "text/turtle");
    vm_compute; reflexivity.
Defined.

(** ** [listContainer] *)

Lemma add_files_run (env : Env) (this : LDP) (container reqUri hostname : string)
    (files : list string) (g : Graph) (w : World) :
  exists l,
    add_files env this container reqUri hostname files g w
    = (Settled (files_graph env this (disk w) container reqUri hostname files g),
       mkWorld (disk w) (held w) (clock w) (log w ++ l)).
Proof.
  revert g w. induction files as [|file rest IH]; intros g w.
  - exists []. rewrite app_nil_r. destruct w; reflexivity.
  - simpl. unfold bind at 1, call_mapFileToUrl, bind, emit, get_disk, lift. simpl.
    destruct (mapFileToUrl (resourceMapper this) (disk w) _ hostname) as [[fileUri ct]|e];
      simpl; [| eexists; reflexivity].
    destruct (addFile env (disk w) g reqUri fileUri container file) as [g'|e]; simpl;
      [| eexists; reflexivity].
    match goal with
    | |- context [add_files _ _ _ _ _ _ _ ?w1] => destruct (IH g' w1) as [l Hrest]
    end.
    rewrite Hrest. simpl. eexists. rewrite <- app_assoc. reflexivity.
Qed.

Lemma files_graph_app (env : Env) (this : LDP) (d : Disk) (container reqUri hostname : string)
    (files more : list string) (g : Graph) :
  files_graph env this d container reqUri hostname (files ++ more) g
  = match files_graph env this d container reqUri hostname files g with
    | Ok g' => files_graph env this d container reqUri hostname more g'
    | Err e => Err e
    end.
Proof.
  revert g. induction files as [|file rest IH]; intros g; simpl; [reflexivity |].
  destruct (mapFileToUrl _ _ _ _) as [[fileUri ct]|e]; [| reflexivity].
  destruct (addFile _ _ _ _ _ _ _) as [g'|e]; [apply IH | reflexivity].
Qed.

(** [listContainer] by the answers it gets. *)
Lemma listContainer_run (env : Env) (this : LDP)
    (container reqUri containerData hostname : string) (w : World) :
  exists l,
    listContainer env this container reqUri containerData hostname w
    = match rdf_parse env containerData [] reqUri "text/turtle" with
      | Err _ => (Err (HttpError 500 "Can't parse container"), w)
      | Ok g =>
          match addContainerStats env (disk w) reqUri container g with
          | Err _ => (Err (HttpError 500 "Can't list container"), w)
          | Ok g1 =>
              match container_readdir env (disk w) container with
              | Err _ => (Err (HttpError 500 "Can't list container"), w)
              | Ok files =>
                  let w1 := mkWorld (disk w) (held w) (clock w) (log w ++ l) in
                  match files_graph env this (disk w) container reqUri hostname files g1 with
                  | Err _ => (Err (HttpError 500 "Can't list container"), w1)
                  | Ok g2 =>
                      match serialize env g2 reqUri "text/turtle" with
                      | Err _ => (Err (HttpError 500 "Can't serialize container"), w1)
                      | Ok data => (Ok data, w1)
                      end
                  end
              end
          end
      end.
Proof.
  unfold listContainer, bind at 1, try_catch at 1, lift at 1.
  destruct (rdf_parse env containerData [] reqUri "text/turtle") as [g|e];
    [| exists []; reflexivity].
  unfold bind at 1, try_catch at 1, bind at 1, get_disk at 1. simpl.
  unfold bind at 1, lift at 1.
  destruct (addContainerStats env (disk w) reqUri container g) as [g1|e];
    [| exists []; reflexivity].
  unfold bind at 1, lift at 1.
  destruct (container_readdir env (disk w) container) as [files|e];
    [| exists []; reflexivity].
  destruct (add_files_run env this container reqUri hostname files g1 w) as [l Hfiles].
  exists l. rewrite Hfiles. simpl.
  destruct (files_graph env this (disk w) container reqUri hostname files g1) as [g2|e];
    [| reflexivity].
  unfold try_catch, lift.
  destruct (serialize env g2 reqUri "text/turtle"); reflexivity.
Qed.

(** X19. Which failure [listContainer] turns into which error, all of
    status 500: metadata that do not parse give "Can't parse
    container" in the world of the call, before anything else is
    called; a failure of the container statistics, of the directory
    listing, or of the mapper or the materializer on any of the entries
    gives "Can't list container"; a failure of the serializer gives
    "Can't serialize container"; and when none of them fails the call
    returns what the serializer made of the graph. *)
Theorem listContainer_failures (env : Env) (this : LDP)
    (container reqUri containerData hostname : string) (w : World) :
  let run := listContainer env this container reqUri containerData hostname w in
  let entries files g := (add_files env this container reqUri hostname files g w).1 in
  (forall e, rdf_parse env containerData [] reqUri "text/turtle" = Err e ->
     run = (Err (HttpError 500 "Can't parse container"), w))
  /\ (forall g, rdf_parse env containerData [] reqUri "text/turtle" = Ok g ->
      (forall e, addContainerStats env (disk w) reqUri container g = Err e ->
         run.1 = Err (HttpError 500 "Can't list container"))
      /\ (forall g1, addContainerStats env (disk w) reqUri container g = Ok g1 ->
          (forall e, container_readdir env (disk w) container = Err e ->
             run.1 = Err (HttpError 500 "Can't list container"))
          /\ (forall files, container_readdir env (disk w) container = Ok files ->
              (forall e, entries files g1 = Err e ->
                 run.1 = Err (HttpError 500 "Can't list container"))
              /\ (forall g2, entries files g1 = Ok g2 ->
                  (forall e, serialize env g2 reqUri "text/turtle" = Err e ->
                     run.1 = Err (HttpError 500 "Can't serialize container"))
                  /\ (forall data, serialize env g2 reqUri "text/turtle" = Ok data ->
                        run.1 = Ok data)))))
  /\ (forall (files : list string) (file : string) (rest : list string) (g g' : Graph),
        entries files g = Ok g' ->
        match mapFileToUrl (resourceMapper this) (disk w) (path_join env container file)
                hostname with
        | Err e => entries (files ++ file :: rest) g = Err e
        | Ok (fileUri, _) =>
            forall e, addFile env (disk w) g' reqUri fileUri container file = Err e ->
                      entries (files ++ file :: rest) g = Err e
        end).
Proof.
  intros run entries.
  destruct (listContainer_run env this container reqUri containerData hostname w)
    as [l Hrun]. fold run in Hrun.
  assert (Hentries : forall files g,
             entries files g
             = Settled (files_graph env this (disk w) container reqUri hostname files g)).
  { intros files g. unfold entries.
    destruct (add_files_run env this container reqUri hostname files g w) as [l' ->].
    reflexivity. }
  splits.
  - intros e He. rewrite Hrun, He. reflexivity.
  - intros g Hg. rewrite Hg in Hrun. split.
    + intros e He. rewrite Hrun, He. reflexivity.
    + intros g1 Hg1. rewrite Hg1 in Hrun. split.
      * intros e He. rewrite Hrun, He. reflexivity.
      * intros files Hfiles. rewrite Hfiles in Hrun. simpl in Hrun. split.
        -- intros e He. rewrite Hentries in He. injection He as He.
           rewrite Hrun, He. reflexivity.
        -- intros g2 Hg2. rewrite Hentries in Hg2. injection Hg2 as Hg2.
           rewrite Hg2 in Hrun. split.
           ++ intros e He. rewrite Hrun, He. reflexivity.
           ++ intros data Hdata. rewrite Hrun, Hdata. reflexivity.
  - intros files file rest g g' Hdone. rewrite Hentries in Hdone. injection Hdone as Hdone.
    destruct (mapFileToUrl (resourceMapper this) (disk w) _ hostname)
      as [[fileUri ct]|e] eqn:Hmap.
    + intros e He. rewrite Hentries, files_graph_app, Hdone. simpl.
      rewrite Hmap, He. reflexivity.
    + rewrite Hentries, files_graph_app, Hdone. simpl. rewrite Hmap. reflexivity.
Qed.

(** A store whose directory listing fails, one whose materializer fails
    on an entry, and one whose serializer fails. *)
Example listContainer_failure_runs :
  let with_faults readdir (file_fault serialize_fault : bool) :=
    {| decodeURIComponent := decodeURIComponent Demo.quiet;
       joinPaths := joinPaths Demo.quiet;
       path_join := path_join Demo.quiet;
       path_dirname := path_dirname Demo.quiet;
       uuid_v1 := uuid_v1 Demo.quiet;
       overQuota := overQuota Demo.quiet;
       rdf_parse := rdf_parse Demo.quiet;
       serialize :=
         if serialize_fault then fun _ _ _ => Err (SysError EIO)
         else serialize Demo.quiet;
       addContainerStats := addContainerStats Demo.quiet;
       container_readdir := readdir;
       addFile :=
         if file_fault then fun _ _ _ _ _ _ => Err (SysError EIO)
         else addFile Demo.quiet;
       directory_size := directory_size Demo.quiet;
       write_fault := write_fault Demo.quiet;
       rimraf_fault := rimraf_fault Demo.quiet |} in
  let run env := (listContainer env Demo.ldp "/data/c/" "/c/" "" "localhost"
                    (Demo.world Demo.disk1)).1 in
  run (with_faults (fun _ _ => Err (SysError EIO)) false false)
  = Err (HttpError 500 "Can't list container")
  /\ run (with_faults (container_readdir Demo.quiet) true false)
     = Err (HttpError 500 "Can't list container")
  /\ run (with_faults (container_readdir Demo.quiet) false true)
     = Err (HttpError 500 "Can't serialize container")
  /\ run (with_faults (container_readdir Demo.quiet) false false) = Ok "/c/foo.ttl".
Proof. vm_compute. splits; reflexivity. Qed.

(** ** [post] *)

(** X20. With a slug that passes the check and the fuel to reach a
    candidate that is free, [post] of a stream that ends returns, and
    its promise is settled.  When it succeeds, what it returns was
    allocated afresh: the allocated identifier is one the existence
    probe did not find on the disk of the call; the location returned
    is that identifier, for a container with the separator appended
    unless the identifier is empty or ends with one already; the
    stream is, whole, in the file the mapper names for the resource
    (for a container, for its metadata resource); and the lock table is
    as before. *)
Theorem post_stores_at_a_fresh_location (env : Env) (this : LDP) (fuel : nat)
    (host containerPath stream : string) (container : bool)
    (slug slug' extension : option string) (w : World) (i : nat) :
  checked_slug env slug = Ok slug' ->
  (i < fuel)%nat ->
  probe this (disk w) host
    (allocation_candidate env containerPath slug'
       (if container then Some "" else extension) (clock w) i) = false ->
  exists allocated (o : Result string) w',
    post env this fuel host containerPath stream container slug extension w
    = Some (o, w')
    /\ probe this (disk w) host allocated = false
    /\ forall location, o = Ok location ->
         location = (if container
                     then (if String.eqb allocated "" || Js.endsWith allocated "/"
                           then allocated else allocated +:+ "/")
                     else allocated)
         /\ held w' = held w
         /\ exists putUrl mimeType file mimeType',
              mapFileToUrl (resourceMapper this) (disk w)
                (rootPath (resourceMapper this)
                 +:+ (if container then path_join env allocated (suffixMeta this)
                      else allocated))
                host
              = Ok (putUrl, mimeType)
              /\ mapUrlToFile (resourceMapper this) (disk w) (UrlString putUrl)
                   (Some mimeType) true true
                 = Ok (file, mimeType')
              /\ content_at (disk w') file = Some stream.
Proof.
  intros Hslug Hi Hfree.
  destruct (getAvailablePath_allocates env this fuel host containerPath slug' _ w i
              Hi Hfree) as (allocated & w1 & Halloc & Hdisk & Hheld & Hunprobed).
  exists allocated. rewrite post_run, Hslug, Halloc. simpl. rewrite Hdisk.
  destruct (mapFileToUrl (resourceMapper this) (disk w) _ host)
    as [[putUrl mimeType]|e] eqn:Hmap.
  2:{ exists (Err e). eexists. splits; [reflexivity | exact Hunprobed | discriminate]. }
  simpl.
  pose proof (settles_put env this (UrlString putUrl) stream (Some mimeType)
                (post_before_put w1 (rootPath (resourceMapper this)
                   +:+ (if container then path_join env allocated (suffixMeta this)
                        else allocated)))) as Hsettled.
  destruct (put env this (UrlString putUrl) stream (Some mimeType) _)
    as [[[[]|e]|] w2] eqn:Hput; simpl in *; [| | contradiction].
  2:{ exists (Err e), w2. splits; [reflexivity | exact Hunprobed | discriminate]. }
  eexists (Ok _), w2. splits; [reflexivity | exact Hunprobed |].
  intros location Hloc. injection Hloc as <-.
  apply put_success_inv in Hput as (file & ct & Hfile & Hcontent & _ & _ & Hheld2).
  simpl in Hfile, Hheld2. rewrite Hdisk in Hfile.
  splits; [| congruence | exists putUrl, mimeType, file, ct; auto].
  unfold container_location. destruct container; [| reflexivity].
  destruct (String.eqb allocated ""); [reflexivity |]. simpl.
  destruct (Js.endsWith allocated "/"); reflexivity.
Qed.

Lemma post_stores_at_a_fresh_location_witness :
  let w := Demo.world Demo.disk1 in
  probe Demo.ldp (disk w) "localhost" "/c/foo.ttl" = true
  /\ exists allocated (o : Result string) w',
       post Demo.quiet Demo.ldp 3 "localhost" "/c/" "<> a <#Doc>." false (Some "foo")
         (Some ".ttl") w
       = Some (o, w')
       /\ probe Demo.ldp (disk w) "localhost" allocated = false
       /\ forall location, o = Ok location ->
            location = allocated
            /\ held w' = held w
            /\ exists putUrl mimeType file mimeType',
                 mapFileToUrl (resourceMapper Demo.ldp) (disk w)
                   (rootPath (resourceMapper Demo.ldp) +:+ allocated) "localhost"
                 = Ok (putUrl, mimeType)
                 /\ mapUrlToFile (resourceMapper Demo.ldp) (disk w) (UrlString putUrl)
                      (Some mimeType) true true
                    = Ok (file, mimeType')
                 /\ content_at (disk w') file = Some "<> a <#Doc>.".
Proof.
  intros w. split; [vm_compute; reflexivity |].
  apply (post_stores_at_a_fresh_location Demo.quiet Demo.ldp 3 "localhost" "/c/"
           "<> a <#Doc>." false (Some "foo") (Some "foo") (Some ".ttl") w 1);
    [reflexivity | lia | vm_compute; reflexivity].
Defined.

(** The run behind it: [/c/foo.ttl] is taken, the document goes to a
    name with a uuid prefix. *)
Example post_document_run :
  let r := post Demo.quiet Demo.ldp 3 "localhost" "/c/" "<> a <#Doc>." false (Some "foo")
             (Some ".ttl") (Demo.world Demo.disk1) in
  option_map fst r = Some (Ok "/c/c0ffee0-foo.ttl")
  /\ option_map (fun x => content_at (disk x.2) "/data/c/c0ffee0-foo.ttl") r
     = Some (Some "<> a <#Doc>.").
Proof. vm_compute. splits; reflexivity. Qed.

(** X21. A slug that is not valid percent-encoding makes [post] fail
    with the [URIError] of [decodeURIComponent] itself, not with status
    400, and before anything is probed or written. *)
Theorem post_malformed_slug (env : Env) (this : LDP) (fuel : nat)
    (host containerPath : string) (stream : Readable) (container : bool)
    (slug : string) (extension : option string) (w : World) :
  slug <> "" ->
  decodeURIComponent env slug = None ->
  post env this fuel host containerPath stream container (Some slug) extension w
  = Some (Err URIError, w)
  /\ err_status URIError = None.
Proof.
  intros Hslug Hdecode. unfold post, checked_slug.
  assert (Htruthy : truthy_string (Some slug) = true).
  { simpl. apply String.eqb_neq in Hslug. rewrite Hslug. reflexivity. }
  rewrite Htruthy. simpl concat_string. rewrite Hdecode. split; reflexivity.
Qed.

Lemma post_malformed_slug_witness :
  post Demo.quiet Demo.ldp 0 "localhost" "/c/" "data" false (Some "100%") (Some ".ttl")
    (Demo.world Demo.disk1)
  = Some (Err URIError, Demo.world Demo.disk1)
  /\ err_status URIError = None.
Proof.
  apply (post_malformed_slug Demo.quiet Demo.ldp 0 "localhost" "/c/" "data" false "100%"
           (Some ".ttl") (Demo.world Demo.disk1)).
  - discriminate.
  - reflexivity.
Defined.

(** ** The static members and the constructor *)

(** X22. [mimeTypeIsRdf] and [mimeTypesAsArray] agree: a type is
    recognized exactly when it is one of the entries of the array, the
    comparison being exact (case and parameters included); the array
    has its ten entries once each. *)
Theorem mimeTypeIsRdf_agrees_with_array :
  (forall mimeType, mimeTypeIsRdf mimeType = true <-> In mimeType mimeTypesAsArray)
  /\ NoDup mimeTypesAsArray
  /\ List.length mimeTypesAsArray = 10%nat
  /\ (forall mimeType, mimeTypeIsRdf mimeType = true ->
        mimeTypeIsRdf (mimeType +:+ "; charset=utf-8") = false).
Proof.
  splits.
  - intros mimeType. unfold mimeTypeIsRdf, mimeTypesAsArray. rewrite existsb_exists.
    split.
    + intros (x & Hin & Heq). apply String.eqb_eq in Heq. subst. exact Hin.
    + intros Hin. exists mimeType. split; [exact Hin | apply String.eqb_refl].
  - apply (bool_decide_unpack _). vm_compute. exact I.
  - reflexivity.
  - intros mimeType Hrdf. unfold mimeTypeIsRdf in Hrdf. apply existsb_exists in Hrdf.
    destruct Hrdf as (x & Hin & Heq). apply String.eqb_eq in Heq. subst x.
    unfold RDF_MIME_TYPES in Hin. simpl in Hin.
    repeat (destruct Hin as [<- | Hin]; [vm_compute; reflexivity |]). contradiction.
Qed.


Lemma truthy_appended_separator (s : string) : truthy_string (Some (s +:+ "/")) = true.
Proof. destruct s; reflexivity. Qed.

(** The constructed object, field by field. *)
Lemma LDP_constructor_fields (argv : Settings.t) :
  LDP_constructor argv
  = Settings.mk
      (if negb (truthy_string (Settings.suffixAcl argv)) then Some ".acl"
       else Settings.suffixAcl argv)
      (if negb (truthy_string (Settings.suffixMeta argv)) then Some ".meta"
       else Settings.suffixMeta argv)
      (if Settings.noErrorPages argv then true
       else negb (truthy_field (Settings.errorPages argv)))
      (if Settings.noErrorPages argv then Null
       else match Settings.errorPages argv with
            | Str pages =>
                if truthy_field (Str pages) && negb (Js.endsWith pages "/")
                then Str (pages +:+ "/") else Str pages
            | other => other
            end)
      (Some (match Settings.skin argv with Some false => false | _ => true end))
      (if truthy_string (Settings.corsProxy argv)
          && negb (String.prefix "/" (concat_string (Settings.corsProxy argv)))
       then Some ("/" +:+ concat_string (Settings.corsProxy argv))
       else Settings.corsProxy argv).
Proof.
  destruct argv as [acl meta noPages pages skin cors]. unfold LDP_constructor. simpl.
  destruct noPages; simpl.
  - destruct skin as [[|]|]; reflexivity.
  - destruct pages as [| |pages]; simpl;
      [| | destruct (negb (pages =? "")%string); simpl;
           [destruct (Js.endsWith pages "/"); simpl |]];
      destruct skin as [[|]|]; reflexivity.
Qed.


Lemma truthy_appended_field (s : string) : truthy_field (Str (s +:+ "/")) = true.
Proof. destruct s; reflexivity. Qed.

#[local] Opaque truthy_string.

(** The fields other than [errorPages] come out of a second
    construction as they came out of the first. *)
Lemma LDP_constructor_again (argv : Settings.t) :
  let once := LDP_constructor argv in
  let twice := LDP_constructor once in
  Settings.suffixAcl twice = Settings.suffixAcl once
  /\ Settings.suffixMeta twice = Settings.suffixMeta once
  /\ Settings.noErrorPages twice = Settings.noErrorPages once
  /\ Settings.skin twice = Settings.skin once
  /\ Settings.corsProxy twice = Settings.corsProxy once.
Proof.
  intros once twice. unfold twice, once. clear once twice.
  rewrite (LDP_constructor_fields argv). rewrite LDP_constructor_fields.
  destruct argv as [acl meta noPages pages skin cors]. simpl. splits.
  - destruct (truthy_string acl) eqn:H; simpl; [rewrite H |]; reflexivity.
  - destruct (truthy_string meta) eqn:H; simpl; [rewrite H |]; reflexivity.
  - destruct noPages; [reflexivity |].
    destruct pages as [| |pages]; simpl; [reflexivity .. |].
    destruct (negb (pages =? "")%string) eqn:Ht; simpl; [| reflexivity].
    destruct (Js.endsWith pages "/"); simpl.
    + rewrite Ht. reflexivity.
    + pose proof (truthy_appended_field pages) as Hslash. simpl in Hslash.
      rewrite Hslash. reflexivity.
  - destruct skin as [[|]|]; reflexivity.
  - destruct (truthy_string cors) eqn:Ht; simpl.
    + destruct (String.prefix "/" (concat_string cors)) eqn:Hp; simpl.
      * rewrite Ht, Hp. reflexivity.
      * replace (String.prefix "" ("" +:+ concat_string cors)) with true
          by (destruct (concat_string cors); reflexivity).
        rewrite andb_false_r. reflexivity.
    + rewrite Ht. reflexivity.
Qed.

#[local] Transparent truthy_string.

(** X24. Constructing again from a constructed configuration changes
    nothing exactly when [noErrorPages] was passed, or [errorPages] was
    passed as null or as a non-empty string.  Otherwise [errorPages]
    was left out or empty: it comes out as it went in the first time
    (undefined, or the empty string) and as null the second, and this
    is the only field that differs. *)
Theorem LDP_constructor_idempotent (argv : Settings.t) :
  let once := LDP_constructor argv in
  let twice := LDP_constructor once in
  (twice = once <->
   Settings.noErrorPages argv = true
   \/ Settings.errorPages argv = Null
   \/ truthy_field (Settings.errorPages argv) = true)
  /\ (twice <> once ->
      Settings.errorPages once = Settings.errorPages argv
      /\ Settings.errorPages twice = Null
      /\ twice = Settings.mk (Settings.suffixAcl once) (Settings.suffixMeta once)
                   (Settings.noErrorPages once) Null (Settings.skin once)
                   (Settings.corsProxy once)).
Proof.
  intros once twice.
  destruct (LDP_constructor_again argv) as (Hacl & Hmeta & Hno & Hskin & Hcors).
  fold once in Hacl, Hmeta, Hno, Hskin, Hcors.
  fold twice in Hacl, Hmeta, Hno, Hskin, Hcors.
  assert (Hshape : twice = Settings.mk (Settings.suffixAcl once) (Settings.suffixMeta once)
                             (Settings.noErrorPages once) (Settings.errorPages twice)
                             (Settings.skin once) (Settings.corsProxy once)).
  { rewrite <- Hacl, <- Hmeta, <- Hno, <- Hskin, <- Hcors. destruct twice; reflexivity. }
  assert (Hpages : Settings.errorPages once
                   = (if Settings.noErrorPages argv then Null
                      else match Settings.errorPages argv with
                           | Str pages =>
                               if truthy_field (Str pages) && negb (Js.endsWith pages "/")
                               then Str (pages +:+ "/") else Str pages
                           | other => other
                           end)
                   /\ Settings.errorPages twice
                      = (if Settings.noErrorPages argv then Null
                         else match Settings.errorPages argv with
                              | Str pages =>
                                  if truthy_field (Str pages)
                                  then (if Js.endsWith pages "/" then Str pages
                                        else Str (pages +:+ "/"))
                                  else Null
                              | _ => Null
                              end)).
  { unfold twice, once. rewrite (LDP_constructor_fields argv).
    rewrite LDP_constructor_fields.
    destruct argv as [acl meta noPages pages skin cors]. simpl.
    destruct noPages; [split; reflexivity |].
    destruct pages as [| |pages]; simpl; [split; reflexivity .. |].
    destruct (negb (pages =? "")%string) eqn:Ht; simpl; [| split; reflexivity].
    destruct (Js.endsWith pages "/") eqn:He; simpl.
    - rewrite Ht, He. split; reflexivity.
    - pose proof (truthy_appended_field pages) as Hslash. simpl in Hslash.
      rewrite Hslash, endsWith_appended_separator. split; reflexivity. }
  destruct Hpages as [Honce Htwice].
  assert (Hsame : twice = once <-> Settings.errorPages twice = Settings.errorPages once).
  { split; [intros ->; reflexivity |]. intros H. rewrite Hshape, H. destruct once; reflexivity. }
  split.
  - rewrite Hsame, Honce, Htwice.
    destruct (Settings.noErrorPages argv); [split; auto |].
    destruct (Settings.errorPages argv) as [| |pages]; simpl.
    + split; [discriminate | intros [H | [H | H]]; discriminate].
    + split; auto.
    + destruct (negb (pages =? "")%string); simpl.
      * destruct (Js.endsWith pages "/"); split; auto.
      * split; [discriminate | intros [H | [H | H]]; discriminate].
  - intros Hdiffer.
    assert (Hpages : Settings.errorPages twice <> Settings.errorPages once)
      by (intros H; apply Hdiffer, Hsame, H).
    rewrite Honce, Htwice in Hpages.
    assert (Hnull : Settings.errorPages once = Settings.errorPages argv
                    /\ Settings.errorPages twice = Null).
    { rewrite Honce, Htwice.
      destruct (Settings.noErrorPages argv); [contradiction |].
      destruct (Settings.errorPages argv) as [| |pages]; simpl in *;
        [split; reflexivity | contradiction |].
      destruct (negb (pages =? "")%string); simpl in *; [| split; reflexivity].
      destruct (Js.endsWith pages "/"); contradiction. }
    destruct Hnull as [H1 H2]. splits; [exact H1 | exact H2 |].
    rewrite Hshape at 1. rewrite H2. reflexivity.
Qed.

(** The default configuration is one that changes: constructed from
    nothing, [errorPages] is undefined; constructed again from the
    result, it is null. *)
Example LDP_constructor_default_twice :
  let argv := Settings.mk None None false Undefined None None in
  LDP_constructor argv
  = Settings.mk (Some ".acl") (Some ".meta") true Undefined (Some true) None
  /\ LDP_constructor (LDP_constructor argv)
     = Settings.mk (Some ".acl") (Some ".meta") true Null (Some true) None.
Proof. split; reflexivity. Qed.

Example LDP_constructor_error_pages_twice :
  let argv := Settings.mk None (Some ".metadata") false (Str "errors") None (Some "proxy") in
  LDP_constructor argv
  = Settings.mk (Some ".acl") (Some ".metadata") false (Str "errors/") (Some true)
      (Some "/proxy")
  /\ LDP_constructor (LDP_constructor argv) = LDP_constructor argv.
Proof. split; reflexivity. Qed.

(** ** [putGraph] and [readContainerMeta] *)

Section PutGraph.

Variable env : Env.
Variable this : LDP.
Variable url_parse_path : string -> option string.
Variable serialize_as : Graph -> string -> option string -> Result string.

(** Serialization comes first, then [put] on the path of the URI. *)
Lemma putGraph_run (g : Graph) (uri : string) (contentType : option string) (w : World) :
  putGraph env this url_parse_path serialize_as g uri contentType w
  = match serialize_as g uri contentType with
    | Err e => (Err e, w)
    | Ok content =>
        match url_parse_path uri with
        | Some path => put env this (UrlString path) content contentType w
        | None => (Err TypeError, w)
        end
    end.
Proof.
  unfold putGraph, bind, lift, throw.
  destruct (serialize_as g uri contentType); destruct (url_parse_path uri); reflexivity.
Qed.

End PutGraph.

(** X25. The content type of [putGraph] is optional in name only:
    without one (undefined or empty) the call always fails, whatever the
    serializer makes of the graph, and it fails in the world it started
    from, with nothing asked of the quota oracle or the mapper and
    nothing created, locked or written. *)
Theorem putGraph_needs_content_type (env : Env) (this : LDP)
    (url_parse_path : string -> option string)
    (serialize_as : Graph -> string -> option string -> Result string)
    (g : Graph) (uri : string) (contentType : option string) (w : World) :
  truthy_string contentType = false ->
  exists e, putGraph env this url_parse_path serialize_as g uri contentType w = (Err e, w).
Proof.
  intros Hct. rewrite putGraph_run.
  destruct (serialize_as g uri contentType) as [content|e]; [| exists e; reflexivity].
  destruct (url_parse_path uri) as [path|]; [| exists TypeError; reflexivity].
  rewrite put_stages. simpl.
  destruct (Js.endsWith path "/"); [eexists; reflexivity |].
  rewrite Hct. eexists. reflexivity.
Qed.

Lemma putGraph_needs_content_type_witness :
  let w := Demo.world Demo.disk1 in
  demo_serialize_as demo_graph "/c/g.ttl" None = Ok "a; d"
  /\ exists e,
       putGraph Demo.quiet Demo.ldp demo_url_parse_path demo_serialize_as demo_graph
         "/c/g.ttl" None w = (Err e, w).
Proof.
  intros w. split; [reflexivity |].
  apply (putGraph_needs_content_type Demo.quiet Demo.ldp demo_url_parse_path
           demo_serialize_as demo_graph "/c/g.ttl" None w).
  reflexivity.
Defined.

(** X26. A [putGraph] that succeeds has written the serialization of
    the graph, all of it, to the file the mapper names for the path of
    the URI, and has left the lock table as it was. *)
Theorem putGraph_stores_the_serialization (env : Env) (this : LDP)
    (url_parse_path : string -> option string)
    (serialize_as : Graph -> string -> option string -> Result string)
    (g : Graph) (uri : string) (contentType : option string) (w w' : World) :
  putGraph env this url_parse_path serialize_as g uri contentType w = (Ok tt, w') ->
  exists path content file contentType',
    url_parse_path uri = Some path
    /\ serialize_as g uri contentType = Ok content
    /\ mapUrlToFile (resourceMapper this) (disk w) (UrlString path) contentType true true
       = Ok (file, contentType')
    /\ content_at (disk w') file = Some content
    /\ held w' = held w.
Proof.
  rewrite putGraph_run. intros Hrun.
  destruct (serialize_as g uri contentType) as [content|e]; [| discriminate].
  destruct (url_parse_path uri) as [path|]; [| discriminate].
  apply put_success_inv in Hrun.
  destruct Hrun as (file & ct & Hmap & Hcontent & _ & _ & Hheld).
  exists path, content, file, ct. splits; auto.
Qed.

Lemma putGraph_stores_the_serialization_witness :
  let w := Demo.world Demo.disk1 in
  let w' := (putGraph Demo.quiet Demo.ldp demo_url_parse_path demo_serialize_as demo_graph
               "/c/g.ttl" (Some "text/turtle") w).2 in
  content_at (disk w') "/data/c/g.ttl" = Some "a; d"
  /\ exists path content file contentType',
       demo_url_parse_path "/c/g.ttl" = Some path
       /\ demo_serialize_as demo_graph "/c/g.ttl" (Some "text/turtle") = Ok content
       /\ mapUrlToFile (resourceMapper Demo.ldp) (disk w) (UrlString path)
            (Some "text/turtle") true true = Ok (file, contentType')
       /\ content_at (disk w') file = Some content
       /\ held w' = held w.
Proof.
  intros w w'. split; [vm_compute; reflexivity |].
  apply (putGraph_stores_the_serialization Demo.quiet Demo.ldp demo_url_parse_path
           demo_serialize_as demo_graph "/c/g.ttl" (Some "text/turtle") w w').
  vm_compute. reflexivity.
Defined.

(** X27. [readContainerMeta] takes the URL of a container with or
    without its final separator: both name the same metadata resource,
    so the two calls are the same computation. *)
Theorem readContainerMeta_with_or_without_separator (this : LDP) (url : string) :
  Js.endsWith url "/" = false ->
  readContainerMeta this (url +:+ "/") = readContainerMeta this url.
Proof.
  intros Hends. unfold readContainerMeta.
  rewrite endsWith_appended_separator, Hends. reflexivity.
Qed.

Lemma readContainerMeta_with_or_without_separator_witness :
  let w := Demo.world (demo_disk_meta (File "# meta")) in
  readContainerMeta Demo.ldp ("/c" +:+ "/") = readContainerMeta Demo.ldp "/c"
  /\ (readContainerMeta Demo.ldp "/c" w).1 = Ok "# meta".
Proof.
  intros w. split; [| vm_compute; reflexivity].
  apply (readContainerMeta_with_or_without_separator Demo.ldp "/c"). reflexivity.
Defined.
